(** * Customer / address store: consistency of the REST handlers

    A shallow embedding of the server side of the customer CRUD
    application: the two route modules ([routes/customers.js],
    [routes/addresses.js]) and the tables they act on
    ([database/database.js]).

    Every SQL statement issued by the handlers is one function on the
    store; every handler is a function from the store to a response and
    a new store, running its statements in the order in which the
    source queues them.  Requests are handled one at a time: the
    interleaving of statements of different requests is outside this
    model.  The read routes are functions of the store; [ORDER BY] is a
    stable sort, and what is proved of it holds for whatever order the
    engine gives to rows that compare equal.  The engine's [LIKE] and
    its reading of a text parameter as an integer are parameters of the
    two list routes.  Of the client, the address list of the customer
    form is modelled, with the functions that change it and send it.

    Conventions.  Strings are ASCII, so that the length a validator
    measures is [String.length].  A member of a JSON body that may be
    absent is an [option]; [is_primary] is a JSON boolean when present.
    [CURRENT_TIMESTAMP] is a clock reading [now] that comes with the
    request.  The rows that [insertSampleData] writes into empty tables
    when the server starts are not part of the model: stores are reached
    from the empty tables by requests. *)

From Stdlib Require Import List String Ascii ZArith Bool Arith Lia.
From Stdlib Require Import Permutation Sorted.
From Stdlib Require OrderedTypeEx.
Import ListNotations.
Local Open Scope string_scope.
Local Open Scope nat_scope.

(* ================================================================= *)
(** ** JavaScript values as the handlers use them *)

Module Js.

(** [undefined] is [None]; a validator reads it as the empty string. *)
Definition toString (v : option string) : string :=
  match v with Some s => s | None => EmptyString end.

(** Truthiness of a string-or-undefined value. *)
Definition truthy (v : option string) : bool :=
  match v with
  | Some (String _ _) => true
  | _ => false
  end.

(** [v || d] for a string-or-undefined [v]. *)
Definition or_else (v : option string) (d : string) : string :=
  match v with
  | Some (String c r) => String c r
  | _ => d
  end.

(** [v || false] and [if (v)] for a boolean-or-undefined [v]. *)
Definition truthy_bool (v : option bool) : bool :=
  match v with Some b => b | None => false end.

(** Characters matched by [\s], within ASCII. *)
Definition is_space (c : ascii) : bool :=
  let n := nat_of_ascii c in ((9 <=? n) && (n <=? 13)) || (n =? 32).

Definition is_digit (c : ascii) : bool :=
  let n := nat_of_ascii c in (48 <=? n) && (n <=? 57).

Fixpoint ltrim (cs : list ascii) : list ascii :=
  match cs with
  | c :: r => if is_space c then ltrim r else cs
  | [] => []
  end.

(** The [trim()] sanitizer. *)
Definition trim (s : string) : string :=
  string_of_list_ascii
    (rev (ltrim (rev (ltrim (list_ascii_of_string s))))).

(** [isLength({min, max})]. *)
Definition isLength (min max : nat) (s : string) : bool :=
  (min <=? String.length s) && (String.length s <=? max).

(** [matches(/^[0-9]{n}$/)]. *)
Definition matches_digits (n : nat) (s : string) : bool :=
  (String.length s =? n) && forallb is_digit (list_ascii_of_string s).

End Js.

(* ================================================================= *)
(** ** The tables ([database/database.js], [initializeDatabase]) *)

(** A row of [customers]. *)
Record Customer := mkCustomer {
  c_id : Z;
  first_name : string;
  last_name : string;
  phone_number : string;
  email : option string;
  c_created_at : nat;
  c_updated_at : nat;
  has_multiple_addresses : bool;
  only_one_address : bool
}.

(** A row of [addresses]. *)
Record Address := mkAddress {
  a_id : Z;
  customer_id : Z;
  address_line1 : string;
  address_line2 : string;
  city : string;
  state : string;
  pin_code : string;
  country : string;
  is_primary : bool;
  a_created_at : nat;
  a_updated_at : nat
}.

(** The store: both tables in rowid order, the AUTOINCREMENT counters
    of [sqlite_sequence], and the connection's [foreign_keys] setting,
    which decides whether [ON DELETE CASCADE] and the foreign-key check
    on [addresses.customer_id] are enforced. *)
Record Db := mkDb {
  customers : list Customer;
  addresses : list Address;
  seq_customers : Z;
  seq_addresses : Z;
  foreign_keys : bool
}.

(** [new sqlite3.Database(dbPath)] followed by the two CREATE TABLE
    statements on a fresh file.  No statement of the repository sets
    [PRAGMA foreign_keys], so the connection keeps the engine's default,
    which is off. *)
Definition empty_db : Db := mkDb [] [] 0 0 false.

(* ================================================================= *)
(** ** The SQL statements of the handlers *)

Module Sql.

(** [column = ?] and [column != ?] with a parameter that may be
    bound to NULL ([undefined], [NaN]): both are then not true. *)
Definition eq_param (p : option Z) (v : Z) : bool :=
  match p with Some x => Z.eqb x v | None => false end.

Definition neq_param (p : option Z) (v : Z) : bool :=
  match p with Some x => negb (Z.eqb x v) | None => false end.

Definition eq_text (p : option string) (v : string) : bool :=
  match p with Some x => String.eqb v x | None => false end.

Definition same_email (e : option string) (c : Customer) : bool :=
  match email c with Some e' => eq_text e e' | None => false end.

(** [SELECT id FROM customers WHERE id = ?] *)
Definition customer_by_id (id : option Z) (db : Db) : option Customer :=
  find (fun c => eq_param id (c_id c)) (customers db).

(** [SELECT id FROM customers WHERE phone_number = ?] *)
Definition customer_by_phone (p : option string) (db : Db)
  : option Customer :=
  find (fun c => eq_text p (phone_number c)) (customers db).

(** [SELECT id FROM customers WHERE email = ?] *)
Definition customer_by_email (e : option string) (db : Db)
  : option Customer :=
  find (same_email e) (customers db).

(** [SELECT id FROM customers WHERE phone_number = ? AND id != ?] *)
Definition other_customer_by_phone (p : option string) (id : option Z)
    (db : Db) : option Customer :=
  find (fun c => eq_text p (phone_number c) && neq_param id (c_id c))
       (customers db).

(** [SELECT id FROM customers WHERE email = ? AND id != ?] *)
Definition other_customer_by_email (e : option string) (id : option Z)
    (db : Db) : option Customer :=
  find (fun c => same_email e c && neq_param id (c_id c)) (customers db).

(** [SELECT * FROM addresses WHERE customer_id = ?] *)
Definition addresses_of (cid : option Z) (db : Db) : list Address :=
  filter (fun a => eq_param cid (customer_id a)) (addresses db).

(** [SELECT customer_id FROM addresses WHERE id = ?] *)
Definition address_by_id (id : option Z) (db : Db) : option Address :=
  find (fun a => eq_param id (a_id a)) (addresses db).

(** [INSERT INTO customers (first_name, last_name, phone_number, email)
    VALUES (?, ?, ?, ?)]: fails on a NULL in a NOT NULL column and on
    the UNIQUE constraints of [phone_number] and [email] (a NULL email
    never collides); otherwise the row gets the next AUTOINCREMENT id,
    both timestamps and both flags at their defaults.  Returns
    [this.lastID] and the new store. *)
Definition insert_customer (fn ln ph em : option string) (now : nat)
    (db : Db) : option (Z * Db) :=
  match fn, ln, ph with
  | Some f, Some l, Some p =>
      if existsb (fun c => String.eqb (phone_number c) p) (customers db)
      then None
      else if existsb (same_email em) (customers db)
      then None
      else
        let id := (seq_customers db + 1)%Z in
        Some (id,
              mkDb (customers db
                   ++ [mkCustomer id f l p em now now false false])
                   (addresses db) id (seq_addresses db) (foreign_keys db))
  | _, _, _ => None
  end.

(** [INSERT INTO addresses (customer_id, address_line1, address_line2,
    city, state, pin_code, country, is_primary) VALUES (...)]: fails on
    a NULL in [customer_id], [address_line1], [city], [state] or
    [pin_code], and, with foreign keys enforced, on a [customer_id]
    without a customer row. *)
Definition insert_address (cid : option Z) (l1 : option string)
    (l2 : string) (ci st pin : option string) (co : string) (prim : bool)
    (now : nat) (db : Db) : option (Z * Db) :=
  match cid, l1, ci, st, pin with
  | Some k, Some a1, Some c, Some s, Some p =>
      if foreign_keys db
         && negb (existsb (fun x => Z.eqb (c_id x) k) (customers db))
      then None
      else
        let id := (seq_addresses db + 1)%Z in
        Some (id,
              mkDb (customers db)
                   (addresses db
                    ++ [mkAddress id k a1 l2 c s p co prim now now])
                   (seq_customers db) id (foreign_keys db))
  | _, _, _, _, _ => None
  end.

Definition set_customer_fields (f l p : string) (em : option string)
    (now : nat) (c : Customer) : Customer :=
  mkCustomer (c_id c) f l p em (c_created_at c) now
             (has_multiple_addresses c) (only_one_address c).

(** [UPDATE customers SET first_name = ?, last_name = ?,
    phone_number = ?, email = ?, updated_at = CURRENT_TIMESTAMP
    WHERE id = ?]: returns [this.changes] and the new store, or fails
    on a constraint when a row is matched. *)
Definition update_customer (fn ln ph em : option string) (id : option Z)
    (now : nat) (db : Db) : option (nat * Db) :=
  match customer_by_id id db with
  | None => Some (0, db)
  | Some _ =>
      match fn, ln, ph with
      | Some f, Some l, Some p =>
          if existsb (fun c => negb (eq_param id (c_id c))
                               && (String.eqb (phone_number c) p
                                   || same_email em c))
                     (customers db)
          then None
          else
            Some (List.length
                    (filter (fun c => eq_param id (c_id c)) (customers db)),
                  mkDb (map (fun c => if eq_param id (c_id c)
                                      then set_customer_fields f l p em now c
                                      else c)
                            (customers db))
                       (addresses db) (seq_customers db) (seq_addresses db)
                       (foreign_keys db))
      | _, _, _ => None
      end
  end.

(** [DELETE FROM addresses WHERE customer_id = ?] *)
Definition delete_addresses_of (cid : option Z) (db : Db) : Db :=
  mkDb (customers db)
       (filter (fun a => negb (eq_param cid (customer_id a))) (addresses db))
       (seq_customers db) (seq_addresses db) (foreign_keys db).

(** [DELETE FROM customers WHERE id = ?]; the addresses of the deleted
    rows go with them only when the connection enforces foreign keys. *)
Definition delete_customer (id : option Z) (db : Db) : Db :=
  mkDb (filter (fun c => negb (eq_param id (c_id c))) (customers db))
       (if foreign_keys db
        then filter (fun a => negb (eq_param id (customer_id a))) (addresses db)
        else addresses db)
       (seq_customers db) (seq_addresses db) (foreign_keys db).

Definition set_primary (b : bool) (a : Address) : Address :=
  mkAddress (a_id a) (customer_id a) (address_line1 a) (address_line2 a)
            (city a) (state a) (pin_code a) (country a) b
            (a_created_at a) (a_updated_at a).

(** [UPDATE addresses SET is_primary = FALSE WHERE customer_id = ?] *)
Definition clear_primary (cid : option Z) (db : Db) : Db :=
  mkDb (customers db)
       (map (fun a => if eq_param cid (customer_id a)
                      then set_primary false a else a)
            (addresses db))
       (seq_customers db) (seq_addresses db) (foreign_keys db).

(** [UPDATE addresses SET is_primary = FALSE
    WHERE customer_id = ? AND id != ?] *)
Definition clear_primary_except (cid : option Z) (aid : option Z) (db : Db)
  : Db :=
  mkDb (customers db)
       (map (fun a => if eq_param cid (customer_id a) && neq_param aid (a_id a)
                      then set_primary false a else a)
            (addresses db))
       (seq_customers db) (seq_addresses db) (foreign_keys db).

Definition set_address_fields (l1 l2 ci st pin co : string) (prim : bool)
    (now : nat) (a : Address) : Address :=
  mkAddress (a_id a) (customer_id a) l1 l2 ci st pin co prim
            (a_created_at a) now.

(** [UPDATE addresses SET address_line1 = ?, address_line2 = ?,
    city = ?, state = ?, pin_code = ?, country = ?, is_primary = ?,
    updated_at = CURRENT_TIMESTAMP WHERE id = ?] *)
Definition update_address (l1 : option string) (l2 : string)
    (ci st pin : option string) (co : string) (prim : bool)
    (id : option Z) (now : nat) (db : Db) : option (nat * Db) :=
  match address_by_id id db with
  | None => Some (0, db)
  | Some _ =>
      match l1, ci, st, pin with
      | Some a1, Some c, Some s, Some p =>
          Some (List.length
                  (filter (fun a => eq_param id (a_id a)) (addresses db)),
                mkDb (customers db)
                     (map (fun a => if eq_param id (a_id a)
                                    then set_address_fields a1 l2 c s p co
                                                            prim now a
                                    else a)
                          (addresses db))
                     (seq_customers db) (seq_addresses db) (foreign_keys db))
      | _, _, _, _ => None
      end
  end.

(** [DELETE FROM addresses WHERE id = ?] *)
Definition delete_address (id : option Z) (db : Db) : Db :=
  mkDb (customers db)
       (filter (fun a => negb (eq_param id (a_id a))) (addresses db))
       (seq_customers db) (seq_addresses db) (foreign_keys db).

Definition set_flags (m o : bool) (c : Customer) : Customer :=
  mkCustomer (c_id c) (first_name c) (last_name c) (phone_number c)
             (email c) (c_created_at c) (c_updated_at c) m o.

(** [SELECT COUNT( * ) FROM addresses WHERE customer_id = ?] *)
Definition count_addresses (cid : option Z) (db : Db) : nat :=
  List.length (addresses_of cid db).

(** [UPDATE customers
     SET has_multiple_addresses =
           (SELECT COUNT( * ) > 1 FROM addresses WHERE customer_id = ?),
         only_one_address =
           (SELECT COUNT( * ) = 1 FROM addresses WHERE customer_id = ?)
     WHERE id = ?], the three parameters bound to the same value. *)
Definition update_address_flags (cid : option Z) (db : Db) : Db :=
  mkDb (map (fun c => if eq_param cid (c_id c)
                      then set_flags (1 <? count_addresses cid db)
                                     (count_addresses cid db =? 1) c
                      else c)
            (customers db))
       (addresses db) (seq_customers db) (seq_addresses db) (foreign_keys db).

End Sql.

(* ================================================================= *)
(** ** Requests and responses *)

(** The JSON envelope of a reply, with the HTTP status; [data_id] is
    the [id] of the [data] member when there is one. *)
Record Response := mkResponse {
  status : nat;
  success : bool;
  message : string;
  data_id : option Z
}.

Definition failure (st : nat) (msg : string) : Response :=
  mkResponse st false msg None.

(** The body of an address request, and an entry of [addresses] in a
    customer request.  A member that is absent is [None]; [is_primary]
    is a JSON boolean when present. *)
Record AddressBody := mkAddressBody {
  req_customer_id : option Z;
  req_address_line1 : option string;
  req_address_line2 : option string;
  req_city : option string;
  req_state : option string;
  req_pin_code : option string;
  req_country : option string;
  req_is_primary : option bool
}.

(** The body of a customer request. *)
Record CustomerBody := mkCustomerBody {
  req_first_name : option string;
  req_last_name : option string;
  req_phone_number : option string;
  req_email : option string;
  req_addresses : option (list AddressBody)
}.

(* ================================================================= *)
(** ** [routes/addresses.js] *)

Module Addresses.

(** The sanitizers of the [validateAddress] chains: [trim()] on
    [address_line1], [city], [state], and on [address_line2] and
    [country] when present ([optional()] skips an absent member). *)
Definition sanitizeAddress (b : AddressBody) : AddressBody :=
  mkAddressBody
    (req_customer_id b)
    (Some (Js.trim (Js.toString (req_address_line1 b))))
    (option_map Js.trim (req_address_line2 b))
    (Some (Js.trim (Js.toString (req_city b))))
    (Some (Js.trim (Js.toString (req_state b))))
    (req_pin_code b)
    (option_map Js.trim (req_country b))
    (req_is_primary b).

Definition optional (check : string -> bool) (v : option string) : bool :=
  match v with Some s => check s | None => true end.

(** [validationResult(req).isEmpty()] after [validateAddress], on the
    sanitized body.  [customer_id] has no chain. *)
Definition validateAddress (b : AddressBody) : bool :=
  Js.isLength 5 200 (Js.toString (req_address_line1 b))
  && optional (Js.isLength 0 200) (req_address_line2 b)
  && Js.isLength 2 50 (Js.toString (req_city b))
  && Js.isLength 2 50 (Js.toString (req_state b))
  && Js.matches_digits 6 (Js.toString (req_pin_code b))
  && optional (Js.isLength 2 50) (req_country b).

(** [updateCustomerAddressFlags(customerId)] *)
Definition updateCustomerAddressFlags (customerId : option Z) (db : Db)
  : Db :=
  Sql.update_address_flags customerId db.

(** [router.post('/')]: create an address. *)
Definition post (now : nat) (body : AddressBody) (db : Db)
  : Response * Db :=
  let b := sanitizeAddress body in
  if negb (validateAddress b) then (failure 400 "Validation errors", db)
  else
    match Sql.customer_by_id (req_customer_id b) db with
    | None => (failure 404 "Customer not found", db)
    | Some _ =>
        let db1 := if Js.truthy_bool (req_is_primary b)
                   then Sql.clear_primary (req_customer_id b) db
                   else db in
        match Sql.insert_address
                (req_customer_id b) (req_address_line1 b)
                (Js.or_else (req_address_line2 b) EmptyString)
                (req_city b) (req_state b) (req_pin_code b)
                (Js.or_else (req_country b) "India")
                (Js.truthy_bool (req_is_primary b)) now db1 with
        | None => (failure 500 "Error creating address", db1)
        | Some (addressId, db2) =>
            (mkResponse 201 true "Address created successfully"
                        (Some addressId),
             updateCustomerAddressFlags (req_customer_id b) db2)
        end
    end.

(** [router.put('/:id')]: update an address; [id] is
    [parseInt(req.params.id)], [None] when that is [NaN]. *)
Definition put (now : nat) (id : option Z) (body : AddressBody) (db : Db)
  : Response * Db :=
  let b := sanitizeAddress body in
  if negb (validateAddress b) then (failure 400 "Validation errors", db)
  else
    match Sql.address_by_id id db with
    | None => (failure 404 "Address not found", db)
    | Some address =>
        let customerId := Some (customer_id address) in
        let db1 := if Js.truthy_bool (req_is_primary b)
                   then Sql.clear_primary_except customerId id db
                   else db in
        match Sql.update_address
                (req_address_line1 b)
                (Js.or_else (req_address_line2 b) EmptyString)
                (req_city b) (req_state b) (req_pin_code b)
                (Js.or_else (req_country b) "India")
                (Js.truthy_bool (req_is_primary b)) id now db1 with
        | None => (failure 500 "Error updating address", db1)
        | Some (changes, db2) =>
            if changes =? 0 then (failure 404 "Address not found", db2)
            else
              (mkResponse 200 true "Address updated successfully" id,
               updateCustomerAddressFlags customerId db2)
        end
    end.

(** [router.delete('/:id')]: delete an address. *)
Definition delete (id : option Z) (db : Db) : Response * Db :=
  match Sql.address_by_id id db with
  | None => (failure 404 "Address not found", db)
  | Some address =>
      let customerId := Some (customer_id address) in
      let db1 := Sql.delete_address id db in
      (mkResponse 200 true "Address deleted successfully" None,
       updateCustomerAddressFlags customerId db1)
  end.

End Addresses.

(* ================================================================= *)
(** ** [routes/customers.js] *)

Module Customers.

(** The sanitizers of [validateCustomer]: [trim()] on both names. *)
Definition sanitizeCustomer (b : CustomerBody) : CustomerBody :=
  mkCustomerBody
    (Some (Js.trim (Js.toString (req_first_name b))))
    (Some (Js.trim (Js.toString (req_last_name b))))
    (req_phone_number b)
    (req_email b)
    (req_addresses b).

(** The flag recomputation that both handlers define locally as
    [updateAddressFlags(customerId)]; its statement is the one of
    [Addresses.updateCustomerAddressFlags]. *)
Definition updateAddressFlags (customerId : option Z) (db : Db) : Db :=
  Sql.update_address_flags customerId db.

(** One turn of [addresses.forEach]: the insert, whose error is logged
    and otherwise ignored. *)
Definition insert_one (customerId : option Z) (now : nat) (db : Db)
    (address : AddressBody) : Db :=
  match Sql.insert_address
          customerId (req_address_line1 address)
          (Js.or_else (req_address_line2 address) EmptyString)
          (req_city address) (req_state address) (req_pin_code address)
          (Js.or_else (req_country address) "India")
          (Js.truthy_bool (req_is_primary address)) now db with
  | Some (_, db') => db'
  | None => db
  end.

(** [addresses.forEach(...)] of both handlers. *)
Definition insert_each (customerId : option Z) (now : nat)
    (addrs : list AddressBody) (db : Db) : Db :=
  fold_left (insert_one customerId now) addrs db.

(** [createCustomerWithAddresses()] *)
Definition createCustomerWithAddresses (now : nat) (b : CustomerBody)
    (db : Db) : Response * Db :=
  match Sql.insert_customer (req_first_name b) (req_last_name b)
                            (req_phone_number b) (req_email b) now db with
  | None => (failure 500 "Error creating customer", db)
  | Some (customerId, db1) =>
      let db2 :=
        match req_addresses b with
        | Some (a :: r) => insert_each (Some customerId) now (a :: r) db1
        | _ => db1
        end in
      (mkResponse 201 true "Customer created successfully"
                  (Some customerId),
       updateAddressFlags (Some customerId) db2)
  end.

(** [updateCustomer()] of the PUT handler. *)
Definition updateCustomer (now : nat) (customerId : option Z)
    (b : CustomerBody) (db : Db) : Response * Db :=
  match Sql.update_customer (req_first_name b) (req_last_name b)
                            (req_phone_number b) (req_email b)
                            customerId now db with
  | None => (failure 500 "Error updating customer", db)
  | Some (changes, db1) =>
      if changes =? 0 then (failure 404 "Customer not found", db1)
      else
        let db2 := Sql.delete_addresses_of customerId db1 in
        let db3 :=
          match req_addresses b with
          | Some (a :: r) => insert_each customerId now (a :: r) db2
          | _ => db2
          end in
        (mkResponse 200 true "Customer updated successfully" customerId,
         updateAddressFlags customerId db3)
  end.

(** [router.delete('/:id')]: delete a customer. *)
Definition delete (id : option Z) (db : Db) : Response * Db :=
  match Sql.customer_by_id id db with
  | None => (failure 404 "Customer not found", db)
  | Some _ =>
      (mkResponse 200 true "Customer deleted successfully" None,
       Sql.delete_customer id db)
  end.

(** [router.get('/:id')]: the customer row with its [addresses]. *)
Definition get (id : option Z) (db : Db)
  : Response * option (Customer * list Address) :=
  match Sql.customer_by_id id db with
  | None => (failure 404 "Customer not found", None)
  | Some customer =>
      (mkResponse 200 true EmptyString id,
       Some (customer, Sql.addresses_of id db))
  end.

Section Validated.

(** The [isEmail()] validator of the validation library. *)
Variable isEmail : string -> bool.

(** [validationResult(req).isEmpty()] after [validateCustomer], on
    the sanitized body. *)
Definition validateCustomer (b : CustomerBody) : bool :=
  Js.isLength 2 50 (Js.toString (req_first_name b))
  && Js.isLength 2 50 (Js.toString (req_last_name b))
  && Js.matches_digits 10 (Js.toString (req_phone_number b))
  && Addresses.optional isEmail (req_email b).

(** [router.post('/')]: create a customer. *)
Definition post (now : nat) (body : CustomerBody) (db : Db)
  : Response * Db :=
  let b := sanitizeCustomer body in
  if negb (validateCustomer b) then (failure 400 "Validation errors", db)
  else
    match Sql.customer_by_phone (req_phone_number b) db with
    | Some _ => (failure 400 "Phone number already exists", db)
    | None =>
        if Js.truthy (req_email b) then
          match Sql.customer_by_email (req_email b) db with
          | Some _ => (failure 400 "Email already exists", db)
          | None => createCustomerWithAddresses now b db
          end
        else createCustomerWithAddresses now b db
    end.

(** [router.put('/:id')]: update a customer. *)
Definition put (now : nat) (id : option Z) (body : CustomerBody)
    (db : Db) : Response * Db :=
  let b := sanitizeCustomer body in
  if negb (validateCustomer b) then (failure 400 "Validation errors", db)
  else
    match Sql.customer_by_id id db with
    | None => (failure 404 "Customer not found", db)
    | Some _ =>
        match Sql.other_customer_by_phone (req_phone_number b) id db with
        | Some _ => (failure 400 "Phone number already exists", db)
        | None =>
            if Js.truthy (req_email b) then
              match Sql.other_customer_by_email (req_email b) id db with
              | Some _ => (failure 400 "Email already exists", db)
              | None => updateCustomer now id b db
              end
            else updateCustomer now id b db
        end
    end.

End Validated.

End Customers.

(* ================================================================= *)
(** ** The server: one request after another *)

Inductive Request :=
| CreateCustomer (now : nat) (body : CustomerBody)
| UpdateCustomer (now : nat) (id : option Z) (body : CustomerBody)
| DeleteCustomer (id : option Z)
| CreateAddress (now : nat) (body : AddressBody)
| UpdateAddress (now : nat) (id : option Z) (body : AddressBody)
| DeleteAddress (id : option Z).

Section Server.

Variable isEmail : string -> bool.

(** The routing of [app.use('/api/customers', ...)] and
    [app.use('/api/addresses', ...)]. *)
Definition handle (r : Request) (db : Db) : Response * Db :=
  match r with
  | CreateCustomer now body => Customers.post isEmail now body db
  | UpdateCustomer now id body => Customers.put isEmail now id body db
  | DeleteCustomer id => Customers.delete id db
  | CreateAddress now body => Addresses.post now body db
  | UpdateAddress now id body => Addresses.put now id body db
  | DeleteAddress id => Addresses.delete id db
  end.

(** The stores the server can be in, starting from the empty one. *)
Inductive reachable : Db -> Prop :=
| reachable_empty : reachable empty_db
| reachable_handle r db :
    reachable db -> reachable (snd (handle r db)).

(** The store after a list of requests, first to last. *)
Definition run (rs : list Request) (db : Db) : Db :=
  fold_left (fun d r => snd (handle r d)) rs db.

End Server.

(* ================================================================= *)
(** ** What the properties speak about *)

(** The primary addresses of a customer. *)
Definition primaries_of (cid : Z) (db : Db) : list Address :=
  filter is_primary (Sql.addresses_of (Some cid) db).

(** No customer id has more than one primary address. *)
Definition primary_exclusive (db : Db) : Prop :=
  forall cid, List.length (primaries_of cid db) <= 1.

(** A row that counts as a primary address of [cid]. *)
Definition primary_of (cid : Z) (a : Address) : bool :=
  Sql.eq_param (Some cid) (customer_id a) && is_primary a.

(** The two derived flags of a customer row agree with the number of
    address rows that carry its id. *)
Definition flags_correct (db : Db) (c : Customer) : Prop :=
  has_multiple_addresses c = (1 <? Sql.count_addresses (Some (c_id c)) db)
  /\ only_one_address c = (Sql.count_addresses (Some (c_id c)) db =? 1).

(** The list a customer request supplies: empty when the member is
    absent. *)
Definition supplied (b : CustomerBody) : list AddressBody :=
  match req_addresses b with Some l => l | None => [] end.

(** The row an address INSERT of the customer handlers stores for one
    supplied entry under a given id, when the entry has the four
    columns that must not be NULL. *)
Definition as_row (cid : Z) (now : nat) (p : AddressBody) (id : Z)
  : option Address :=
  match req_address_line1 p, req_city p, req_state p, req_pin_code p with
  | Some l1, Some c, Some s, Some pin =>
      Some (mkAddress id cid l1 (Js.or_else (req_address_line2 p) EmptyString)
                      c s pin (Js.or_else (req_country p) "India")
                      (Js.truthy_bool (req_is_primary p)) now now)
  | _, _, _, _ => None
  end.

(** The supplied entries as rows, numbered upwards from [seq]; an entry
    without a required column gives no row. *)
Fixpoint rows_from (cid : Z) (now : nat) (seq : Z) (ps : list AddressBody)
  : list Address :=
  match ps with
  | [] => []
  | p :: rest =>
      match as_row cid now p (seq + 1)%Z with
      | Some r => r :: rows_from cid now (seq + 1)%Z rest
      | None => rows_from cid now seq rest
      end
  end.

(** A customer row with its two flags blanked. *)
Definition without_flags (c : Customer) : Customer :=
  Sql.set_flags false false c.

(** A request body with its [customer_id] member replaced. *)
Definition with_customer_id (cid : option Z) (b : AddressBody)
  : AddressBody :=
  mkAddressBody cid (req_address_line1 b) (req_address_line2 b)
                (req_city b) (req_state b) (req_pin_code b)
                (req_country b) (req_is_primary b).

(** The rows an address request with id [id] does not name. *)
Definition other_than (id : option Z) (a : Address) : bool :=
  negb (Sql.eq_param id (a_id a)).

(** A customer row seen without the flags when it is [owner]'s, and
    whole otherwise. *)
Definition blank_flags_of (owner : Z) (c : Customer) : Customer :=
  if Z.eqb (c_id c) owner then without_flags c else c.

(** The structure the engine maintains: ids handed out by the
    AUTOINCREMENT counters, the primary keys, and the connection
    setting. *)
Record well_formed (db : Db) : Prop := mk_well_formed {
  wf_customer_ids :
    forall c, In c (customers db) -> (c_id c <= seq_customers db)%Z;
  wf_address_ids :
    forall a, In a (addresses db) -> (a_id a <= seq_addresses db)%Z;
  wf_address_key : NoDup (map a_id (addresses db));
  wf_customer_key : NoDup (map c_id (customers db));
  wf_foreign_keys : foreign_keys db = false
}.

Definition all_flags_correct (db : Db) : Prop :=
  forall c, In c (customers db) -> flags_correct db c.

(** Every address row that a statement with [WHERE id = ?] matches
    belongs to [owner]. *)
Definition owned_by (id : option Z) (owner : Z) (db : Db) : Prop :=
  forall a, In a (addresses db) -> Sql.eq_param id (a_id a) = true ->
            customer_id a = owner.

(** The address rows of every customer other than [cid] are the same in
    [db'] as in [db]. *)
Definition addr_frame (cid : option Z) (db db' : Db) : Prop :=
  forall k, Sql.eq_param cid k = false ->
            Sql.addresses_of (Some k) db' = Sql.addresses_of (Some k) db.

(** Every customer row of [db'] other than [cid]'s is a row of [db]. *)
Definition cust_frame (cid : option Z) (db db' : Db) : Prop :=
  forall c, In c (customers db') -> Sql.eq_param cid (c_id c) = false ->
            In c (customers db).

(* ================================================================= *)
(** ** Sample requests *)

Definition oak_street (primary : option bool) : AddressBody :=
  mkAddressBody None (Some "12 Oak St") None (Some "Springfield")
                (Some "IL") (Some "620001") None primary.

Definition elm_road (cid : option Z) (primary : option bool) : AddressBody :=
  mkAddressBody cid (Some "  99 Elm Road ") (Some "Flat 2") (Some "Peoria")
                (Some "IL") (Some "616001") (Some "USA") primary.


Definition ann (addrs : option (list AddressBody)) : CustomerBody :=
  mkCustomerBody (Some "Ann") (Some "Lee") (Some "5551112222") None addrs.

Definition bob (phone : string) (mail : option string) : CustomerBody :=
  mkCustomerBody (Some "Bob") (Some "Ray") (Some phone) mail None.

(** The store after Ann was created with one primary address. *)
Definition ann_db : Db :=
  Eval vm_compute in
    snd (Customers.createCustomerWithAddresses
           0 (ann (Some [oak_street (Some true)])) empty_db).

(* ================================================================= *)
(** ** Rows that the address routes write *)

(** The row POST /addresses stores for a body, for customer [cid]
    under id [i]. *)
Definition created_address (now : nat) (body : AddressBody) (cid i : Z)
  : Address :=
  let b := Addresses.sanitizeAddress body in
  mkAddress i cid
            (Js.toString (req_address_line1 b))
            (Js.or_else (req_address_line2 b) EmptyString)
            (Js.toString (req_city b))
            (Js.toString (req_state b))
            (Js.toString (req_pin_code b))
            (Js.or_else (req_country b) "India")
            (Js.truthy_bool (req_is_primary b)) now now.

(** The row PUT /addresses/:id leaves in the place of [a]. *)
Definition updated_address (now : nat) (body : AddressBody) (a : Address)
  : Address :=
  let b := Addresses.sanitizeAddress body in
  Sql.set_address_fields
    (Js.toString (req_address_line1 b))
    (Js.or_else (req_address_line2 b) EmptyString)
    (Js.toString (req_city b))
    (Js.toString (req_state b))
    (Js.toString (req_pin_code b))
    (Js.or_else (req_country b) "India")
    (Js.truthy_bool (req_is_primary b)) now a.

(** The address table as the two [UPDATE ... SET is_primary = FALSE]
    statements of the address routes leave it, when the body asks for a
    primary address; untouched otherwise. *)
Definition cleared_for_post (body : AddressBody) (cid : Z) (db : Db)
  : list Address :=
  if Js.truthy_bool (req_is_primary body)
  then addresses (Sql.clear_primary (Some cid) db)
  else addresses db.

Definition cleared_for_put (body : AddressBody) (cid : Z) (id : option Z)
    (db : Db) : list Address :=
  if Js.truthy_bool (req_is_primary body)
  then addresses (Sql.clear_primary_except (Some cid) id db)
  else addresses db.

(** No address row names a customer id that the counter has not handed
    out yet. *)
Definition owners_bounded (db : Db) : Prop :=
  forall a, In a (addresses db) -> (customer_id a <= seq_customers db)%Z.

(** Two customer rows with the same phone number, or with the same
    email, have the same id. *)
Definition contacts_unique (db : Db) : Prop :=
  forall c c', In c (customers db) -> In c' (customers db) ->
    phone_number c = phone_number c'
    \/ (exists e, email c = Some e /\ email c' = Some e) ->
    c_id c = c_id c'.

(** A reply that reports success. *)
Definition accepted (r : Response) : bool :=
  (status r =? 200) || (status r =? 201).


(* ================================================================= *)
(** ** The read routes *)

(** [ORDER BY]: the rows in the order of [le]; rows that [le] does not
    tell apart stay in table order (the engine promises no order for
    them, and nothing below depends on it). *)
Fixpoint insert_ordered {A} (le : A -> A -> bool) (x : A) (l : list A)
  : list A :=
  match l with
  | [] => [x]
  | y :: r => if le x y then x :: l else y :: insert_ordered le x r
  end.

Definition order_by {A} (le : A -> A -> bool) (l : list A) : list A :=
  fold_right (insert_ordered le) [] l.

(** The four columns of [customers] that the address queries join to
    an address row. *)
Record Owner := mkOwner {
  o_first_name : string;
  o_last_name : string;
  o_phone_number : string;
  o_email : option string
}.

Module AddressQueries.

(** [LEFT JOIN customers c ON a.customer_id = c.id]: the owner columns
    are NULL ([None]) when no customer row has the address's
    [customer_id]. *)
Definition joined (db : Db) (a : Address) : Address * option Owner :=
  (a,
   option_map (fun c => mkOwner (first_name c) (last_name c)
                                (phone_number c) (email c))
              (Sql.customer_by_id (Some (customer_id a)) db)).

(** [router.get('/:id')]: one address with its owner columns. *)
Definition get (id : option Z) (db : Db)
  : Response * option (Address * option Owner) :=
  match Sql.address_by_id id db with
  | None => (failure 404 "Address not found", None)
  | Some address =>
      (mkResponse 200 true EmptyString None, Some (joined db address))
  end.

(** [ORDER BY a.is_primary DESC, a.created_at ASC] *)
Definition primary_first (x y : Address) : bool :=
  (is_primary x && negb (is_primary y))
  || (Bool.eqb (is_primary x) (is_primary y)
      && (a_created_at x <=? a_created_at y)).

(** [router.get('/customer/:customerId')]: the addresses of one
    customer, primary first, then oldest first. *)
Definition by_customer (customerId : option Z) (db : Db)
  : Response * list (Address * option Owner) :=
  match Sql.customer_by_id customerId db with
  | None => (failure 404 "Customer not found", [])
  | Some _ =>
      (mkResponse 200 true EmptyString None,
       map (joined db)
           (order_by primary_first (Sql.addresses_of customerId db)))
  end.

End AddressQueries.

Module CustomerQueries.

(** A row of the two grouped queries: [c.*], [address_count], and the
    [addresses] member that the handler adds. *)
Record Grouped := mkGrouped {
  g_customer : Customer;
  address_count : nat;
  g_addresses : list Address
}.

(** [FROM customers c INNER JOIN addresses a ON c.id = a.customer_id
    GROUP BY c.id] with [COUNT(a.id)]: one group per customer row that
    has an address ([id] is the primary key), with the number of its
    address rows. *)
Definition counted (db : Db) : list (Customer * nat) :=
  filter (fun g => 0 <? snd g)
         (map (fun c => (c, Sql.count_addresses (Some (c_id c)) db))
              (customers db)).

(** [db.all('SELECT * FROM addresses WHERE customer_id = ?',
    [customer.id], ...)] for each row of a grouped query. *)
Definition with_addresses (db : Db) (g : Customer * nat) : Grouped :=
  mkGrouped (fst g) (snd g) (Sql.addresses_of (Some (c_id (fst g))) db).

(** [router.get('/multiple-addresses')]:
    [HAVING COUNT(a.id) > 1 ORDER BY address_count DESC] *)
Definition multiple_addresses (db : Db) : Response * list Grouped :=
  (mkResponse 200 true EmptyString None,
   map (with_addresses db)
       (order_by (fun x y => snd y <=? snd x)
                 (filter (fun g => 1 <? snd g) (counted db)))).

(** [router.get('/single-address')]:
    [HAVING COUNT(a.id) = 1 ORDER BY c.created_at DESC] *)
Definition single_address (db : Db) : Response * list Grouped :=
  (mkResponse 200 true EmptyString None,
   map (with_addresses db)
       (order_by (fun x y => c_created_at (fst y) <=? c_created_at (fst x))
                 (filter (fun g => snd g =? 1) (counted db)))).

End CustomerQueries.

(* ================================================================= *)
(** ** Rows that the customer routes write, and disciplined requests *)


(** The number of supplied entries that ask to be primary. *)
Definition primary_entries (b : CustomerBody) : nat :=
  List.length (filter (fun p => Js.truthy_bool (req_is_primary p))
                      (supplied b)).

(** A request whose address list, if it has one, marks at most one
    entry as primary. *)
Definition single_primary (r : Request) : bool :=
  match r with
  | CreateCustomer _ b => primary_entries b <=? 1
  | UpdateCustomer _ _ b => primary_entries b <=? 1
  | _ => true
  end.

Section Disciplined.

Variable isEmail : string -> bool.

(** The stores reached from the empty one by requests that all pass
    [ok]. *)
Inductive reachable_by (ok : Request -> bool) : Db -> Prop :=
| reachable_by_empty : reachable_by ok empty_db
| reachable_by_handle r db :
    reachable_by ok db -> ok r = true ->
    reachable_by ok (snd (handle isEmail r db)).

End Disciplined.

(** Ann's row in [ann_db]. *)
Definition ann_row : Customer :=
  mkCustomer 1 "Ann" "Lee" "5551112222" None 0 0 false true.

(** Her address row in [ann_db]. *)
Definition ann_address : Address :=
  mkAddress 1 1 "12 Oak St" EmptyString "Springfield" "IL" "620001" "India"
            true 0 0.


(* ================================================================= *)
(** ** The customer form of the client ([CustomerForm]) *)

Module CustomerForm.

(** An entry of the form's [addresses] state: a blank one made by
    [addAddress], whose [id] is a [temp-...] string, or a row that
    [fetchCustomer] took from GET /customers/:id, with its numeric [id]
    and its [customer_id]. *)
Record FormAddress := mkFormAddress {
  fa_key : Z + string;
  fa_customer_id : option Z;
  fa_address_line1 : string;
  fa_address_line2 : string;
  fa_city : string;
  fa_state : string;
  fa_pin_code : string;
  fa_country : string;
  fa_is_primary : bool
}.

(** The [(field, value)] pairs with which the form calls
    [updateAddress]. *)
Inductive Change :=
| SetAddressLine1 (value : string)
| SetAddressLine2 (value : string)
| SetCity (value : string)
| SetState (value : string)
| SetPinCode (value : string)
| SetCountry (value : string)
| SetIsPrimary (value : bool).

Definition set_is_primary (v : bool) (a : FormAddress) : FormAddress :=
  mkFormAddress (fa_key a) (fa_customer_id a) (fa_address_line1 a)
                (fa_address_line2 a) (fa_city a) (fa_state a)
                (fa_pin_code a) (fa_country a) v.

(** [{ ...updated[index], [field]: value }] *)
Definition with_change (ch : Change) (a : FormAddress) : FormAddress :=
  match ch with
  | SetAddressLine1 v =>
      mkFormAddress (fa_key a) (fa_customer_id a) v (fa_address_line2 a)
                    (fa_city a) (fa_state a) (fa_pin_code a) (fa_country a)
                    (fa_is_primary a)
  | SetAddressLine2 v =>
      mkFormAddress (fa_key a) (fa_customer_id a) (fa_address_line1 a) v
                    (fa_city a) (fa_state a) (fa_pin_code a) (fa_country a)
                    (fa_is_primary a)
  | SetCity v =>
      mkFormAddress (fa_key a) (fa_customer_id a) (fa_address_line1 a)
                    (fa_address_line2 a) v (fa_state a) (fa_pin_code a)
                    (fa_country a) (fa_is_primary a)
  | SetState v =>
      mkFormAddress (fa_key a) (fa_customer_id a) (fa_address_line1 a)
                    (fa_address_line2 a) (fa_city a) v (fa_pin_code a)
                    (fa_country a) (fa_is_primary a)
  | SetPinCode v =>
      mkFormAddress (fa_key a) (fa_customer_id a) (fa_address_line1 a)
                    (fa_address_line2 a) (fa_city a) (fa_state a) v
                    (fa_country a) (fa_is_primary a)
  | SetCountry v =>
      mkFormAddress (fa_key a) (fa_customer_id a) (fa_address_line1 a)
                    (fa_address_line2 a) (fa_city a) (fa_state a)
                    (fa_pin_code a) v (fa_is_primary a)
  | SetIsPrimary v => set_is_primary v a
  end.

(** [field === 'is_primary' && value] *)
Definition makes_primary (ch : Change) : bool :=
  match ch with SetIsPrimary v => v | _ => false end.

(** [addAddress]: a blank entry at the end, primary when it is the
    first; [key] is the [temp-...] id made from the clock. *)
Definition addAddress (key : string) (addresses : list FormAddress)
  : list FormAddress :=
  (addresses
   ++ [mkFormAddress (inr key) None EmptyString EmptyString EmptyString
                     EmptyString EmptyString "India"
                     (List.length addresses =? 0)])%list.

(** [updated[index] = ...] for an index inside the list. *)
Fixpoint put_at (index : nat) (a : FormAddress) (l : list FormAddress)
  : list FormAddress :=
  match l, index with
  | [], _ => []
  | _ :: r, 0 => a :: r
  | x :: r, S n => x :: put_at n a r
  end.

(** [updated.forEach((addr, i) => { if (i !== index) addr.is_primary =
    false })] *)
Fixpoint unset_others (index : nat) (l : list FormAddress)
  : list FormAddress :=
  match l, index with
  | [], _ => []
  | x :: r, 0 => x :: map (set_is_primary false) r
  | x :: r, S n => set_is_primary false x :: unset_others n r
  end.

(** [updateAddress(index, field, value)].  [None] stands for an index
    that is not a row of the form: JavaScript would then grow the array
    by an entry that has this one member only, which this list type
    does not hold; the form calls it with the index of a rendered
    row. *)
Definition updateAddress (index : nat) (ch : Change)
    (prev : list FormAddress) : option (list FormAddress) :=
  match nth_error prev index with
  | None => None
  | Some a =>
      let updated := put_at index (with_change ch a) prev in
      Some (if makes_primary ch then unset_others index updated
            else updated)
  end.

(** [prev.filter((_, i) => i !== index)] *)
Fixpoint without_index (index : nat) (l : list FormAddress)
  : list FormAddress :=
  match l, index with
  | [], _ => []
  | _ :: r, 0 => r
  | x :: r, S n => x :: without_index n r
  end.

(** [removeAddress(index)]: when the entries that stay have no primary
    one among them, the first becomes primary. *)
Definition removeAddress (index : nat) (prev : list FormAddress)
  : list FormAddress :=
  let updated := without_index index prev in
  match updated with
  | first :: rest =>
      if negb (existsb fa_is_primary updated)
      then set_is_primary true first :: rest
      else updated
  | [] => updated
  end.






(** The number of entries marked primary. *)
Definition primaries (l : list FormAddress) : nat :=
  List.length (filter fa_is_primary l).

End CustomerForm.





(* ================================================================= *)
(** ** The paged lists ([router.get('/')] of both route files) *)

(** The members of [req.query] that the two list routes read.  Each is
    a string, or [undefined] when the URL does not give it. *)
Record Query := mkQuery {
  q_page : option string;
  q_limit : option string;
  q_search : option string;
  q_customer_id : option string;
  q_city : option string;
  q_state : option string;
  q_pin_code : option string;
  q_sort : option string;
  q_order : option string
}.

(** The [pagination] member of a list response. *)
Record Pagination := mkPagination {
  p_page : Z;
  p_limit : Z;
  p_total : Z;
  p_totalPages : Z;
  hasNext : bool;
  hasPrev : bool
}.

Module Paging.

Definition digit (c : ascii) : option Z :=
  if Js.is_digit c then Some (Z.of_nat (nat_of_ascii c) - 48)%Z else None.

Definition hex_digit (c : ascii) : option Z :=
  let n := nat_of_ascii c in
  if Js.is_digit c then Some (Z.of_nat n - 48)%Z
  else if (65 <=? n) && (n <=? 70) then Some (Z.of_nat n - 55)%Z
  else if (97 <=? n) && (n <=? 102) then Some (Z.of_nat n - 87)%Z
  else None.

(** The longest prefix of digits, read in [radix]; [acc] is [None]
    until a digit has been read. *)
Fixpoint numeral (value : ascii -> option Z) (radix : Z) (acc : option Z)
    (cs : list ascii) : option Z :=
  match cs with
  | c :: r =>
      match value c with
      | Some d =>
          numeral value radix
                  (Some (radix * match acc with Some a => a | None => 0 end
                         + d)%Z) r
      | None => acc
      end
  | [] => acc
  end.

Definition unsigned (cs : list ascii) : option Z :=
  match cs with
  | zero :: x :: r =>
      if Ascii.eqb zero "0" && (Ascii.eqb x "x" || Ascii.eqb x "X")
      then numeral hex_digit 16 None r
      else numeral digit 10 None cs
  | _ => numeral digit 10 None cs
  end.

(** [parseInt(v)] for a string-or-undefined [v]: leading white space,
    a sign, then the digits up to the first other character, in base 16
    after [0x].  [None] is NaN.  The model's integers are exact, a
    JavaScript number is so below 2^53. *)
Definition parseInt (v : option string) : option Z :=
  match v with
  | None => None
  | Some s =>
      match Js.ltrim (list_ascii_of_string s) with
      | c :: r =>
          if Ascii.eqb c "-" then option_map Z.opp (unsigned r)
          else if Ascii.eqb c "+" then unsigned r
          else unsigned (c :: r)
      | [] => None
      end
  end.

(** [parseInt(v) || d]: NaN and 0 give [d]. *)
Definition or_number (v : option Z) (d : Z) : Z :=
  match v with
  | Some z => if (z =? 0)%Z then d else z
  | None => d
  end.

(** The validator [isInt({min, max})]: the string is an optional sign
    and one or more digits, and as a number it is within the bounds.
    For such a string the number is the one [parseInt] gives. *)
Definition isInt (min : Z) (max : option Z) (s : string) : bool :=
  let cs := list_ascii_of_string s in
  let digits :=
    match cs with
    | c :: r => if Ascii.eqb c "-" || Ascii.eqb c "+" then r else cs
    | [] => []
    end in
  match digits with
  | [] => false
  | _ :: _ =>
      forallb Js.is_digit digits
      && match parseInt (Some s) with
         | Some z =>
             (min <=? z)%Z
             && match max with Some m => (z <=? m)%Z | None => true end
         | None => false
         end
  end.

(** The validator [isIn(values)]. *)
Definition isIn (values : list string) (s : string) : bool :=
  existsb (String.eqb s) values.

(** [.optional()]: an [undefined] member is not checked. *)
Definition optional (check : string -> bool) (v : option string) : bool :=
  match v with Some s => check s | None => true end.

(** [Math.ceil(total / limit)] for a positive [limit]. *)
Definition ceil (total limit : Z) : Z := (- ((- total) / limit))%Z.

(** The [pagination] object of both list handlers. *)
Definition pagination (page limit total : Z) : Pagination :=
  let totalPages := ceil total limit in
  mkPagination page limit total totalPages
               (page <? totalPages)%Z (1 <? page)%Z.

(** [LIMIT ? OFFSET ?]: a negative limit is no limit, a negative offset
    is none. *)
Definition limit_offset {A} (limit offset : Z) (rows : list A) : list A :=
  let rest := skipn (Z.to_nat offset) rows in
  if (limit <? 0)%Z then rest else firstn (Z.to_nat limit) rest.

(** [ORDER BY column ASC] or [DESC] for a comparison of the column. *)
Definition directed {A} (order : string) (le : A -> A -> bool) (x y : A)
  : bool :=
  if String.eqb order "desc" then le y x else le x y.

(** [const page = parseInt(req.query.page) || 1] *)
Definition page_of (q : Query) : Z := or_number (parseInt (q_page q)) 1.

(** [const limit = parseInt(req.query.limit) || 10] *)
Definition limit_of (q : Query) : Z := or_number (parseInt (q_limit q)) 10.

(** [const offset = (page - 1) * limit] *)
Definition offset_of (q : Query) : Z := ((page_of q - 1) * limit_of q)%Z.

Section Like.

(** The engine's [LIKE]: pattern first, then the text. *)
Variable like : string -> string -> bool.

(** [column LIKE ?] with the parameter [`%${needle}%`], added to the
    query only [if (needle)], for [needle = v || '']. *)
Definition narrowed (v : option string) (column : string) : bool :=
  let needle := Js.or_else v EmptyString in
  if Js.truthy (Some needle) then like ("%" ++ needle ++ "%") column
  else true.

(** The three address filters that both list routes add. *)
Definition in_place (q : Query) (a : Address) : bool :=
  narrowed (q_city q) (city a)
  && narrowed (q_state q) (state a)
  && narrowed (q_pin_code q) (pin_code a).

End Like.

End Paging.

Module AddressList.

(** The validation chain of the route; [isString] holds of every
    string. *)
Definition valid (q : Query) : bool :=
  Paging.optional (Paging.isInt 1 None) (q_page q)
  && Paging.optional (Paging.isInt 1 (Some 100%Z)) (q_limit q)
  && Paging.optional (Paging.isIn ["city"; "state"; "created_at"]) (q_sort q)
  && Paging.optional (Paging.isIn ["asc"; "desc"]) (q_order q).

(** [ORDER BY a.${sort}]: text columns compare byte by byte. *)
Definition by_column (sort : string) (x y : Address) : bool :=
  if String.eqb sort "city" then (city x <=? city y)%string
  else if String.eqb sort "state" then (state x <=? state y)%string
  else a_created_at x <=? a_created_at y.

Section Engine.

Variable like : string -> string -> bool.

(** The integer that the engine reads a text parameter as when it
    compares it with an INTEGER column; [None] when the text is not a
    number, and then it equals no integer. *)
Variable numeric : string -> option Z.

(** [whereClause]: [WHERE 1=1] and the filters that are given. *)
Definition wanted (q : Query) (a : Address) : bool :=
  match q_customer_id q with
  | Some (String c r) =>
      match numeric (String c r) with
      | Some k => Z.eqb (customer_id a) k
      | None => false
      end
  | _ => true
  end
  && Paging.in_place like q a.

(** [router.get('/')] of [routes/addresses.js]. *)
Definition get (q : Query) (db : Db)
  : Response * list (Address * option Owner) * option Pagination :=
  if negb (valid q) then (failure 400 "Validation errors", [], None)
  else
    let page := Paging.page_of q in
    let limit := Paging.limit_of q in
    let offset := Paging.offset_of q in
    let sort := Js.or_else (q_sort q) "created_at" in
    let order := Js.or_else (q_order q) "desc" in
    let total := Z.of_nat (List.length (filter (wanted q) (addresses db))) in
    (mkResponse 200 true EmptyString None,
     Paging.limit_offset limit offset
       (order_by (fun x y => Paging.directed order (by_column sort)
                                             (fst x) (fst y))
                 (filter (fun r => wanted q (fst r))
                         (map (AddressQueries.joined db) (addresses db)))),
     Some (Paging.pagination page limit total)).

End Engine.

End AddressList.

Definition Customer_eq_dec (x y : Customer) : {x = y} + {x <> y}.
Proof.
  decide equality;
    auto using Bool.bool_dec, Nat.eq_dec, Z.eq_dec, string_dec.
  decide equality; apply string_dec.
Defined.

Module CustomerList.

(** A listed customer: [c.*] and the [addresses] member that the
    handler adds. *)
Record Listed := mkListed {
  l_customer : Customer;
  l_addresses : list Address
}.

Definition valid (q : Query) : bool :=
  Paging.optional (Paging.isInt 1 None) (q_page q)
  && Paging.optional (Paging.isInt 1 (Some 100%Z)) (q_limit q)
  && Paging.optional
       (Paging.isIn ["first_name"; "last_name"; "created_at";
                     "phone_number"]) (q_sort q)
  && Paging.optional (Paging.isIn ["asc"; "desc"]) (q_order q).

(** [ORDER BY c.${sort}] *)
Definition by_column (sort : string) (x y : Customer) : bool :=
  if String.eqb sort "first_name" then (first_name x <=? first_name y)%string
  else if String.eqb sort "last_name" then (last_name x <=? last_name y)%string
  else if String.eqb sort "phone_number"
       then (phone_number x <=? phone_number y)%string
  else c_created_at x <=? c_created_at y.

(** [if (city || state || pinCode)] *)
Definition filtered (q : Query) : bool :=
  Js.truthy (Some (Js.or_else (q_city q) EmptyString))
  || Js.truthy (Some (Js.or_else (q_state q) EmptyString))
  || Js.truthy (Some (Js.or_else (q_pin_code q) EmptyString)).

(** [FROM customers c INNER JOIN addresses a ON c.id = a.customer_id] *)
Definition joined (db : Db) : list (Customer * Address) :=
  flat_map (fun c =>
              map (pair c)
                  (filter (fun a => Z.eqb (c_id c) (customer_id a))
                          (addresses db)))
           (customers db).

Section Engine.

Variable like : string -> string -> bool.

(** The rows of the join that pass the address filters. *)
Definition located (q : Query) (db : Db) : list (Customer * Address) :=
  filter (fun r => Paging.in_place like q (snd r)) (joined db).

(** [countQuery]: [COUNT( * )] of customers, or with an address filter
    [COUNT(DISTINCT c.id)] over the join. *)
Definition count (q : Query) (db : Db) : Z :=
  if filtered q
  then Z.of_nat (List.length
                   (nodup Z.eq_dec (map (fun r => c_id (fst r))
                                        (located q db))))
  else Z.of_nat (List.length (customers db)).

(** [query] before [ORDER BY]: [SELECT c.*] of customers, or with an
    address filter [SELECT DISTINCT c.*] over the join. *)
Definition selected (q : Query) (db : Db) : list Customer :=
  if filtered q
  then nodup Customer_eq_dec (map fst (located q db))
  else customers db.

(** [addressQuery] for one listed customer. *)
Definition with_addresses (q : Query) (db : Db) (c : Customer) : Listed :=
  mkListed c (filter (Paging.in_place like q)
                     (Sql.addresses_of (Some (c_id c)) db)).

(** [router.get('/')] of the customer routes.  [search] is read into
    [whereClause] and [params], and neither is used by a query. *)
Definition get (q : Query) (db : Db)
  : Response * list Listed * option Pagination :=
  if negb (valid q) then (failure 400 "Validation errors", [], None)
  else
    let page := Paging.page_of q in
    let limit := Paging.limit_of q in
    let offset := Paging.offset_of q in
    let sort := Js.or_else (q_sort q) "created_at" in
    let order := Js.or_else (q_order q) "desc" in
    let total := count q db in
    (mkResponse 200 true EmptyString None,
     map (with_addresses q db)
         (Paging.limit_offset limit offset
            (order_by (Paging.directed order (by_column sort))
                      (selected q db))),
     Some (Paging.pagination page limit total)).

End Engine.

End CustomerList.


(** Queries whose page and limit keep the offset within a 32-bit
    integer: for these the handlers' arithmetic on JavaScript numbers
    is the integer arithmetic of the model, and the offset is bound to
    the statement as an integer. *)
Definition in_range (q : Query) : Prop :=
  (Paging.page_of q * Paging.limit_of q < 2 ^ 31)%Z.

(** What the rows of a page and its [pagination] object say of each
    other: the page holds the rows left after the earlier pages, up to
    [limit] of them; [totalPages] is the least number of pages that
    hold [total] rows; [hasNext] tells whether rows are left after this
    page and [hasPrev] whether a page comes before it. *)
Definition page_consistent {Row : Type} (data : list Row) (p : Pagination)
  : Prop :=
  (1 <= p_page p)%Z
  /\ (1 <= p_limit p <= 100)%Z
  /\ Z.of_nat (List.length data)
     = Z.max 0 (Z.min (p_limit p)
                      (p_total p - (p_page p - 1) * p_limit p))
  /\ ((p_totalPages p - 1) * p_limit p < p_total p
      <= p_totalPages p * p_limit p)%Z
  /\ (hasNext p = true <-> (p_page p * p_limit p < p_total p)%Z)
  /\ (hasPrev p = true <-> (1 < p_page p)%Z)
  /\ (data = [] <-> (p_totalPages p < p_page p)%Z).

(** Whether a customer has an address row that passes the address
    filters of a query. *)
Definition has_address_in_place (like : string -> string -> bool)
    (q : Query) (db : Db) (c : Customer) : bool :=
  existsb (Paging.in_place like q) (Sql.addresses_of (Some (c_id c)) db).

(** The query with another [search]. *)
Definition with_search (s : option string) (q : Query) : Query :=
  mkQuery (q_page q) (q_limit q) s (q_customer_id q) (q_city q)
          (q_state q) (q_pin_code q) (q_sort q) (q_order q).

(** A query for the first page of ten, narrowed to a city. *)
Definition in_city (name : string) : Query :=
  mkQuery (Some "1") (Some "10") None None (Some name) None None
          None (Some "asc").


(* ================================================================= *)
(** ** Lists and lookups *)

Lemma filter_map_commute {A} (p : A -> bool) (f : A -> A) (l : list A) :
  (forall x, p (f x) = p x) ->
  filter p (map f l) = map f (filter p l).
Proof.
  intros Hp. induction l as [|x l IH]; simpl; [reflexivity|].
  rewrite Hp. destruct (p x); simpl; now rewrite IH.
Qed.

Lemma map_fixed {A} (f : A -> A) (l : list A) :
  (forall x, In x l -> f x = x) -> map f l = l.
Proof.
  induction l as [|x l IH]; simpl; intros H; [reflexivity|].
  rewrite H by now left. f_equal. apply IH. intros y Hy. apply H. now right.
Qed.

Lemma filter_all {A} (p : A -> bool) (l : list A) :
  (forall x, In x l -> p x = true) -> filter p l = l.
Proof.
  induction l as [|x l IH]; simpl; intros H; [reflexivity|].
  rewrite H by now left. f_equal. apply IH. intros y Hy. apply H. now right.
Qed.

Lemma filter_none {A} (p : A -> bool) (l : list A) :
  (forall x, In x l -> p x = false) -> filter p l = [].
Proof.
  induction l as [|x l IH]; simpl; intros H; [reflexivity|].
  rewrite H by now left. apply IH. intros y Hy. apply H. now right.
Qed.

Lemma filter_agree {A} (p q : A -> bool) (l : list A) :
  (forall x, In x l -> p x = q x) -> filter p l = filter q l.
Proof.
  induction l as [|x l IH]; simpl; intros H; [reflexivity|].
  rewrite H by now left. rewrite IH; [reflexivity|].
  intros y Hy. apply H. now right.
Qed.

Lemma eq_param_true p v : Sql.eq_param p v = true <-> p = Some v.
Proof.
  destruct p as [x|]; simpl; [|split; discriminate].
  rewrite Z.eqb_eq. split; congruence.
Qed.

Lemma eq_param_some k v : Sql.eq_param (Some k) v = Z.eqb k v.
Proof. reflexivity. Qed.

Lemma customer_by_id_found id db c :
  Sql.customer_by_id id db = Some c ->
  In c (customers db) /\ id = Some (c_id c).
Proof.
  unfold Sql.customer_by_id. intros H. apply find_some in H.
  now rewrite eq_param_true in H.
Qed.

Lemma address_by_id_found id db a :
  Sql.address_by_id id db = Some a ->
  In a (addresses db) /\ id = Some (a_id a).
Proof.
  unfold Sql.address_by_id. intros H. apply find_some in H.
  now rewrite eq_param_true in H.
Qed.

Lemma find_in_some {A} (p : A -> bool) (l : list A) (x : A) :
  In x l -> p x = true -> exists y, find p l = Some y.
Proof.
  intros Hin Hp. destruct (find p l) as [y|] eqn:E; [now exists y|].
  rewrite (find_none p l E x Hin) in Hp. discriminate.
Qed.

(* ================================================================= *)
(** ** The flag recomputation *)

Lemma addresses_update_address_flags cid db :
  addresses (Sql.update_address_flags cid db) = addresses db.
Proof. reflexivity. Qed.

Lemma count_update_address_flags cid k db :
  Sql.count_addresses k (Sql.update_address_flags cid db)
  = Sql.count_addresses k db.
Proof. reflexivity. Qed.

Lemma update_address_flags_twice cid db :
  Sql.update_address_flags cid (Sql.update_address_flags cid db)
  = Sql.update_address_flags cid db.
Proof.
  unfold Sql.update_address_flags at 1 3. simpl.
  rewrite count_update_address_flags. f_equal.
  rewrite map_map. apply map_ext. intros c.
  destruct (Sql.eq_param cid (c_id c)) eqn:E; simpl; now rewrite E.
Qed.

(** C8. Recomputing the flags of a customer twice in a row, with no
    change of the address rows in between, leaves the store (and so the
    stored [has_multiple_addresses] and [only_one_address]) as one
    recomputation leaves it; this holds for the helper of the address
    routes and for the local copies in the customer routes. *)
Theorem flag_recompute_idempotent (customerId : option Z) (db : Db) :
  Addresses.updateCustomerAddressFlags customerId
    (Addresses.updateCustomerAddressFlags customerId db)
  = Addresses.updateCustomerAddressFlags customerId db
  /\ Customers.updateAddressFlags customerId
       (Customers.updateAddressFlags customerId db)
     = Customers.updateAddressFlags customerId db.
Proof.
  unfold Addresses.updateCustomerAddressFlags, Customers.updateAddressFlags.
  split; apply update_address_flags_twice.
Qed.

(* ================================================================= *)
(** ** Two defects, shown on runs of the handlers *)

Section Runs.

Variable isEmail : string -> bool.

Lemma ann_db_reachable : reachable isEmail ann_db.
Proof.
  exact (reachable_handle isEmail
           (CreateCustomer 0 (ann (Some [oak_street (Some true)])))
           empty_db (reachable_empty isEmail)).
Qed.

(** C1. The customer handlers insert the supplied addresses with
    their [is_primary] as given and never clear another primary:
    creating a customer with two primary entries, or replacing the
    addresses of a customer by two primary entries, leaves that
    customer with two primary addresses in a reachable store. *)
Theorem customer_handlers_keep_two_primaries :
  let two := Some [oak_street (Some true); elm_road None (Some true)] in
  let created := Customers.post isEmail 0 (ann two) empty_db in
  let updated := Customers.put isEmail 1 (Some 1%Z) (ann two) ann_db in
  (status (fst created) = 201
   /\ reachable isEmail (snd created)
   /\ List.length (primaries_of 1 (snd created)) = 2)
  /\ (status (fst updated) = 200
      /\ reachable isEmail (snd updated)
      /\ List.length (primaries_of 1 (snd updated)) = 2).
Proof.
  intros two created updated.
  split; (split; [reflexivity|split; [|reflexivity]]).
  - exact (reachable_handle isEmail (CreateCustomer 0 (ann two))
             empty_db (reachable_empty isEmail)).
  - exact (reachable_handle isEmail (UpdateCustomer 1 (Some 1%Z) (ann two))
             ann_db ann_db_reachable).
Qed.

(** C4. On the connection the server opens, deleting Ann (one
    address) answers 200 and a later GET answers 404, but her address
    row is still in [addresses] and still carries her id. *)
Theorem customer_delete_leaves_addresses :
  let deleted := Customers.delete (Some 1%Z) ann_db in
  reachable isEmail ann_db
  /\ status (fst deleted) = 200
  /\ fst (Customers.get (Some 1%Z) (snd deleted))
     = failure 404 "Customer not found"
  /\ List.length (Sql.addresses_of (Some 1%Z) ann_db) = 1
  /\ Sql.addresses_of (Some 1%Z) (snd deleted)
     = Sql.addresses_of (Some 1%Z) ann_db.
Proof.
  cbv zeta. split; [exact ann_db_reachable|]. repeat split.
Qed.

End Runs.

(* ================================================================= *)
(** ** The statements, one at a time *)

Lemma insert_address_some cid l1 l2 ci st pin co prim now db id db' :
  Sql.insert_address cid l1 l2 ci st pin co prim now db = Some (id, db') ->
  exists k a1 c s p,
    cid = Some k /\ l1 = Some a1 /\ ci = Some c /\ st = Some s
    /\ pin = Some p /\ id = (seq_addresses db + 1)%Z
    /\ db' = mkDb (customers db)
                  (addresses db
                   ++ [mkAddress id k a1 l2 c s p co prim now now])
                  (seq_customers db) id (foreign_keys db).
Proof.
  unfold Sql.insert_address.
  destruct cid as [k|], l1 as [a1|], ci as [c|], st as [s|], pin as [p|];
    try discriminate.
  destruct (foreign_keys db && _); [discriminate|].
  intros H. injection H as <- <-. now exists k, a1, c, s, p.
Qed.

Lemma insert_address_succeeds k a1 l2 c s p co prim now db :
  (foreign_keys db = true -> exists x, In x (customers db) /\ c_id x = k) ->
  Sql.insert_address (Some k) (Some a1) l2 (Some c) (Some s) (Some p) co
                     prim now db
  = Some ((seq_addresses db + 1)%Z,
          mkDb (customers db)
               (addresses db
                ++ [mkAddress (seq_addresses db + 1)%Z k a1 l2 c s p co prim
                              now now])
               (seq_customers db) (seq_addresses db + 1)%Z (foreign_keys db)).
Proof.
  intros Hfk. unfold Sql.insert_address.
  destruct (foreign_keys db) eqn:F; simpl; [|reflexivity].
  destruct (Hfk eq_refl) as (x & Hin & Hx).
  replace (existsb _ _) with true; [reflexivity|].
  symmetry. apply existsb_exists. exists x. split; [exact Hin|].
  now apply Z.eqb_eq.
Qed.

Lemma update_address_some l1 l2 ci st pin co prim id now db n db' :
  Sql.update_address l1 l2 ci st pin co prim id now db = Some (n, db') ->
  customers db' = customers db
  /\ seq_customers db' = seq_customers db
  /\ seq_addresses db' = seq_addresses db
  /\ foreign_keys db' = foreign_keys db
  /\ exists g,
       addresses db' = map (fun a => if Sql.eq_param id (a_id a)
                                     then g a else a) (addresses db)
       /\ (forall a, a_id (g a) = a_id a /\ customer_id (g a) = customer_id a).
Proof.
  unfold Sql.update_address.
  destruct (Sql.address_by_id id db) as [found|].
  - destruct l1 as [a1|], ci as [c|], st as [s|], pin as [p|];
      try discriminate.
    intros H. injection H as <- <-. simpl. repeat split.
    exists (Sql.set_address_fields a1 l2 c s p co prim now).
    split; [reflexivity|]. intros a. split; reflexivity.
  - intros H. injection H as <- <-. repeat split.
    exists (fun a => a). split; [|intros a; split; reflexivity].
    symmetry. apply map_fixed. intros a _. now destruct (Sql.eq_param _ _).
Qed.

Lemma filter_map_untouched {A} (p : A -> bool) (g : A -> A) (l : list A) :
  (forall x, p (g x) = p x) ->
  (forall x, p x = true -> g x = x) ->
  filter p (map g l) = filter p l.
Proof.
  intros Hp Hg. rewrite filter_map_commute by exact Hp.
  apply map_fixed. intros x Hx. apply filter_In in Hx. now apply Hg.
Qed.

Lemma validateAddress_pin b :
  Addresses.validateAddress b = true -> exists p, req_pin_code b = Some p.
Proof.
  unfold Addresses.validateAddress. intros H.
  repeat (apply andb_prop in H; destruct H as [H ?]).
  destruct (req_pin_code b) as [p|]; [now exists p|discriminate].
Qed.

Lemma validateAddress_customer_id cid body :
  Addresses.validateAddress
    (Addresses.sanitizeAddress (with_customer_id cid body))
  = Addresses.validateAddress (Addresses.sanitizeAddress body).
Proof. reflexivity. Qed.

(* ================================================================= *)
(** ** The address routes *)

(** C10. [customer_id] has no validation chain: a body that passes
    [validateAddress] passes it with any [customer_id], also an absent
    one.  When the body passes and its [customer_id] is absent or is the
    id of no customer row, POST /addresses answers 404 with "Customer
    not found" and the store is unchanged. *)
Theorem address_create_unknown_customer
    (now : nat) (body : AddressBody) (db : Db) :
  Addresses.validateAddress (Addresses.sanitizeAddress body) = true ->
  (forall c, In c (customers db) -> req_customer_id body <> Some (c_id c)) ->
  Addresses.post now body db
  = (mkResponse 404 false "Customer not found" None, db)
  /\ forall cid,
       Addresses.validateAddress
         (Addresses.sanitizeAddress (with_customer_id cid body)) = true.
Proof.
  intros Hv Hno. split.
  - unfold Addresses.post. rewrite Hv. simpl.
    destruct (Sql.customer_by_id (req_customer_id body) db) as [c|] eqn:E;
      [|reflexivity].
    apply customer_by_id_found in E. destruct E as [Hin Hid].
    now destruct (Hno c Hin).
  - intros cid. now rewrite validateAddress_customer_id.
Qed.

Lemma address_create_unknown_customer_witness :
  Addresses.post 3 (elm_road (Some 7%Z) (Some true)) ann_db
  = (mkResponse 404 false "Customer not found" None, ann_db)
  /\ forall cid,
       Addresses.validateAddress
         (Addresses.sanitizeAddress
            (with_customer_id cid (elm_road (Some 7%Z) (Some true)))) = true.
Proof.
  apply (address_create_unknown_customer 3 (elm_road (Some 7%Z) (Some true))
                                         ann_db).
  - reflexivity.
  - simpl. intros c [<-|[]]. simpl. discriminate.
Defined.

(** C7. Deleting an address (primary or not) leaves the other address
    rows as they were, so none of them becomes primary; creating or
    updating an address whose [is_primary] is false or absent leaves
    every other address row as it was. *)
Theorem non_primary_changes_keep_other_addresses
    (now : nat) (id : option Z) (body : AddressBody) (db : Db) :
  Js.truthy_bool (req_is_primary body) = false ->
  addresses (snd (Addresses.delete id db))
  = filter (other_than id) (addresses db)
  /\ (exists added,
        addresses (snd (Addresses.post now body db))
        = (addresses db ++ added)%list)
  /\ filter (other_than id) (addresses (snd (Addresses.put now id body db)))
     = filter (other_than id) (addresses db).
Proof.
  intros Hp. split; [|split].
  - unfold Addresses.delete.
    destruct (Sql.address_by_id id db) eqn:E; [reflexivity|].
    simpl. symmetry. apply filter_all. intros a Ha. unfold other_than.
    unfold Sql.address_by_id in E. now rewrite (find_none _ _ E a Ha).
  - unfold Addresses.post.
    destruct (negb _); [exists []; simpl; now rewrite app_nil_r|].
    destruct (Sql.customer_by_id _ db) as [owner|];
      [|exists []; simpl; now rewrite app_nil_r].
    simpl req_is_primary. rewrite Hp.
    destruct (Sql.insert_address _ _ _ _ _ _ _ _ _ db) as [[i d]|] eqn:E;
      [|exists []; simpl; now rewrite app_nil_r].
    apply insert_address_some in E.
    destruct E as (k & a1 & c & s & p & _ & _ & _ & _ & _ & _ & ->).
    eexists. reflexivity.
  - unfold Addresses.put.
    destruct (negb _); [reflexivity|].
    destruct (Sql.address_by_id id db) as [address|]; [|reflexivity].
    simpl req_is_primary. rewrite Hp.
    destruct (Sql.update_address _ _ _ _ _ _ _ id now db) as [[n d]|] eqn:E;
      [|reflexivity].
    apply update_address_some in E.
    destruct E as (_ & _ & _ & _ & g & Hg & Hid).
    assert (H : filter (other_than id) (addresses d)
                = filter (other_than id) (addresses db)).
    { rewrite Hg. apply filter_map_untouched; unfold other_than.
      - intros a. destruct (Sql.eq_param id (a_id a)) eqn:Ea;
          [now rewrite (proj1 (Hid a)), Ea | now rewrite Ea].
      - intros a Ha. now destruct (Sql.eq_param id (a_id a)). }
    now destruct (n =? 0).
Qed.

Lemma non_primary_changes_keep_other_addresses_witness :
  addresses (snd (Addresses.delete (Some 1%Z) ann_db))
  = filter (other_than (Some 1%Z)) (addresses ann_db)
  /\ (exists added,
        addresses (snd (Addresses.post 4 (elm_road (Some 1%Z) (Some false))
                                       ann_db))
        = (addresses ann_db ++ added)%list)
  /\ filter (other_than (Some 1%Z))
            (addresses (snd (Addresses.put 4 (Some 1%Z)
                                           (elm_road (Some 1%Z) (Some false))
                                           ann_db)))
     = filter (other_than (Some 1%Z)) (addresses ann_db).
Proof.
  apply (non_primary_changes_keep_other_addresses
           4 (Some 1%Z) (elm_road (Some 1%Z) (Some false)) ann_db).
  reflexivity.
Defined.

Lemma no_primary_after_clear k l :
  filter is_primary
    (filter (fun a => Sql.eq_param (Some k) (customer_id a))
       (map (fun a => if Sql.eq_param (Some k) (customer_id a)
                      then Sql.set_primary false a else a) l)) = [].
Proof.
  apply filter_none. intros a Ha. apply filter_In in Ha.
  destruct Ha as [Ha Hk]. apply in_map_iff in Ha.
  destruct Ha as (a0 & <- & _).
  destruct (Sql.eq_param (Some k) (customer_id a0)) eqn:E; [reflexivity|].
  congruence.
Qed.



(* ================================================================= *)
(** ** The customer routes: uniqueness *)

Lemma truthy_nonempty e : e <> EmptyString -> Js.truthy (Some e) = true.
Proof. destruct e; [congruence|reflexivity]. Qed.

(** C6. POST /customers with the phone number of an existing customer
    answers 400 and leaves the store as it was; when the body passes
    validation the reply is "Phone number already exists", whatever the
    email is, so the phone check comes first.  With a non-empty email
    that an existing customer has, the answer is again 400 with the
    store unchanged, and it is "Email already exists" when the body
    passes validation and the phone number is new. *)
Theorem duplicate_customer_rejected
    (isEmail : string -> bool) (now : nat) (body : CustomerBody) (db : Db)
    (c : Customer) :
  In c (customers db) ->
  let b := Customers.sanitizeCustomer body in
  let r := Customers.post isEmail now body db in
  (req_phone_number body = Some (phone_number c) ->
   status (fst r) = 400 /\ snd r = db
   /\ (Customers.validateCustomer isEmail b = true ->
       fst r = failure 400 "Phone number already exists"))
  /\ (forall e,
        req_email body = Some e -> e <> EmptyString -> email c = Some e ->
        status (fst r) = 400 /\ snd r = db
        /\ (Customers.validateCustomer isEmail b = true ->
            Sql.customer_by_phone (req_phone_number body) db = None ->
            fst r = failure 400 "Email already exists")).
Proof.
  intros Hin b r. subst b r. unfold Customers.post. split.
  - intros Hph.
    destruct (Customers.validateCustomer isEmail _);
      [|simpl; repeat split; discriminate].
    simpl negb. cbv iota. simpl req_phone_number. rewrite Hph.
    destruct (find_in_some
                (fun x => Sql.eq_text (Some (phone_number c)) (phone_number x))
                (customers db) c Hin) as [y Hy];
      [simpl; apply String.eqb_refl|].
    unfold Sql.customer_by_phone. rewrite Hy. simpl. repeat split.
  - intros e He Hne Hc.
    destruct (Customers.validateCustomer isEmail _);
      [|simpl; repeat split; discriminate].
    simpl negb. cbv iota. simpl req_phone_number. simpl req_email.
    destruct (Sql.customer_by_phone (req_phone_number body) db);
      [simpl; repeat split; discriminate|].
    rewrite He, (truthy_nonempty e Hne).
    destruct (find_in_some (Sql.same_email (Some e)) (customers db) c Hin)
      as [y Hy].
    { unfold Sql.same_email. rewrite Hc. simpl. apply String.eqb_refl. }
    unfold Sql.customer_by_email. rewrite Hy. simpl. repeat split.
Qed.

Lemma duplicate_customer_rejected_witness :
  let c := mkCustomer 1 "Ann" "Lee" "5551112222" (Some "ann@x.io") 0 0
                      false false in
  let db := mkDb [c] [] 1 0 false in
  let body := bob "5551112222" (Some "ann@x.io") in
  let r := Customers.post (fun _ => true) 2 body db in
  (req_phone_number body = Some (phone_number c) ->
   status (fst r) = 400 /\ snd r = db
   /\ (Customers.validateCustomer (fun _ => true)
         (Customers.sanitizeCustomer body) = true ->
       fst r = failure 400 "Phone number already exists"))
  /\ (forall e,
        req_email body = Some e -> e <> EmptyString -> email c = Some e ->
        status (fst r) = 400 /\ snd r = db
        /\ (Customers.validateCustomer (fun _ => true)
              (Customers.sanitizeCustomer body) = true ->
            Sql.customer_by_phone (req_phone_number body) db = None ->
            fst r = failure 400 "Email already exists")).
Proof.
  intros c db body.
  apply (duplicate_customer_rejected (fun _ => true) 2 body db c).
  simpl. left. reflexivity.
Defined.

(* ================================================================= *)
(** ** Keys and counters in every reachable store *)

Lemma NoDup_snoc {A} (l : list A) (x : A) :
  NoDup l -> ~ In x l -> NoDup (l ++ [x]).
Proof.
  intros Hl Hx. apply (NoDup_Add (a := x) (l := l)).
  - rewrite <- (app_nil_r l) at 1. apply Add_app.
  - now split.
Qed.

Section Keys.

Context {Row Key : Type} (key : Row -> Key).

(** Removing rows keeps a key column free of duplicates. *)
Lemma key_filter (keep : Row -> bool) (rows : list Row) :
  NoDup (map key rows) -> NoDup (map key (filter keep rows)).
Proof.
  intros Hkey. induction rows as [|r rows IH]; simpl; [constructor|].
  simpl in Hkey. apply NoDup_cons_iff in Hkey. destruct Hkey as [Hr Hrows].
  destruct (keep r); simpl; [|now apply IH].
  apply NoDup_cons; [|now apply IH].
  intros Hin. apply Hr. apply in_map_iff in Hin.
  destruct Hin as (r' & Er & Hin). apply filter_In in Hin.
  apply in_map_iff. exists r'. now split.
Qed.

(** Two rows of a table with the same key are the same row. *)
Lemma key_injective (rows : list Row) (r r' : Row) :
  NoDup (map key rows) -> In r rows -> In r' rows -> key r = key r' -> r = r'.
Proof.
  intros Hkey. induction rows as [|z rows IH]; simpl; [contradiction|].
  simpl in Hkey. apply NoDup_cons_iff in Hkey. destruct Hkey as [Hz Hrows].
  intros [->|Hr] [->|Hr'] E; auto.
  - exfalso. apply Hz. rewrite E. now apply in_map.
  - exfalso. apply Hz. rewrite <- E. now apply in_map.
Qed.

End Keys.

Lemma in_map_transfer {A B} (f : A -> B) (l l' : list A) (x : A) :
  map f l' = map f l -> In x l' -> exists y, In y l /\ f y = f x.
Proof.
  intros E Hx. apply (in_map f) in Hx. rewrite E in Hx.
  apply in_map_iff in Hx. destruct Hx as (y & Hy & Hin). now exists y.
Qed.

(** A statement that keeps the key columns and counters keeps the
    structure. *)
Lemma well_formed_relabel db db' :
  well_formed db ->
  map c_id (customers db') = map c_id (customers db) ->
  map a_id (addresses db') = map a_id (addresses db) ->
  seq_customers db' = seq_customers db ->
  seq_addresses db' = seq_addresses db ->
  foreign_keys db' = foreign_keys db ->
  well_formed db'.
Proof.
  intros [Hc Ha Hka Hkc Hfk] Ec Ea Esc Esa Ef. constructor.
  - intros c Hin. destruct (in_map_transfer c_id _ _ c Ec Hin) as (y & Hy & <-).
    rewrite Esc. now apply Hc.
  - intros a Hin. destruct (in_map_transfer a_id _ _ a Ea Hin) as (y & Hy & <-).
    rewrite Esa. now apply Ha.
  - now rewrite Ea.
  - now rewrite Ec.
  - now rewrite Ef.
Qed.

(** A statement that only removes rows keeps the structure. *)
Lemma well_formed_restrict db db' p q :
  well_formed db ->
  customers db' = filter p (customers db) ->
  addresses db' = filter q (addresses db) ->
  seq_customers db' = seq_customers db ->
  seq_addresses db' = seq_addresses db ->
  foreign_keys db' = foreign_keys db ->
  well_formed db'.
Proof.
  intros [Hc Ha Hka Hkc Hfk] Ec Ea Esc Esa Ef. constructor.
  - intros c Hin. rewrite Ec in Hin. apply filter_In in Hin.
    rewrite Esc. now apply Hc.
  - intros a Hin. rewrite Ea in Hin. apply filter_In in Hin.
    rewrite Esa. now apply Ha.
  - rewrite Ea. now apply key_filter.
  - rewrite Ec. now apply key_filter.
  - now rewrite Ef.
Qed.

Lemma map_key_conditional {A B} (key : A -> B) (c : A -> bool) (g : A -> A)
    (l : list A) :
  (forall x, key (g x) = key x) ->
  map key (map (fun x => if c x then g x else x) l) = map key l.
Proof.
  intros Hg. rewrite map_map. apply map_ext. intros x.
  now destruct (c x).
Qed.

Lemma well_formed_empty : well_formed empty_db.
Proof. constructor; simpl; try constructor; contradiction. Qed.

Lemma well_formed_clear_primary cid db :
  well_formed db -> well_formed (Sql.clear_primary cid db).
Proof.
  intros H. apply (well_formed_relabel db); try reflexivity; [exact H|].
  now apply map_key_conditional.
Qed.

Lemma well_formed_clear_primary_except cid aid db :
  well_formed db -> well_formed (Sql.clear_primary_except cid aid db).
Proof.
  intros H. apply (well_formed_relabel db); try reflexivity; [exact H|].
  now apply (map_key_conditional a_id
               (fun a => Sql.eq_param cid (customer_id a)
                         && Sql.neq_param aid (a_id a))).
Qed.

Lemma well_formed_update_address_flags cid db :
  well_formed db -> well_formed (Sql.update_address_flags cid db).
Proof.
  intros H. apply (well_formed_relabel db); try reflexivity; [exact H|].
  now apply (map_key_conditional c_id (fun c => Sql.eq_param cid (c_id c))).
Qed.

Lemma well_formed_update_address l1 l2 ci st pin co prim id now db n db' :
  well_formed db ->
  Sql.update_address l1 l2 ci st pin co prim id now db = Some (n, db') ->
  well_formed db'.
Proof.
  intros H E. apply update_address_some in E.
  destruct E as (Ec & Esc & Esa & Ef & g & Hg & Hid).
  apply (well_formed_relabel db); try assumption; [now rewrite Ec|].
  rewrite Hg. apply (map_key_conditional a_id). intros a. apply Hid.
Qed.

Lemma well_formed_delete_address id db :
  well_formed db -> well_formed (Sql.delete_address id db).
Proof.
  intros H.
  apply (well_formed_restrict db _ (fun _ => true)
           (fun a => negb (Sql.eq_param id (a_id a))));
    try reflexivity; [exact H|].
  simpl. symmetry. now apply filter_all.
Qed.

Lemma well_formed_delete_addresses_of cid db :
  well_formed db -> well_formed (Sql.delete_addresses_of cid db).
Proof.
  intros H.
  apply (well_formed_restrict db _ (fun _ => true)
           (fun a => negb (Sql.eq_param cid (customer_id a))));
    try reflexivity; [exact H|].
  simpl. symmetry. now apply filter_all.
Qed.

Lemma well_formed_delete_customer id db :
  well_formed db -> well_formed (Sql.delete_customer id db).
Proof.
  intros H.
  apply (well_formed_restrict db _
           (fun c => negb (Sql.eq_param id (c_id c))) (fun _ => true));
    try reflexivity; [exact H|].
  simpl. rewrite (wf_foreign_keys db H). symmetry. now apply filter_all.
Qed.

Lemma well_formed_insert_address cid l1 l2 ci st pin co prim now db id db' :
  well_formed db ->
  Sql.insert_address cid l1 l2 ci st pin co prim now db = Some (id, db') ->
  well_formed db'.
Proof.
  intros [Hc Ha Hka Hkc Hfk] E. apply insert_address_some in E.
  destruct E as (k & a1 & c & s & p & _ & _ & _ & _ & _ & -> & ->).
  constructor; simpl; try assumption.
  - intros a Hin. apply in_app_or in Hin. destruct Hin as [Hin|[<-|[]]].
    + specialize (Ha a Hin). lia.
    + simpl. lia.
  - rewrite map_app. simpl. apply NoDup_snoc; [assumption|].
    intros Hin. apply in_map_iff in Hin. destruct Hin as (a & Ea & Hin).
    specialize (Ha a Hin). lia.
Qed.

Lemma well_formed_insert_one cid now db p :
  well_formed db -> well_formed (Customers.insert_one cid now db p).
Proof.
  intros H. unfold Customers.insert_one.
  destruct (Sql.insert_address _ _ _ _ _ _ _ _ _ db) as [[i d]|] eqn:E;
    [|exact H].
  exact (well_formed_insert_address _ _ _ _ _ _ _ _ _ _ _ _ H E).
Qed.

Lemma well_formed_insert_each cid now ps db :
  well_formed db -> well_formed (Customers.insert_each cid now ps db).
Proof.
  unfold Customers.insert_each. revert db.
  induction ps as [|p ps IH]; simpl; intros db H; [exact H|].
  apply IH. now apply well_formed_insert_one.
Qed.

Lemma insert_customer_some fn ln ph em now db id db' :
  Sql.insert_customer fn ln ph em now db = Some (id, db') ->
  exists f l p,
    id = (seq_customers db + 1)%Z
    /\ db' = mkDb (customers db
                   ++ [mkCustomer id f l p em now now false false])
                  (addresses db) id (seq_addresses db) (foreign_keys db).
Proof.
  unfold Sql.insert_customer.
  destruct fn as [f|], ln as [l|], ph as [p|]; try discriminate.
  destruct (existsb _ (customers db)); [discriminate|].
  destruct (existsb _ (customers db)); [discriminate|].
  intros H. injection H as <- <-. now exists f, l, p.
Qed.

Lemma update_customer_some fn ln ph em id now db n db' :
  Sql.update_customer fn ln ph em id now db = Some (n, db') ->
  addresses db' = addresses db
  /\ seq_customers db' = seq_customers db
  /\ seq_addresses db' = seq_addresses db
  /\ foreign_keys db' = foreign_keys db
  /\ (n <> 0 -> exists c, In c (customers db') /\ id = Some (c_id c))
  /\ exists g,
       customers db' = map (fun c => if Sql.eq_param id (c_id c)
                                     then g c else c) (customers db)
       /\ (forall c, Sql.set_flags (has_multiple_addresses c)
                                   (only_one_address c) (g c) = g c
                     /\ c_id (g c) = c_id c
                     /\ has_multiple_addresses (g c) = has_multiple_addresses c
                     /\ only_one_address (g c) = only_one_address c).
Proof.
  unfold Sql.update_customer.
  destruct (Sql.customer_by_id id db) as [found|] eqn:Ef.
  - destruct fn as [f|], ln as [l|], ph as [p|]; try discriminate.
    destruct (existsb _ (customers db)); [discriminate|].
    intros H. injection H as <- <-. simpl. repeat split.
    + intros _. apply customer_by_id_found in Ef. destruct Ef as [Hin ->].
      exists (Sql.set_customer_fields f l p em now found).
      split; [|reflexivity].
      apply in_map_iff. exists found. split; [|exact Hin].
      simpl. now rewrite Z.eqb_refl.
    + exists (Sql.set_customer_fields f l p em now).
      split; [reflexivity|]. intros c. repeat split.
  - intros H. injection H as <- <-. repeat split; [congruence|].
    exists (fun c => c). split; [|intros c; repeat split; now destruct c].
    symmetry. apply map_fixed. intros c _. now destruct (Sql.eq_param _ _).
Qed.

Lemma well_formed_insert_customer fn ln ph em now db id db' :
  well_formed db ->
  Sql.insert_customer fn ln ph em now db = Some (id, db') ->
  well_formed db'.
Proof.
  intros [Hc Ha Hka Hkc Hfk] E. apply insert_customer_some in E.
  destruct E as (f & l & p & -> & ->).
  constructor; simpl; try assumption.
  - intros c Hin. apply in_app_or in Hin. destruct Hin as [Hin|[<-|[]]].
    + specialize (Hc c Hin). lia.
    + simpl. lia.
  - rewrite map_app. simpl. apply NoDup_snoc; [assumption|].
    intros Hin. apply in_map_iff in Hin. destruct Hin as (c & Ec & Hin).
    specialize (Hc c Hin). lia.
Qed.

Lemma well_formed_update_customer fn ln ph em id now db n db' :
  well_formed db ->
  Sql.update_customer fn ln ph em id now db = Some (n, db') ->
  well_formed db'.
Proof.
  intros H E. apply update_customer_some in E.
  destruct E as (Ea & Esc & Esa & Ef & _ & g & Hg & Hid).
  apply (well_formed_relabel db); try assumption; [|now rewrite Ea].
  rewrite Hg. apply (map_key_conditional c_id). intros c. apply Hid.
Qed.

Section Structure.

Variable isEmail : string -> bool.

Lemma well_formed_handle r db :
  well_formed db -> well_formed (snd (handle isEmail r db)).
Proof.
  intros H. destruct r as [now body|now id body|id|now body|now id body|id];
    simpl.
  - unfold Customers.post.
    assert (Hcreate : forall b,
               well_formed
                 (snd (Customers.createCustomerWithAddresses now b db))).
    { intros b. unfold Customers.createCustomerWithAddresses.
      destruct (Sql.insert_customer _ _ _ _ now db) as [[i d]|] eqn:E;
        [|exact H].
      apply well_formed_insert_customer in E; [|exact H].
      cbn [snd]. unfold Customers.updateAddressFlags.
      apply well_formed_update_address_flags.
      destruct (req_addresses b) as [[|a r]|]; try exact E.
      now apply well_formed_insert_each. }
    destruct (negb _); [exact H|].
    destruct (Sql.customer_by_phone _ db); [exact H|].
    destruct (Js.truthy _); [|apply Hcreate].
    destruct (Sql.customer_by_email _ db); [exact H|apply Hcreate].
  - unfold Customers.put.
    assert (Hupdate : forall b,
               well_formed (snd (Customers.updateCustomer now id b db))).
    { intros b. unfold Customers.updateCustomer.
      destruct (Sql.update_customer _ _ _ _ id now db) as [[n d]|] eqn:E;
        [|exact H].
      apply well_formed_update_customer in E; [|exact H].
      destruct (n =? 0); [exact E|].
      cbn [snd]. unfold Customers.updateAddressFlags.
      apply well_formed_update_address_flags.
      apply (well_formed_delete_addresses_of id) in E.
      destruct (req_addresses b) as [[|a r]|]; try exact E.
      now apply well_formed_insert_each. }
    destruct (negb _); [exact H|].
    destruct (Sql.customer_by_id id db); [|exact H].
    destruct (Sql.other_customer_by_phone _ id db); [exact H|].
    destruct (Js.truthy _); [|apply Hupdate].
    destruct (Sql.other_customer_by_email _ id db); [exact H|apply Hupdate].
  - unfold Customers.delete.
    destruct (Sql.customer_by_id id db); [|exact H].
    now apply well_formed_delete_customer.
  - unfold Addresses.post.
    destruct (negb _); [exact H|].
    destruct (Sql.customer_by_id _ db); [|exact H].
    set (db1 := if Js.truthy_bool _ then _ else db).
    assert (H1 : well_formed db1).
    { subst db1. destruct (Js.truthy_bool _); [|exact H].
      now apply well_formed_clear_primary. }
    destruct (Sql.insert_address _ _ _ _ _ _ _ _ now db1) as [[i d]|] eqn:E;
      [|exact H1].
    apply well_formed_insert_address in E; [|exact H1].
    now apply well_formed_update_address_flags.
  - unfold Addresses.put.
    destruct (negb _); [exact H|].
    destruct (Sql.address_by_id id db) as [address|]; [|exact H].
    set (db1 := if Js.truthy_bool _ then _ else db).
    assert (H1 : well_formed db1).
    { subst db1. destruct (Js.truthy_bool _); [|exact H].
      now apply well_formed_clear_primary_except. }
    destruct (Sql.update_address _ _ _ _ _ _ _ id now db1) as [[n d]|] eqn:E;
      [|exact H1].
    apply well_formed_update_address in E; [|exact H1].
    destruct (n =? 0); [exact E|].
    now apply well_formed_update_address_flags.
  - unfold Addresses.delete.
    destruct (Sql.address_by_id id db) as [address|]; [|exact H].
    simpl. apply well_formed_update_address_flags.
    now apply well_formed_delete_address.
Qed.

Lemma reachable_well_formed db : reachable isEmail db -> well_formed db.
Proof.
  induction 1 as [|r db _ IH]; [exact well_formed_empty|].
  now apply well_formed_handle.
Qed.

End Structure.

(* ================================================================= *)
(** ** What a statement leaves alone *)

Lemma addr_frame_refl cid db : addr_frame cid db db.
Proof. now intros k _. Qed.

Lemma addr_frame_trans cid db1 db2 db3 :
  addr_frame cid db1 db2 -> addr_frame cid db2 db3 -> addr_frame cid db1 db3.
Proof. intros H12 H23 k Hk. now rewrite H23, H12. Qed.

Lemma addr_frame_same cid db db' :
  addresses db' = addresses db -> addr_frame cid db db'.
Proof. intros E k _. unfold Sql.addresses_of. now rewrite E. Qed.

Lemma cust_frame_same cid db db' :
  customers db' = customers db -> cust_frame cid db db'.
Proof. intros E c Hin _. now rewrite <- E. Qed.

Lemma eq_param_other cid k a :
  Sql.eq_param cid k = false ->
  Sql.eq_param (Some k) (customer_id a) = true ->
  Sql.eq_param cid (customer_id a) = false.
Proof.
  intros Hk Ha. apply eq_param_true in Ha. injection Ha as ->. exact Hk.
Qed.

Lemma addr_frame_clear_primary cid db :
  addr_frame cid db (Sql.clear_primary cid db).
Proof.
  intros k Hk. unfold Sql.addresses_of. simpl.
  apply filter_map_untouched.
  - intros a. now destruct (Sql.eq_param cid (customer_id a)).
  - intros a Ha. now rewrite (eq_param_other cid k a Hk Ha).
Qed.

Lemma addr_frame_clear_primary_except cid aid db :
  addr_frame cid db (Sql.clear_primary_except cid aid db).
Proof.
  intros k Hk. unfold Sql.addresses_of. simpl.
  apply filter_map_untouched.
  - intros a. now destruct (_ && _).
  - intros a Ha. now rewrite (eq_param_other cid k a Hk Ha).
Qed.

Lemma addr_frame_insert_address cid l1 l2 ci st pin co prim now db id db' :
  Sql.insert_address cid l1 l2 ci st pin co prim now db = Some (id, db') ->
  addr_frame cid db db'.
Proof.
  intros E. apply insert_address_some in E.
  destruct E as (k & a1 & c & s & p & -> & _ & _ & _ & _ & _ & ->).
  intros k' Hk. unfold Sql.addresses_of. simpl. rewrite filter_app. simpl.
  simpl in Hk. rewrite Z.eqb_sym, Hk. apply app_nil_r.
Qed.

Lemma addr_frame_insert_one cid now db p :
  addr_frame cid db (Customers.insert_one cid now db p).
Proof.
  unfold Customers.insert_one.
  destruct (Sql.insert_address _ _ _ _ _ _ _ _ _ db) as [[i d]|] eqn:E;
    [|apply addr_frame_refl].
  exact (addr_frame_insert_address _ _ _ _ _ _ _ _ _ _ _ _ E).
Qed.

Lemma addr_frame_insert_each cid now ps db :
  addr_frame cid db (Customers.insert_each cid now ps db).
Proof.
  unfold Customers.insert_each. revert db.
  induction ps as [|p ps IH]; simpl; intros db; [apply addr_frame_refl|].
  eapply addr_frame_trans; [apply addr_frame_insert_one|apply IH].
Qed.

Lemma customers_insert_one cid now db p :
  customers (Customers.insert_one cid now db p) = customers db.
Proof.
  unfold Customers.insert_one.
  destruct (Sql.insert_address _ _ _ _ _ _ _ _ _ db) as [[i d]|] eqn:E;
    [|reflexivity].
  apply insert_address_some in E.
  now destruct E as (k & a1 & c & s & q & _ & _ & _ & _ & _ & _ & ->).
Qed.

Lemma customers_insert_each cid now ps db :
  customers (Customers.insert_each cid now ps db) = customers db.
Proof.
  unfold Customers.insert_each. revert db.
  induction ps as [|p ps IH]; simpl; intros db; [reflexivity|].
  now rewrite IH, customers_insert_one.
Qed.

Lemma filter_filter_untouched {A} (p q : A -> bool) (l : list A) :
  (forall x, In x l -> p x = true -> q x = true) ->
  filter p (filter q l) = filter p l.
Proof.
  induction l as [|x l IH]; simpl; intros H; [reflexivity|].
  assert (IH' : filter p (filter q l) = filter p l).
  { apply IH. intros y Hy. apply H. now right. }
  destruct (q x) eqn:Eq; simpl.
  - now rewrite IH'.
  - destruct (p x) eqn:Ep; [|exact IH'].
    rewrite (H x (or_introl eq_refl) Ep) in Eq. discriminate.
Qed.

Lemma addr_frame_delete_addresses_of cid db :
  addr_frame cid db (Sql.delete_addresses_of cid db).
Proof.
  intros k Hk. unfold Sql.addresses_of. simpl.
  apply filter_filter_untouched. intros a _ Ha.
  now rewrite (eq_param_other cid k a Hk Ha).
Qed.

Lemma addr_frame_delete_customer id db :
  addr_frame id db (Sql.delete_customer id db).
Proof.
  intros k Hk. unfold Sql.addresses_of. simpl.
  destruct (foreign_keys db); [|reflexivity].
  apply filter_filter_untouched. intros a _ Ha.
  now rewrite (eq_param_other id k a Hk Ha).
Qed.

Lemma owned_by_found id db address :
  well_formed db ->
  Sql.address_by_id id db = Some address ->
  owned_by id (customer_id address) db.
Proof.
  intros H E a Hin Ha. apply address_by_id_found in E.
  destruct E as [Hin' ->]. apply eq_param_true in Ha. injection Ha as Ha.
  now rewrite (key_injective a_id (addresses db) address a
                 (wf_address_key db H) Hin' Hin Ha).
Qed.

Lemma owned_by_clear_primary_except id owner cid aid db :
  owned_by id owner db ->
  owned_by id owner (Sql.clear_primary_except cid aid db).
Proof.
  intros H a Hin Ha. simpl in Hin. apply in_map_iff in Hin.
  destruct Hin as (a0 & <- & Hin0).
  destruct (_ && _); [|now apply H]. simpl. now apply H.
Qed.

Lemma other_owner owner k a :
  Sql.eq_param (Some owner) k = false ->
  Sql.eq_param (Some k) (customer_id a) = true ->
  customer_id a <> owner.
Proof.
  simpl. intros Hk Ha. apply Z.eqb_neq in Hk. apply Z.eqb_eq in Ha.
  congruence.
Qed.

Lemma addr_frame_update_address
    l1 l2 ci st pin co prim id now db n db' owner :
  owned_by id owner db ->
  Sql.update_address l1 l2 ci st pin co prim id now db = Some (n, db') ->
  addr_frame (Some owner) db db'.
Proof.
  intros Ho E. apply update_address_some in E.
  destruct E as (_ & _ & _ & _ & g & Hg & Hid).
  intros k Hk. unfold Sql.addresses_of. rewrite Hg.
  rewrite filter_map_commute.
  - apply map_fixed. intros a Ha. apply filter_In in Ha.
    destruct Ha as [Hin Ha].
    destruct (Sql.eq_param id (a_id a)) eqn:Ei; [|reflexivity].
    destruct (other_owner owner k a Hk Ha). now apply Ho.
  - intros a. destruct (Sql.eq_param id (a_id a)); [|reflexivity].
    now rewrite (proj2 (Hid a)).
Qed.

Lemma addr_frame_delete_address id db owner :
  owned_by id owner db ->
  addr_frame (Some owner) db (Sql.delete_address id db).
Proof.
  intros Ho k Hk. unfold Sql.addresses_of. simpl.
  apply filter_filter_untouched. intros a Hin Ha.
  destruct (Sql.eq_param id (a_id a)) eqn:Ei; [|reflexivity].
  destruct (other_owner owner k a Hk Ha). now apply Ho.
Qed.

(* ================================================================= *)
(** ** The flags in every reachable store *)

Lemma flags_correct_framed cid db db' c :
  flags_correct db c ->
  addr_frame cid db db' ->
  Sql.eq_param cid (c_id c) = false ->
  flags_correct db' c.
Proof.
  unfold flags_correct, Sql.count_addresses. intros H Hf Hc.
  now rewrite (Hf (c_id c) Hc).
Qed.

Lemma flags_after_recompute cid db :
  (forall c, In c (customers db) -> Sql.eq_param cid (c_id c) = false ->
             flags_correct db c) ->
  all_flags_correct (Sql.update_address_flags cid db).
Proof.
  intros H c Hin. simpl in Hin. apply in_map_iff in Hin.
  destruct Hin as (c0 & <- & Hin0). unfold flags_correct.
  rewrite !count_update_address_flags.
  destruct (Sql.eq_param cid (c_id c0)) eqn:E.
  - apply eq_param_true in E. subst cid. simpl. split; reflexivity.
  - now apply H.
Qed.

Lemma flags_step cid db db' :
  all_flags_correct db ->
  addr_frame cid db db' ->
  cust_frame cid db db' ->
  all_flags_correct (Sql.update_address_flags cid db').
Proof.
  intros H Ha Hc. apply flags_after_recompute. intros c Hin Hother.
  apply (flags_correct_framed cid db); auto.
Qed.

Lemma flags_kept_recompute cid db :
  all_flags_correct db ->
  all_flags_correct (Sql.update_address_flags cid db).
Proof. intros H. apply flags_after_recompute. intros c Hin _. now apply H. Qed.

(** Rows that keep id and flags, over counts that do not change. *)
Lemma flags_same_counts db db' :
  all_flags_correct db ->
  (forall c', In c' (customers db') ->
     exists c, In c (customers db) /\ c_id c = c_id c'
               /\ has_multiple_addresses c = has_multiple_addresses c'
               /\ only_one_address c = only_one_address c') ->
  (forall k, Sql.count_addresses (Some k) db'
             = Sql.count_addresses (Some k) db) ->
  all_flags_correct db'.
Proof.
  intros H Hc Hn c' Hin. destruct (Hc c' Hin) as (c & Hin0 & Ei & Em & Eo).
  destruct (H c Hin0) as [Hm Ho]. unfold flags_correct.
  now rewrite Hn, <- Ei, <- Em, <- Eo.
Qed.

Lemma same_rows db db' :
  customers db' = customers db ->
  forall c', In c' (customers db') ->
    exists c, In c (customers db) /\ c_id c = c_id c'
              /\ has_multiple_addresses c = has_multiple_addresses c'
              /\ only_one_address c = only_one_address c'.
Proof. intros E c' Hin. exists c'. now rewrite <- E. Qed.

Lemma count_relabel (c : Address -> bool) (g : Address -> Address) k l :
  (forall a, customer_id (g a) = customer_id a) ->
  List.length
    (filter (fun a => Sql.eq_param k (customer_id a))
            (map (fun a => if c a then g a else a) l))
  = List.length (filter (fun a => Sql.eq_param k (customer_id a)) l).
Proof.
  intros Hg. rewrite filter_map_commute; [apply length_map|].
  intros a. destruct (c a); [now rewrite Hg|reflexivity].
Qed.

Lemma count_clear_primary cid k db :
  Sql.count_addresses k (Sql.clear_primary cid db) = Sql.count_addresses k db.
Proof.
  unfold Sql.count_addresses, Sql.addresses_of. simpl.
  now apply count_relabel.
Qed.

Lemma count_clear_primary_except cid aid k db :
  Sql.count_addresses k (Sql.clear_primary_except cid aid db)
  = Sql.count_addresses k db.
Proof.
  unfold Sql.count_addresses, Sql.addresses_of. simpl.
  now apply (count_relabel
               (fun a => Sql.eq_param cid (customer_id a)
                         && Sql.neq_param aid (a_id a))).
Qed.

Lemma count_update_address l1 l2 ci st pin co prim id now db n db' k :
  Sql.update_address l1 l2 ci st pin co prim id now db = Some (n, db') ->
  Sql.count_addresses k db' = Sql.count_addresses k db.
Proof.
  intros E. apply update_address_some in E.
  destruct E as (_ & _ & _ & _ & g & Hg & Hid).
  unfold Sql.count_addresses, Sql.addresses_of. rewrite Hg.
  apply count_relabel. intros a. apply Hid.
Qed.

Lemma cust_frame_update_customer fn ln ph em id now db n db' :
  Sql.update_customer fn ln ph em id now db = Some (n, db') ->
  cust_frame id db db'.
Proof.
  intros E. apply update_customer_some in E.
  destruct E as (_ & _ & _ & _ & _ & g & Hg & Hid).
  intros c Hin Hc. rewrite Hg in Hin. apply in_map_iff in Hin.
  destruct Hin as (c0 & <- & Hin0).
  destruct (Sql.eq_param id (c_id c0)) eqn:E0; [|exact Hin0].
  destruct (Hid c0) as (_ & Ei & _). rewrite Ei in Hc. congruence.
Qed.

Lemma flags_update_customer fn ln ph em id now db n db' :
  all_flags_correct db ->
  Sql.update_customer fn ln ph em id now db = Some (n, db') ->
  all_flags_correct db'.
Proof.
  intros H E. apply update_customer_some in E.
  destruct E as (Ea & _ & _ & _ & _ & g & Hg & Hid).
  apply (flags_same_counts db); [exact H| |].
  - intros c' Hin. rewrite Hg in Hin. apply in_map_iff in Hin.
    destruct Hin as (c0 & <- & Hin0). exists c0. split; [exact Hin0|].
    destruct (Sql.eq_param id (c_id c0)); [|now repeat split].
    destruct (Hid c0) as (_ & Ei & Em & Eo). now rewrite Ei, Em, Eo.
  - intros k. unfold Sql.count_addresses, Sql.addresses_of. now rewrite Ea.
Qed.

Section Flags.

Variable isEmail : string -> bool.

Lemma flags_createCustomerWithAddresses now b db :
  all_flags_correct db ->
  all_flags_correct (snd (Customers.createCustomerWithAddresses now b db)).
Proof.
  intros H. unfold Customers.createCustomerWithAddresses.
  destruct (Sql.insert_customer _ _ _ _ now db) as [[i d]|] eqn:E;
    [|exact H].
  apply insert_customer_some in E. destruct E as (f & l & p & Ei & ->).
  cbn [snd]. unfold Customers.updateAddressFlags.
  apply (flags_step (Some i) db); [exact H| |].
  - destruct (req_addresses b) as [[|a r]|];
      try (now apply addr_frame_same).
    eapply addr_frame_trans; [|apply addr_frame_insert_each].
    now apply addr_frame_same.
  - assert (Hc : cust_frame (Some i) db
                   (mkDb (customers db
                          ++ [mkCustomer i f l p (req_email b) now now
                                         false false])
                         (addresses db) i (seq_addresses db)
                         (foreign_keys db))).
    { intros c Hin Hc. simpl in Hin. apply in_app_or in Hin.
      destruct Hin as [Hin|[<-|[]]]; [exact Hin|].
      simpl in Hc. rewrite Z.eqb_refl in Hc. discriminate. }
    destruct (req_addresses b) as [[|a r]|]; try exact Hc.
    intros c Hin. rewrite customers_insert_each in Hin. now apply Hc.
Qed.

Lemma flags_updateCustomer now id b db :
  all_flags_correct db ->
  all_flags_correct (snd (Customers.updateCustomer now id b db)).
Proof.
  intros H. unfold Customers.updateCustomer.
  destruct (Sql.update_customer _ _ _ _ id now db) as [[n d]|] eqn:E;
    [|exact H].
  destruct (n =? 0); [exact (flags_update_customer _ _ _ _ _ _ _ _ _ H E)|].
  cbn [snd]. unfold Customers.updateAddressFlags.
  pose proof (cust_frame_update_customer _ _ _ _ _ _ _ _ _ E) as Hc.
  apply update_customer_some in E. destruct E as (Ea & _).
  apply (flags_step id db); [exact H| |].
  - apply (addr_frame_trans id db d); [now apply addr_frame_same|].
    apply (addr_frame_trans id d (Sql.delete_addresses_of id d));
      [apply addr_frame_delete_addresses_of|].
    destruct (req_addresses b) as [[|a r]|]; try apply addr_frame_refl.
    apply addr_frame_insert_each.
  - intros c Hin. apply Hc.
    destruct (req_addresses b) as [[|a r]|]; try exact Hin.
    now rewrite customers_insert_each in Hin.
Qed.

Lemma flags_handle r db :
  well_formed db -> all_flags_correct db ->
  all_flags_correct (snd (handle isEmail r db)).
Proof.
  intros Hwf H.
  destruct r as [now body|now id body|id|now body|now id body|id]; simpl.
  - unfold Customers.post.
    destruct (negb _); [exact H|].
    destruct (Sql.customer_by_phone _ db); [exact H|].
    destruct (Js.truthy _);
      [|now apply flags_createCustomerWithAddresses].
    destruct (Sql.customer_by_email _ db);
      [exact H|now apply flags_createCustomerWithAddresses].
  - unfold Customers.put.
    destruct (negb _); [exact H|].
    destruct (Sql.customer_by_id id db); [|exact H].
    destruct (Sql.other_customer_by_phone _ id db); [exact H|].
    destruct (Js.truthy _); [|now apply flags_updateCustomer].
    destruct (Sql.other_customer_by_email _ id db);
      [exact H|now apply flags_updateCustomer].
  - unfold Customers.delete.
    destruct (Sql.customer_by_id id db) as [found|]; [|exact H].
    cbn [snd]. intros c Hin. simpl in Hin. apply filter_In in Hin.
    destruct Hin as [Hin Hc]. apply negb_true_iff in Hc.
    apply (flags_correct_framed id db); auto.
    apply addr_frame_delete_customer.
  - unfold Addresses.post.
    destruct (negb _); [exact H|].
    destruct (Sql.customer_by_id _ db) as [owner|]; [|exact H].
    set (cid := req_customer_id (Addresses.sanitizeAddress body)).
    set (db1 := if Js.truthy_bool _ then _ else db).
    assert (Hf1 : addr_frame cid db db1).
    { subst db1. destruct (Js.truthy_bool _);
        [apply addr_frame_clear_primary|apply addr_frame_refl]. }
    assert (Hc1 : customers db1 = customers db).
    { subst db1. now destruct (Js.truthy_bool _). }
    destruct (Sql.insert_address _ _ _ _ _ _ _ _ now db1) as [[i d]|] eqn:E.
    + cbn [snd]. unfold Addresses.updateCustomerAddressFlags.
      apply (flags_step cid db); [exact H| |].
      * eapply addr_frame_trans; [exact Hf1|].
        exact (addr_frame_insert_address _ _ _ _ _ _ _ _ _ _ _ _ E).
      * apply insert_address_some in E.
        destruct E as (k & a1 & c & s & p & _ & _ & _ & _ & _ & _ & ->).
        apply cust_frame_same. exact Hc1.
    + cbn [snd]. apply (flags_same_counts db); [exact H| |].
      * now apply same_rows.
      * intros k. subst db1. destruct (Js.truthy_bool _); [|reflexivity].
        apply count_clear_primary.
  - unfold Addresses.put.
    destruct (negb _); [exact H|].
    destruct (Sql.address_by_id id db) as [address|]; [|exact H].
    set (db1 := if Js.truthy_bool _ then _ else db).
    assert (H1 : all_flags_correct db1).
    { apply (flags_same_counts db); [exact H| |].
      - apply same_rows. subst db1. now destruct (Js.truthy_bool _).
      - intros k. subst db1. destruct (Js.truthy_bool _); [|reflexivity].
        apply count_clear_primary_except. }
    destruct (Sql.update_address _ _ _ _ _ _ _ id now db1) as [[n d]|] eqn:E;
      [|exact H1].
    assert (H2 : all_flags_correct d).
    { apply (flags_same_counts db1); [exact H1| |].
      - apply same_rows. apply update_address_some in E. apply E.
      - intros k.
        exact (count_update_address _ _ _ _ _ _ _ _ _ _ _ _ _ E). }
    destruct (n =? 0); [exact H2|].
    cbn [snd]. now apply flags_kept_recompute.
  - unfold Addresses.delete.
    destruct (Sql.address_by_id id db) as [address|] eqn:E; [|exact H].
    cbn [snd]. unfold Addresses.updateCustomerAddressFlags.
    apply (flags_step (Some (customer_id address)) db); [exact H| |].
    + apply addr_frame_delete_address. now apply owned_by_found.
    + now apply cust_frame_same.
Qed.

Lemma reachable_flags_correct db :
  reachable isEmail db -> all_flags_correct db.
Proof.
  induction 1 as [|r db Hr IH]; [intros c []|].
  apply flags_handle; [|exact IH].
  exact (reachable_well_formed isEmail db Hr).
Qed.

(** C2. In every store the server can reach, so also right after an
    address was created or deleted and after a customer was created
    with addresses or had its addresses replaced, each customer row
    has [has_multiple_addresses] true exactly when more than one
    address row carries its id and [only_one_address] true exactly
    when one does; the two flags are never both true. *)
Theorem flags_match_address_count (db : Db) (c : Customer) :
  reachable isEmail db ->
  In c (customers db) ->
  has_multiple_addresses c
  = (1 <? List.length (Sql.addresses_of (Some (c_id c)) db))
  /\ only_one_address c
     = (List.length (Sql.addresses_of (Some (c_id c)) db) =? 1)
  /\ has_multiple_addresses c && only_one_address c = false.
Proof.
  intros Hr Hin. destruct (reachable_flags_correct db Hr c Hin) as [Hm Ho].
  unfold Sql.count_addresses in Hm, Ho. repeat split; try assumption.
  rewrite Hm, Ho.
  destruct (List.length (Sql.addresses_of (Some (c_id c)) db))
    as [|[|n]]; reflexivity.
Qed.

End Flags.

Lemma flags_match_address_count_witness :
  let c := mkCustomer 1 "Ann" "Lee" "5551112222" None 0 0 false true in
  has_multiple_addresses c
  = (1 <? List.length (Sql.addresses_of (Some (c_id c)) ann_db))
  /\ only_one_address c
     = (List.length (Sql.addresses_of (Some (c_id c)) ann_db) =? 1)
  /\ has_multiple_addresses c && only_one_address c = false.
Proof.
  intros c.
  apply (flags_match_address_count (fun _ => true) ann_db c).
  - exact (reachable_handle (fun _ => true)
             (CreateCustomer 0 (ann (Some [oak_street (Some true)])))
             empty_db (reachable_empty (fun _ => true))).
  - simpl. left. reflexivity.
Defined.

(* ================================================================= *)
(** ** Updating an address *)

Lemma blank_flags_update_address_flags owner db :
  map (blank_flags_of owner)
      (customers (Sql.update_address_flags (Some owner) db))
  = map (blank_flags_of owner) (customers db).
Proof.
  simpl. rewrite map_map. apply map_ext. intros c.
  unfold blank_flags_of. rewrite (Z.eqb_sym owner).
  destruct (Z.eqb (c_id c) owner) eqn:E; simpl; now rewrite E.
Qed.

Lemma keys_clear_primary_except cid aid db :
  map a_id (addresses (Sql.clear_primary_except cid aid db))
  = map a_id (addresses db)
  /\ map customer_id (addresses (Sql.clear_primary_except cid aid db))
     = map customer_id (addresses db).
Proof.
  simpl. split;
    now apply (map_key_conditional _
                 (fun a => Sql.eq_param cid (customer_id a)
                           && Sql.neq_param aid (a_id a))).
Qed.

Lemma keys_update_address l1 l2 ci st pin co prim id now db n db' :
  Sql.update_address l1 l2 ci st pin co prim id now db = Some (n, db') ->
  map a_id (addresses db') = map a_id (addresses db)
  /\ map customer_id (addresses db') = map customer_id (addresses db).
Proof.
  intros E. apply update_address_some in E.
  destruct E as (_ & _ & _ & _ & g & Hg & Hid). rewrite Hg.
  split; apply map_key_conditional; intros a; apply Hid.
Qed.

Section AddressUpdate.

Variable isEmail : string -> bool.

(** C9. PUT /addresses/:id on an existing address, whatever its
    outcome: every address row keeps its id and its [customer_id], row
    by row; the address rows of every customer other than the owner
    are the same as before; and every customer row is the same as
    before, except that the two flags of the owner may have been
    rewritten. *)
Theorem address_update_keeps_owner_and_others
    (now : nat) (id : option Z) (body : AddressBody) (db : Db)
    (address : Address) :
  reachable isEmail db ->
  Sql.address_by_id id db = Some address ->
  let db' := snd (Addresses.put now id body db) in
  map a_id (addresses db') = map a_id (addresses db)
  /\ map customer_id (addresses db') = map customer_id (addresses db)
  /\ (forall k, k <> customer_id address ->
        Sql.addresses_of (Some k) db' = Sql.addresses_of (Some k) db)
  /\ map (blank_flags_of (customer_id address)) (customers db')
     = map (blank_flags_of (customer_id address)) (customers db).
Proof.
  intros Hr Ha db'. subst db'.
  pose proof (reachable_well_formed isEmail db Hr) as Hwf.
  pose proof (owned_by_found id db address Hwf Ha) as Ho.
  set (owner := customer_id address) in *.
  set (P := fun d : Db =>
              map a_id (addresses d) = map a_id (addresses db)
              /\ map customer_id (addresses d)
                 = map customer_id (addresses db)
              /\ addr_frame (Some owner) db d
              /\ customers d = customers db).
  assert (Hfinal : forall d, P d ->
            map a_id (addresses d) = map a_id (addresses db)
            /\ map customer_id (addresses d)
               = map customer_id (addresses db)
            /\ (forall k, k <> owner ->
                  Sql.addresses_of (Some k) d = Sql.addresses_of (Some k) db)
            /\ map (blank_flags_of owner) (customers d)
               = map (blank_flags_of owner) (customers db)).
  { intros d (H1 & H2 & H3 & H4). repeat split; try assumption.
    - intros k Hk. apply H3. simpl. apply Z.eqb_neq. congruence.
    - now rewrite H4. }
  assert (P0 : P db).
  { unfold P. auto using addr_frame_refl. }
  unfold Addresses.put.
  destruct (negb _); [now apply Hfinal|].
  rewrite Ha. fold owner.
  set (db1 := if Js.truthy_bool _ then _ else db).
  assert (P1 : P db1 /\ owned_by id owner db1).
  { subst db1. destruct (Js.truthy_bool _); [|now split].
    split; [|now apply owned_by_clear_primary_except].
    destruct (keys_clear_primary_except (Some owner) id db) as [K1 K2].
    repeat split; try assumption.
    apply addr_frame_clear_primary_except. }
  destruct P1 as [(K1 & K2 & F1 & C1) Ho1].
  destruct (Sql.update_address _ _ _ _ _ _ _ id now db1) as [[n d]|] eqn:E;
    [|apply Hfinal; now repeat split].
  assert (P2 : P d).
  { destruct (keys_update_address _ _ _ _ _ _ _ _ _ _ _ _ E) as [K3 K4].
    pose proof (addr_frame_update_address _ _ _ _ _ _ _ _ _ _ _ _ _ Ho1 E)
      as F2.
    apply update_address_some in E. destruct E as (C2 & _).
    repeat split; try congruence.
    now apply (addr_frame_trans _ db db1). }
  destruct (n =? 0); [now apply Hfinal|].
  cbn [snd]. unfold Addresses.updateCustomerAddressFlags.
  destruct (Hfinal d P2) as (R1 & R2 & R3 & R4).
  repeat split; try assumption.
  now rewrite blank_flags_update_address_flags.
Qed.

End AddressUpdate.

Lemma address_update_keeps_owner_and_others_witness :
  let address := mkAddress 1 1 "12 Oak St" EmptyString "Springfield" "IL"
                           "620001" "India" true 0 0 in
  let db' := snd (Addresses.put 6 (Some 1%Z) (elm_road (Some 9%Z) (Some true))
                                ann_db) in
  map a_id (addresses db') = map a_id (addresses ann_db)
  /\ map customer_id (addresses db') = map customer_id (addresses ann_db)
  /\ (forall k, k <> customer_id address ->
        Sql.addresses_of (Some k) db' = Sql.addresses_of (Some k) ann_db)
  /\ map (blank_flags_of (customer_id address)) (customers db')
     = map (blank_flags_of (customer_id address)) (customers ann_db).
Proof.
  intros address.
  apply (address_update_keeps_owner_and_others
           (fun _ => true) 6 (Some 1%Z) (elm_road (Some 9%Z) (Some true))
           ann_db address).
  - exact (reachable_handle (fun _ => true)
             (CreateCustomer 0 (ann (Some [oak_street (Some true)])))
             empty_db (reachable_empty (fun _ => true))).
  - reflexivity.
Defined.

(* ================================================================= *)
(** ** Replacing the addresses of a customer *)

Lemma insert_one_row k now db p :
  (foreign_keys db = true -> exists x, In x (customers db) /\ c_id x = k) ->
  Customers.insert_one (Some k) now db p
  = match as_row k now p (seq_addresses db + 1)%Z with
    | Some r => mkDb (customers db) (addresses db ++ [r]) (seq_customers db)
                     (seq_addresses db + 1)%Z (foreign_keys db)
    | None => db
    end.
Proof.
  intros Hfk. unfold Customers.insert_one, as_row.
  destruct (req_address_line1 p) as [a1|], (req_city p) as [c|],
           (req_state p) as [s|], (req_pin_code p) as [q|];
    try reflexivity.
  now rewrite insert_address_succeeds.
Qed.

Lemma insert_each_rows k now ps db :
  (foreign_keys db = true -> exists x, In x (customers db) /\ c_id x = k) ->
  addresses (Customers.insert_each (Some k) now ps db)
  = (addresses db ++ rows_from k now (seq_addresses db) ps)%list.
Proof.
  unfold Customers.insert_each. revert db.
  induction ps as [|p ps IH]; simpl; intros db Hfk;
    [now rewrite app_nil_r|].
  rewrite (insert_one_row k now db p Hfk).
  destruct (as_row k now p (seq_addresses db + 1)%Z) as [r|];
    [|now apply IH].
  rewrite IH by exact Hfk. simpl. now rewrite <- app_assoc.
Qed.

Lemma as_row_owner k now p i r :
  as_row k now p i = Some r -> customer_id r = k /\ a_id r = i.
Proof.
  unfold as_row.
  destruct (req_address_line1 p), (req_city p), (req_state p),
           (req_pin_code p); try discriminate.
  intros H. injection H as <-. now split.
Qed.

Lemma rows_from_owner k now seq ps r :
  In r (rows_from k now seq ps) -> customer_id r = k /\ (seq < a_id r)%Z.
Proof.
  revert seq. induction ps as [|p ps IH]; simpl; intros seq Hin;
    [contradiction|].
  destruct (as_row k now p (seq + 1)%Z) as [r0|] eqn:E; [|now apply IH].
  destruct Hin as [<-|Hin].
  - apply as_row_owner in E. destruct E as [-> ->]. split; [reflexivity|lia].
  - destruct (IH _ Hin) as [-> Hlt]. split; [reflexivity|lia].
Qed.

Lemma addresses_of_deleted cid db :
  Sql.addresses_of cid (Sql.delete_addresses_of cid db) = [].
Proof.
  unfold Sql.addresses_of. simpl. apply filter_none. intros a Ha.
  apply filter_In in Ha. now apply negb_true_iff.
Qed.

Lemma replace_addresses k now ps db :
  (foreign_keys db = true -> exists x, In x (customers db) /\ c_id x = k) ->
  Sql.addresses_of (Some k)
    (Customers.insert_each (Some k) now ps
       (Sql.delete_addresses_of (Some k) db))
  = rows_from k now (seq_addresses db) ps.
Proof.
  intros Hfk. unfold Sql.addresses_of at 1.
  rewrite insert_each_rows by exact Hfk. rewrite filter_app.
  fold (Sql.addresses_of (Some k) (Sql.delete_addresses_of (Some k) db)).
  rewrite addresses_of_deleted. simpl. apply filter_all. intros r Hr.
  apply rows_from_owner in Hr. destruct Hr as [-> _]. simpl.
  apply Z.eqb_refl.
Qed.

Section Replace.

Variable isEmail : string -> bool.



End Replace.



(* ================================================================= *)
(** ** Deleting a customer and the cascade *)

(** With foreign keys enforced the DELETE takes the customer's
    addresses along. *)
Lemma delete_customer_cascades_when_enforced id db :
  foreign_keys db = true ->
  Sql.addresses_of id (Sql.delete_customer id db) = [].
Proof.
  intros Hfk. unfold Sql.addresses_of. simpl. rewrite Hfk.
  apply filter_none. intros a Ha. apply filter_In in Ha.
  now apply negb_true_iff.
Qed.

(** On the server's connection they are not enforced, and the DELETE
    leaves the address table as it is. *)
Lemma delete_customer_keeps_addresses isEmail id db :
  reachable isEmail db ->
  addresses (snd (Customers.delete id db)) = addresses db.
Proof.
  intros Hr. unfold Customers.delete.
  destruct (Sql.customer_by_id id db); [|reflexivity].
  simpl. now rewrite (wf_foreign_keys db (reachable_well_formed isEmail db Hr)).
Qed.

(** After a successful DELETE the customer is gone: GET answers 404. *)
Lemma get_after_delete id db :
  status (fst (Customers.delete id db)) = 200 ->
  fst (Customers.get id (snd (Customers.delete id db)))
  = failure 404 "Customer not found".
Proof.
  unfold Customers.delete.
  destruct (Sql.customer_by_id id db) as [c|] eqn:E; [|discriminate].
  intros _. cbn [snd]. unfold Customers.get.
  destruct (Sql.customer_by_id id (Sql.delete_customer id db)) as [c'|] eqn:E';
    [|reflexivity].
  apply customer_by_id_found in E'. destruct E' as [Hin ->].
  simpl in Hin. apply filter_In in Hin. destruct Hin as [_ Hne].
  simpl in Hne. rewrite Z.eqb_refl in Hne. discriminate.
Qed.

(* ================================================================= *)
(** ** The address routes keep one primary address per customer *)

Lemma filter_both {A} (p q : A -> bool) (l : list A) :
  filter p (filter q l) = filter (fun x => q x && p x) l.
Proof.
  induction l as [|x l IH]; [reflexivity|].
  cbn [filter]. destruct (q x); cbn [filter andb]; now rewrite IH.
Qed.

Lemma primaries_of_filter cid db :
  primaries_of cid db = filter (primary_of cid) (addresses db).
Proof. apply filter_both. Qed.

Lemma length_filter_within {A} (p q : A -> bool) (l : list A) :
  (forall x, In x l -> p x = true -> q x = true) ->
  List.length (filter p l) <= List.length (filter q l).
Proof.
  induction l as [|x l IH]; simpl; intros H; [lia|].
  assert (IH' : List.length (filter p l) <= List.length (filter q l)).
  { apply IH. intros y Hy. apply H. now right. }
  destruct (p x) eqn:Ep.
  - rewrite (H x (or_introl eq_refl) Ep). simpl. lia.
  - destruct (q x); simpl; lia.
Qed.

Lemma length_filter_map_within {A} (p : A -> bool) (g : A -> A)
    (l : list A) :
  (forall x, In x l -> p (g x) = true -> p x = true) ->
  List.length (filter p (map g l)) <= List.length (filter p l).
Proof.
  induction l as [|x l IH]; simpl; intros H; [lia|].
  assert (IH' : List.length (filter p (map g l))
                <= List.length (filter p l)).
  { apply IH. intros y Hy. apply H. now right. }
  destruct (p (g x)) eqn:Ep.
  - rewrite (H x (or_introl eq_refl) Ep). simpl. lia.
  - destruct (p x); simpl; lia.
Qed.

Lemma length_filter_filter_within {A} (p q : A -> bool) (l : list A) :
  List.length (filter p (filter q l)) <= List.length (filter p l).
Proof.
  induction l as [|x l IH]; simpl; [lia|].
  destruct (q x); simpl; destruct (p x); simpl; lia.
Qed.

(** At most one address row answers to an id. *)
Lemma key_matches_once id db :
  well_formed db ->
  List.length (filter (fun a => Sql.eq_param id (a_id a)) (addresses db)) <= 1.
Proof.
  intros Hwf. pose proof (wf_address_key db Hwf) as Hkey.
  induction (addresses db) as [|a l IH]; simpl; [lia|].
  simpl in Hkey. apply NoDup_cons_iff in Hkey. destruct Hkey as [Ha Hl].
  destruct (Sql.eq_param id (a_id a)) eqn:E; [|now apply IH].
  rewrite filter_none; [simpl; lia|].
  intros b Hb. destruct (Sql.eq_param id (a_id b)) eqn:Eb; [|reflexivity].
  exfalso. apply Ha. apply eq_param_true in E, Eb.
  assert (Eab : a_id a = a_id b) by congruence.
  rewrite Eab. now apply in_map.
Qed.

Lemma update_address_primary l1 l2 ci st pin co prim id now db n db' :
  Sql.update_address l1 l2 ci st pin co prim id now db = Some (n, db') ->
  exists g,
    addresses db' = map (fun a => if Sql.eq_param id (a_id a)
                                  then g a else a) (addresses db)
    /\ (forall a, customer_id (g a) = customer_id a
                  /\ (is_primary (g a) = true ->
                      prim = true \/ is_primary a = true)).
Proof.
  unfold Sql.update_address.
  destruct (Sql.address_by_id id db) as [found|].
  - destruct l1 as [a1|], ci as [c|], st as [s|], pin as [p|];
      try discriminate.
    intros H. injection H as <- <-.
    exists (Sql.set_address_fields a1 l2 c s p co prim now).
    split; [reflexivity|]. intros a. split; [reflexivity|]. simpl. now left.
  - intros H. injection H as <- <-. exists (fun a => a).
    split; [|intros a; split; [reflexivity|now right]].
    symmetry. apply map_fixed. intros a _. now destruct (Sql.eq_param _ _).
Qed.

Lemma primary_exclusive_framed cid db db' k :
  primary_exclusive db ->
  addr_frame cid db db' ->
  Sql.eq_param cid k = false ->
  List.length (primaries_of k db') <= 1.
Proof.
  intros H Hf Hk. unfold primaries_of. rewrite (Hf k Hk). apply H.
Qed.

Lemma primary_exclusive_post now body db :
  primary_exclusive db ->
  primary_exclusive (snd (Addresses.post now body db)).
Proof.
  intros H. unfold Addresses.post.
  destruct (negb _); [exact H|].
  destruct (Sql.customer_by_id _ db) as [owner|]; [|exact H].
  set (cid := req_customer_id (Addresses.sanitizeAddress body)).
  destruct (Js.truthy_bool _) eqn:Ep.
  - assert (H1 : primary_exclusive (Sql.clear_primary cid db)).
    { intros k. rewrite primaries_of_filter. simpl.
      etransitivity; [|apply (H k)]. rewrite primaries_of_filter.
      apply length_filter_map_within. intros a _. unfold primary_of.
      destruct (Sql.eq_param cid (customer_id a)); simpl; [|tauto].
      rewrite andb_false_r. discriminate. }
    destruct (Sql.insert_address _ _ _ _ _ _ _ _ now _) as [[i d]|] eqn:E;
      [|exact H1].
    cbn [snd]. intros k.
    destruct (Sql.eq_param cid k) eqn:Ek.
    + apply insert_address_some in E.
      destruct E as (k0 & a1 & c & s & p & Ec & _ & _ & _ & _ & _ & ->).
      apply eq_param_true in Ek. rewrite Ec in Ek. injection Ek as ->.
      unfold primaries_of, Sql.addresses_of.
      unfold Addresses.updateCustomerAddressFlags.
      cbn [addresses Sql.update_address_flags Sql.clear_primary]. rewrite Ec.
      rewrite !filter_app, no_primary_after_clear. simpl.
      rewrite Z.eqb_refl. simpl. lia.
    + apply (primary_exclusive_framed cid db); [exact H| |exact Ek].
      eapply addr_frame_trans; [apply addr_frame_clear_primary|].
      eapply addr_frame_trans;
        [exact (addr_frame_insert_address _ _ _ _ _ _ _ _ _ _ _ _ E)|].
      now apply addr_frame_same.
  - destruct (Sql.insert_address _ _ _ _ _ _ _ _ now db) as [[i d]|] eqn:E;
      [|exact H].
    cbn [snd]. intros k. apply insert_address_some in E.
    destruct E as (k0 & a1 & c & s & p & _ & _ & _ & _ & _ & _ & ->).
    rewrite primaries_of_filter. simpl. rewrite filter_app. simpl.
    unfold primary_of at 2. simpl. rewrite andb_false_r, app_nil_r.
    rewrite <- primaries_of_filter. apply H.
Qed.

Lemma cleared_or_target owner id a0 :
  let a1 := if Sql.eq_param (Some owner) (customer_id a0)
               && Sql.neq_param (Some id) (a_id a0)
            then Sql.set_primary false a0 else a0 in
  primary_of owner a1 = true -> a_id a1 = id.
Proof.
  unfold primary_of. simpl.
  destruct (Z.eqb owner (customer_id a0)) eqn:Eo; simpl.
  - destruct (Z.eqb id (a_id a0)) eqn:Ei; simpl.
    + intros _. apply Z.eqb_eq in Ei. congruence.
    + rewrite andb_false_r. discriminate.
  - rewrite Eo. discriminate.
Qed.

Lemma primary_exclusive_put now id body db :
  well_formed db ->
  primary_exclusive db ->
  primary_exclusive (snd (Addresses.put now id body db)).
Proof.
  intros Hwf H. unfold Addresses.put.
  destruct (negb _); [exact H|].
  destruct (Sql.address_by_id id db) as [address|] eqn:Ea; [|exact H].
  pose proof (owned_by_found id db address Hwf Ea) as Ho.
  pose proof (proj2 (address_by_id_found _ _ _ Ea)) as Eid.
  set (owner := customer_id address) in *.
  assert (Hflags : forall n d,
             primary_exclusive d ->
             primary_exclusive
               (snd (if n =? 0
                     then (failure 404 "Address not found", d)
                     else (mkResponse 200 true "Address updated successfully"
                                      id,
                           Addresses.updateCustomerAddressFlags (Some owner)
                                                                d)))).
  { intros n d Hd. now destruct (n =? 0). }
  destruct (Js.truthy_bool _) eqn:Ep.
  - set (db1 := Sql.clear_primary_except (Some owner) id db).
    assert (H1 : primary_exclusive db1).
    { intros k. rewrite primaries_of_filter. subst db1. simpl.
      etransitivity; [|apply (H k)]. rewrite primaries_of_filter.
      apply length_filter_map_within. intros a _. unfold primary_of.
      destruct (_ && Sql.neq_param _ _); simpl; [|tauto].
      rewrite andb_false_r. discriminate. }
    destruct (Sql.update_address _ _ _ _ _ _ _ id now db1)
      as [[n d]|] eqn:E; [|exact H1].
    apply Hflags. intros k.
    destruct (Sql.eq_param (Some owner) k) eqn:Ek.
    + assert (Hwfd : well_formed d).
      { exact (well_formed_update_address _ _ _ _ _ _ _ _ _ _ _ _
                 (well_formed_clear_primary_except _ _ _ Hwf) E). }
      apply eq_param_true in Ek. injection Ek as <-.
      rewrite primaries_of_filter.
      etransitivity; [|apply (key_matches_once id d Hwfd)].
      apply length_filter_within. intros a Hin Hp.
      apply update_address_some in E.
      destruct E as (_ & _ & _ & _ & g & Hg & Hid).
      rewrite Hg in Hin. apply in_map_iff in Hin.
      destruct Hin as (a1 & <- & Hin1).
      destruct (Sql.eq_param id (a_id a1)) eqn:Et;
        [now rewrite (proj1 (Hid a1))|].
      subst db1. cbn [addresses Sql.clear_primary_except] in Hin1.
      apply in_map_iff in Hin1.
      destruct Hin1 as (a0 & <- & _). rewrite Eid in *.
      rewrite (cleared_or_target owner (a_id address) a0 Hp) in Et.
      simpl in Et. rewrite Z.eqb_refl in Et. discriminate.
    + apply (primary_exclusive_framed (Some owner) db); [exact H| |exact Ek].
      eapply addr_frame_trans; [apply addr_frame_clear_primary_except|].
      refine (addr_frame_update_address _ _ _ _ _ _ _ _ _ _ _ _ owner _ E).
      now apply owned_by_clear_primary_except.
  - destruct (Sql.update_address _ _ _ _ _ _ _ id now db)
      as [[n d]|] eqn:E; [|exact H].
    apply Hflags. intros k. rewrite primaries_of_filter.
    etransitivity; [|apply (H k)]. rewrite primaries_of_filter.
    apply update_address_primary in E. destruct E as (g & -> & Hg).
    apply length_filter_map_within. intros a _. unfold primary_of.
    destruct (Sql.eq_param id (a_id a)); [|tauto].
    destruct (Hg a) as [-> Hprim].
    destruct (Sql.eq_param (Some k) (customer_id a)); simpl; [|tauto].
    intros Hp. destruct (Hprim Hp) as [Hfalse|Hold]; [discriminate|exact Hold].
Qed.

Lemma primary_exclusive_delete id db :
  primary_exclusive db ->
  primary_exclusive (snd (Addresses.delete id db)).
Proof.
  intros H. unfold Addresses.delete.
  destruct (Sql.address_by_id id db) as [address|]; [|exact H].
  cbn [snd]. intros k. rewrite primaries_of_filter. simpl.
  etransitivity; [apply length_filter_filter_within|].
  rewrite <- primaries_of_filter. apply H.
Qed.

(** The three address routes keep the invariant that the customer
    routes break: from a store with keys in order and at most one
    primary address per customer they lead to such a store again. *)
Lemma address_routes_keep_primary_exclusive now id body db :
  well_formed db ->
  primary_exclusive db ->
  primary_exclusive (snd (Addresses.post now body db))
  /\ primary_exclusive (snd (Addresses.put now id body db))
  /\ primary_exclusive (snd (Addresses.delete id db)).
Proof.
  intros Hwf H. split; [|split].
  - now apply primary_exclusive_post.
  - now apply primary_exclusive_put.
  - now apply primary_exclusive_delete.
Qed.

(* ================================================================= *)
(** ** The address routes on a valid request *)

Lemma find_map_same {A} (p : A -> bool) (g : A -> A) (l : list A) :
  (forall x, p (g x) = p x) ->
  find p (map g l) = option_map g (find p l).
Proof.
  intros Hp. induction l as [|x l IH]; simpl; [reflexivity|].
  rewrite Hp. now destruct (p x).
Qed.

Lemma find_some_counted {A} (p : A -> bool) (l : list A) (x : A) :
  find p l = Some x -> (List.length (filter p l) =? 0) = false.
Proof.
  induction l as [|y l IH]; simpl; [discriminate|].
  destruct (p y); [reflexivity|exact IH].
Qed.

Lemma post_valid now body db c :
  Addresses.validateAddress (Addresses.sanitizeAddress body) = true ->
  Sql.customer_by_id (req_customer_id body) db = Some c ->
  Addresses.post now body db
  = (mkResponse 201 true "Address created successfully"
                (Some (seq_addresses db + 1)%Z),
     Sql.update_address_flags (Some (c_id c))
       (mkDb (customers db)
             (cleared_for_post body (c_id c) db
              ++ [created_address now body (c_id c) (seq_addresses db + 1)%Z])
             (seq_customers db) (seq_addresses db + 1)%Z (foreign_keys db))).
Proof.
  intros Hv Hc.
  destruct (validateAddress_pin _ Hv) as [pin Hpin]. simpl in Hpin.
  destruct (customer_by_id_found _ _ _ Hc) as [Hin Hid].
  unfold Addresses.post, Addresses.updateCustomerAddressFlags,
    cleared_for_post, created_address.
  rewrite Hv. simpl negb. cbv iota.
  simpl req_customer_id. simpl req_is_primary. simpl req_address_line1.
  simpl req_city. simpl req_state. simpl req_pin_code.
  rewrite Hc, Hid, Hpin.
  destruct (Js.truthy_bool (req_is_primary body));
    (rewrite insert_address_succeeds
       by (intros _; exists c; split; [exact Hin|reflexivity]));
    reflexivity.
Qed.

Lemma address_by_id_cleared cid id db :
  Sql.address_by_id id (Sql.clear_primary_except cid id db)
  = option_map (fun a => if Sql.eq_param cid (customer_id a)
                            && Sql.neq_param id (a_id a)
                         then Sql.set_primary false a else a)
               (Sql.address_by_id id db).
Proof.
  unfold Sql.address_by_id. simpl. apply find_map_same.
  intros a. now destruct (_ && _).
Qed.

Lemma put_valid now id body db a :
  Addresses.validateAddress (Addresses.sanitizeAddress body) = true ->
  Sql.address_by_id id db = Some a ->
  Addresses.put now id body db
  = (mkResponse 200 true "Address updated successfully" id,
     Sql.update_address_flags (Some (customer_id a))
       (mkDb (customers db)
             (map (fun x => if Sql.eq_param id (a_id x)
                            then updated_address now body x else x)
                  (cleared_for_put body (customer_id a) id db))
             (seq_customers db) (seq_addresses db) (foreign_keys db))).
Proof.
  intros Hv Ha.
  destruct (validateAddress_pin _ Hv) as [pin Hpin]. simpl in Hpin.
  unfold Addresses.put, Addresses.updateCustomerAddressFlags,
    cleared_for_put, updated_address.
  rewrite Hv, Ha. simpl negb. cbv iota.
  simpl req_is_primary. simpl req_address_line1.
  simpl req_city. simpl req_state. simpl req_pin_code. rewrite Hpin.
  destruct (Js.truthy_bool (req_is_primary body)).
  - unfold Sql.update_address. rewrite address_by_id_cleared, Ha.
    cbn [option_map].
    rewrite (find_some_counted _ _ _
               (eq_trans (address_by_id_cleared _ _ _)
                         (f_equal _ Ha))).
    reflexivity.
  - unfold Sql.update_address. rewrite Ha.
    rewrite (find_some_counted _ _ _ Ha). reflexivity.
Qed.

Lemma update_customer_none_changed fn ln ph em id now db n d :
  Sql.update_customer fn ln ph em id now db = Some (n, d) ->
  (n =? 0) = true -> d = db.
Proof.
  unfold Sql.update_customer.
  destruct (Sql.customer_by_id id db) as [found|] eqn:E.
  - destruct fn, ln, ph; try discriminate.
    destruct (existsb _ (customers db)); [discriminate|].
    intros H. injection H as <- <-.
    unfold Sql.customer_by_id in E.
    now rewrite (find_some_counted _ _ _ E).
  - intros H. now injection H as <- <-.
Qed.

Section Rejected.

Variable isEmail : string -> bool.

(** X1. A request that is not answered with 200 or 201 leaves the
    store exactly as it was, whichever of the six mutating routes it
    went to: validation errors, conflicts, unknown ids and failed
    customer inserts or updates write nothing. *)
Theorem rejected_request_changes_nothing (r : Request) (db : Db) :
  accepted (fst (handle isEmail r db)) = false ->
  snd (handle isEmail r db) = db.
Proof.
  destruct r as [now body|now id body|id|now body|now id body|id]; simpl.
  - unfold Customers.post.
    assert (Hc : forall b,
               accepted (fst (Customers.createCustomerWithAddresses
                                now b db)) = false ->
               snd (Customers.createCustomerWithAddresses now b db) = db).
    { intros b. unfold Customers.createCustomerWithAddresses.
      destruct (Sql.insert_customer _ _ _ _ now db) as [[i d]|];
        [discriminate|reflexivity]. }
    destruct (negb _); [reflexivity|].
    destruct (Sql.customer_by_phone _ db); [reflexivity|].
    destruct (Js.truthy _); [|apply Hc].
    destruct (Sql.customer_by_email _ db); [reflexivity|apply Hc].
  - unfold Customers.put.
    assert (Hu : forall b,
               accepted (fst (Customers.updateCustomer now id b db)) = false ->
               snd (Customers.updateCustomer now id b db) = db).
    { intros b. unfold Customers.updateCustomer.
      destruct (Sql.update_customer _ _ _ _ id now db) as [[n d]|] eqn:E;
        [|reflexivity].
      destruct (n =? 0) eqn:En; [|discriminate].
      intros _. exact (update_customer_none_changed _ _ _ _ _ _ _ _ _ E En). }
    destruct (negb _); [reflexivity|].
    destruct (Sql.customer_by_id id db); [|reflexivity].
    destruct (Sql.other_customer_by_phone _ id db); [reflexivity|].
    destruct (Js.truthy _); [|apply Hu].
    destruct (Sql.other_customer_by_email _ id db); [reflexivity|apply Hu].
  - unfold Customers.delete.
    destruct (Sql.customer_by_id id db); [discriminate|reflexivity].
  - destruct (Addresses.validateAddress (Addresses.sanitizeAddress body))
      eqn:Hv; [|unfold Addresses.post; now rewrite Hv].
    destruct (Sql.customer_by_id (req_customer_id body) db) as [c|] eqn:Hc;
      [now rewrite (post_valid now body db c Hv Hc)|].
    unfold Addresses.post. rewrite Hv. simpl. now rewrite Hc.
  - destruct (Addresses.validateAddress (Addresses.sanitizeAddress body))
      eqn:Hv; [|unfold Addresses.put; now rewrite Hv].
    destruct (Sql.address_by_id id db) as [a|] eqn:Ha;
      [now rewrite (put_valid now id body db a Hv Ha)|].
    unfold Addresses.put. rewrite Hv. simpl. now rewrite Ha.
  - unfold Addresses.delete.
    destruct (Sql.address_by_id id db); [discriminate|reflexivity].
Qed.

End Rejected.

Lemma rejected_request_changes_nothing_witness :
  snd (handle (fun _ => true)
              (CreateCustomer 3 (bob "5551112222" (Some "bob@x.io"))) ann_db)
  = ann_db.
Proof.
  apply (rejected_request_changes_nothing
           (fun _ => true)
           (CreateCustomer 3 (bob "5551112222" (Some "bob@x.io"))) ann_db).
  reflexivity.
Defined.

(* ================================================================= *)
(** ** Owners and contacts in every reachable store *)

Lemma seq_customers_insert_one cid now db p :
  seq_customers (Customers.insert_one cid now db p) = seq_customers db.
Proof.
  unfold Customers.insert_one.
  destruct (Sql.insert_address _ _ _ _ _ _ _ _ _ db) as [[i d]|] eqn:E;
    [|reflexivity].
  apply insert_address_some in E.
  now destruct E as (k & a1 & c & s & q & _ & _ & _ & _ & _ & _ & ->).
Qed.

Lemma owners_bounded_insert_one k now db p :
  (k <= seq_customers db)%Z ->
  owners_bounded db ->
  owners_bounded (Customers.insert_one (Some k) now db p).
Proof.
  intros Hk H. unfold Customers.insert_one.
  destruct (Sql.insert_address _ _ _ _ _ _ _ _ _ db) as [[i d]|] eqn:E;
    [|exact H].
  apply insert_address_some in E.
  destruct E as (k' & a1 & c & s & q & Ek & _ & _ & _ & _ & _ & ->).
  injection Ek as <-. intros a Hin. simpl in *.
  apply in_app_or in Hin. destruct Hin as [Hin|[<-|[]]];
    [now apply H|exact Hk].
Qed.

Lemma owners_bounded_insert_each k now ps db :
  (k <= seq_customers db)%Z ->
  owners_bounded db ->
  owners_bounded (Customers.insert_each (Some k) now ps db).
Proof.
  unfold Customers.insert_each. revert db.
  induction ps as [|p ps IH]; simpl; intros db Hk H; [exact H|].
  apply IH.
  - now rewrite seq_customers_insert_one.
  - now apply owners_bounded_insert_one.
Qed.

Lemma owners_bounded_kept db db' :
  owners_bounded db ->
  (forall a', In a' (addresses db') ->
     exists a, In a (addresses db) /\ customer_id a = customer_id a') ->
  (seq_customers db <= seq_customers db')%Z ->
  owners_bounded db'.
Proof.
  intros H Hrows Hseq a' Hin. destruct (Hrows a' Hin) as (a & Ha & <-).
  specialize (H a Ha). lia.
Qed.

Lemma in_conditional_map {A} (c : A -> bool) (g : A -> A) (l : list A)
    (y : A) :
  In y (map (fun x => if c x then g x else x) l) ->
  exists x, In x l /\ (y = x \/ (c x = true /\ y = g x)).
Proof.
  intros Hin. apply in_map_iff in Hin. destruct Hin as (x & <- & Hx).
  exists x. split; [exact Hx|]. destruct (c x); [right|left]; auto.
Qed.

Lemma cleared_for_post_rows body cid db a' :
  In a' (cleared_for_post body cid db) ->
  exists a, In a (addresses db) /\ customer_id a = customer_id a'
            /\ a_id a = a_id a'.
Proof.
  unfold cleared_for_post. destruct (Js.truthy_bool _);
    [|intros H; now exists a'].
  simpl. intros H. apply in_conditional_map in H.
  destruct H as (a & Ha & [->|[_ ->]]); exists a; now repeat split.
Qed.

Lemma cleared_for_put_rows body cid id db a' :
  In a' (cleared_for_put body cid id db) ->
  exists a, In a (addresses db) /\ customer_id a = customer_id a'
            /\ a_id a = a_id a'.
Proof.
  unfold cleared_for_put. destruct (Js.truthy_bool _);
    [|intros H; now exists a'].
  simpl. intros H.
  apply (in_conditional_map
           (fun a => Sql.eq_param (Some cid) (customer_id a)
                     && Sql.neq_param id (a_id a))) in H.
  destruct H as (a & Ha & [->|[_ ->]]); exists a; now repeat split.
Qed.

Section Owners.

Variable isEmail : string -> bool.

Lemma owners_bounded_handle r db :
  well_formed db -> owners_bounded db ->
  owners_bounded (snd (handle isEmail r db)).
Proof.
  intros Hwf H.
  destruct r as [now body|now id body|id|now body|now id body|id]; simpl.
  - unfold Customers.post.
    assert (Hc : forall b,
               owners_bounded
                 (snd (Customers.createCustomerWithAddresses now b db))).
    { intros b. unfold Customers.createCustomerWithAddresses.
      destruct (Sql.insert_customer _ _ _ _ now db) as [[i d]|] eqn:E;
        [|exact H].
      apply insert_customer_some in E. destruct E as (f & l & p & -> & ->).
      cbn [snd]. unfold Customers.updateAddressFlags.
      set (d := mkDb _ _ _ _ _).
      assert (Hd : owners_bounded d).
      { intros a Hin. specialize (H a Hin). simpl. lia. }
      assert (Hd' : forall x, owners_bounded x ->
                      owners_bounded
                        (Sql.update_address_flags
                           (Some (seq_customers db + 1)%Z) x)) by auto.
      apply Hd'. destruct (req_addresses b) as [[|a r]|]; try exact Hd.
      apply owners_bounded_insert_each; [simpl; lia|exact Hd]. }
    destruct (negb _); [exact H|].
    destruct (Sql.customer_by_phone _ db); [exact H|].
    destruct (Js.truthy _); [|apply Hc].
    destruct (Sql.customer_by_email _ db); [exact H|apply Hc].
  - unfold Customers.put.
    assert (Hu : forall b, Sql.customer_by_id id db <> None ->
               owners_bounded (snd (Customers.updateCustomer now id b db))).
    { intros b Hex. unfold Customers.updateCustomer.
      destruct (Sql.update_customer _ _ _ _ id now db) as [[n d]|] eqn:E;
        [|exact H].
      apply update_customer_some in E.
      destruct E as (Ea & Esc & _ & _ & _ & _).
      assert (Hd : owners_bounded d).
      { apply (owners_bounded_kept db); [exact H| |lia].
        intros a' Hin. exists a'. now rewrite <- Ea. }
      destruct (n =? 0); [exact Hd|].
      cbn [snd]. unfold Customers.updateAddressFlags.
      assert (Hdel : owners_bounded (Sql.delete_addresses_of id d)).
      { intros a Hin. simpl in Hin. apply filter_In in Hin.
        now apply Hd. }
      assert (Hd' : forall x, owners_bounded x ->
                      owners_bounded (Sql.update_address_flags id x)) by auto.
      apply Hd'. destruct (req_addresses b) as [[|a r]|]; try exact Hdel.
      destruct (Sql.customer_by_id id db) as [c|] eqn:Ec; [|congruence].
      apply customer_by_id_found in Ec. destruct Ec as [Hin ->].
      apply owners_bounded_insert_each; [|exact Hdel].
      simpl. rewrite Esc. now apply (wf_customer_ids db Hwf). }
    destruct (negb _); [exact H|].
    destruct (Sql.customer_by_id id db) eqn:Ec; [|exact H].
    destruct (Sql.other_customer_by_phone _ id db); [exact H|].
    destruct (Js.truthy _); [|now apply Hu].
    destruct (Sql.other_customer_by_email _ id db); [exact H|now apply Hu].
  - unfold Customers.delete.
    destruct (Sql.customer_by_id id db); [|exact H].
    cbn [snd]. intros a Hin. simpl in Hin.
    destruct (foreign_keys db); [apply filter_In in Hin|]; now apply H.
  - destruct (Addresses.validateAddress (Addresses.sanitizeAddress body))
      eqn:Hv; [|unfold Addresses.post; now rewrite Hv].
    destruct (Sql.customer_by_id (req_customer_id body) db) as [c|] eqn:Hc;
      [|unfold Addresses.post; rewrite Hv; simpl; now rewrite Hc].
    rewrite (post_valid now body db c Hv Hc). cbn [snd].
    intros a Hin. simpl in Hin. apply in_app_or in Hin.
    destruct Hin as [Hin|[<-|[]]].
    + apply cleared_for_post_rows in Hin.
      destruct Hin as (a0 & Ha0 & <- & _). now apply H.
    + simpl. apply (wf_customer_ids db Hwf).
      now apply customer_by_id_found in Hc.
  - destruct (Addresses.validateAddress (Addresses.sanitizeAddress body))
      eqn:Hv; [|unfold Addresses.put; now rewrite Hv].
    destruct (Sql.address_by_id id db) as [a|] eqn:Ha;
      [|unfold Addresses.put; rewrite Hv; simpl; now rewrite Ha].
    rewrite (put_valid now id body db a Hv Ha). cbn [snd].
    intros x Hin. simpl in Hin. apply in_conditional_map in Hin.
    destruct Hin as (x0 & Hx0 & Hx).
    apply cleared_for_put_rows in Hx0. destruct Hx0 as (x1 & Hx1 & E1 & _).
    assert (E : customer_id x = customer_id x0)
      by (destruct Hx as [->|[_ ->]]; reflexivity).
    simpl. rewrite E, <- E1. now apply H.
  - unfold Addresses.delete.
    destruct (Sql.address_by_id id db) as [found|]; [|exact H].
    cbn [snd]. intros a Hin. simpl in Hin. apply filter_In in Hin.
    now apply H.
Qed.

Lemma reachable_owners_bounded db :
  reachable isEmail db -> owners_bounded db.
Proof.
  induction 1 as [|r db Hr IH]; [intros a []|].
  apply owners_bounded_handle; [|exact IH].
  exact (reachable_well_formed isEmail db Hr).
Qed.

End Owners.

Lemma contacts_unique_projected db db' :
  contacts_unique db ->
  (forall c', In c' (customers db') ->
     exists c, In c (customers db) /\ c_id c = c_id c'
               /\ phone_number c = phone_number c' /\ email c = email c') ->
  contacts_unique db'.
Proof.
  intros H Hp x' y' Hx Hy Hsame.
  destruct (Hp x' Hx) as (x & Hinx & <- & Epx & Eex).
  destruct (Hp y' Hy) as (y & Hiny & <- & Epy & Eey).
  apply (H x y Hinx Hiny). rewrite Epx, Epy, Eex, Eey. exact Hsame.
Qed.

Lemma recomputed_row_projected cid d c' :
  In c' (customers (Sql.update_address_flags cid d)) ->
  exists c, In c (customers d) /\ c_id c = c_id c'
            /\ phone_number c = phone_number c' /\ email c = email c'.
Proof.
  simpl. intros Hin.
  apply (in_conditional_map (fun c => Sql.eq_param cid (c_id c))) in Hin.
  destruct Hin as (c & Hc & [->|[_ ->]]); exists c; now repeat split.
Qed.

Lemma contacts_unique_recomputed cid d :
  contacts_unique d -> contacts_unique (Sql.update_address_flags cid d).
Proof.
  intros H. apply (contacts_unique_projected d); [exact H|].
  apply recomputed_row_projected.
Qed.

Lemma contacts_unique_same_customers db db' :
  contacts_unique db -> customers db' = customers db -> contacts_unique db'.
Proof.
  intros H E. apply (contacts_unique_projected db); [exact H|].
  intros c' Hin. exists c'. rewrite <- E. now repeat split.
Qed.

Lemma same_email_some e c :
  email c = Some e -> Sql.same_email (Some e) c = true.
Proof.
  unfold Sql.same_email. intros ->. simpl. apply String.eqb_refl.
Qed.

Lemma contacts_unique_insert_customer fn ln ph em now db id db' :
  contacts_unique db ->
  Sql.insert_customer fn ln ph em now db = Some (id, db') ->
  contacts_unique db'.
Proof.
  intros H. unfold Sql.insert_customer.
  destruct fn as [f|], ln as [l|], ph as [p|]; try discriminate.
  destruct (existsb _ (customers db)) eqn:Ep; [discriminate|].
  destruct (existsb (Sql.same_email em) (customers db)) eqn:Ee;
    [discriminate|].
  intros E. injection E as <- <-.
  assert (Hnew : forall c, In c (customers db) ->
            phone_number c <> p
            /\ forall e, em = Some e -> email c <> Some e).
  { intros c Hin. split.
    - intros Hp.
      assert (Ht : existsb (fun c => String.eqb (phone_number c) p)
                           (customers db) = true).
      { apply existsb_exists. exists c. split; [exact Hin|].
        rewrite Hp. apply String.eqb_refl. }
      congruence.
    - intros e -> He.
      assert (Ht : existsb (Sql.same_email (Some e)) (customers db) = true).
      { apply existsb_exists. exists c. split; [exact Hin|].
        now apply same_email_some. }
      congruence. }
  intros x y Hx Hy Hsame. simpl in Hx, Hy.
  apply in_app_or in Hx. apply in_app_or in Hy.
  destruct Hx as [Hx|[<-|[]]], Hy as [Hy|[<-|[]]]; simpl in *.
  - now apply H.
  - exfalso. destruct (Hnew x Hx) as [Hp He].
    destruct Hsame as [Hs|(e & E1 & E2)]; [auto|exact (He e E2 E1)].
  - exfalso. destruct (Hnew y Hy) as [Hp He].
    destruct Hsame as [Hs|(e & E1 & E2)]; [auto|exact (He e E1 E2)].
  - reflexivity.
Qed.

Lemma contacts_unique_update_customer fn ln ph em id now db n db' :
  contacts_unique db ->
  Sql.update_customer fn ln ph em id now db = Some (n, db') ->
  contacts_unique db'.
Proof.
  intros H. unfold Sql.update_customer.
  destruct (Sql.customer_by_id id db) as [found|];
    [|intros E; now injection E as <- <-].
  destruct fn as [f|], ln as [l|], ph as [p|]; try discriminate.
  destruct (existsb _ (customers db)) eqn:Ex; [discriminate|].
  intros E. injection E as <- <-.
  assert (Hother : forall c, In c (customers db) ->
            Sql.eq_param id (c_id c) = false ->
            phone_number c <> p
            /\ forall e, em = Some e -> email c <> Some e).
  { intros c Hin Hc.
    assert (Hf := existsb_nth). clear Hf.
    assert (Hcond : negb (Sql.eq_param id (c_id c))
                    && (String.eqb (phone_number c) p
                        || Sql.same_email em c) = false).
    { destruct (negb (Sql.eq_param id (c_id c))
                && (String.eqb (phone_number c) p || Sql.same_email em c))
        eqn:Ec; [|reflexivity].
      assert (Ht : existsb
                     (fun c => negb (Sql.eq_param id (c_id c))
                               && (String.eqb (phone_number c) p
                                   || Sql.same_email em c))
                     (customers db) = true).
      { apply existsb_exists. exists c. now split. }
      congruence. }
    rewrite Hc in Hcond. simpl in Hcond. apply orb_false_elim in Hcond.
    destruct Hcond as [Hp He]. split.
    - intros <-. now rewrite String.eqb_refl in Hp.
    - intros e -> Hs. now rewrite (same_email_some e c Hs) in He. }
  intros x' y' Hx Hy Hsame. simpl in Hx, Hy.
  apply in_map_iff in Hx. destruct Hx as (x & <- & Hx).
  apply in_map_iff in Hy. destruct Hy as (y & <- & Hy).
  destruct (Sql.eq_param id (c_id x)) eqn:Eidx,
           (Sql.eq_param id (c_id y)) eqn:Eidy; simpl in *.
  - apply eq_param_true in Eidx, Eidy. congruence.
  - exfalso. destruct (Hother y Hy Eidy) as [Hp He].
    destruct Hsame as [Hs|(e & E1 & E2)]; [auto|exact (He e E1 E2)].
  - exfalso. destruct (Hother x Hx Eidx) as [Hp He].
    destruct Hsame as [Hs|(e & E1 & E2)]; [auto|exact (He e E2 E1)].
  - now apply H.
Qed.

Section Contacts.

Variable isEmail : string -> bool.

Lemma contacts_unique_handle r db :
  contacts_unique db -> contacts_unique (snd (handle isEmail r db)).
Proof.
  intros H.
  destruct r as [now body|now id body|id|now body|now id body|id]; simpl.
  - unfold Customers.post.
    assert (Hc : forall b,
               contacts_unique
                 (snd (Customers.createCustomerWithAddresses now b db))).
    { intros b. unfold Customers.createCustomerWithAddresses.
      destruct (Sql.insert_customer _ _ _ _ now db) as [[i d]|] eqn:E;
        [|exact H].
      apply (contacts_unique_insert_customer _ _ _ _ _ _ _ _ H) in E.
      cbn [snd]. unfold Customers.updateAddressFlags.
      apply contacts_unique_recomputed.
      destruct (req_addresses b) as [[|a r]|]; try exact E.
      apply (contacts_unique_same_customers d); [exact E|].
      apply customers_insert_each. }
    destruct (negb _); [exact H|].
    destruct (Sql.customer_by_phone _ db); [exact H|].
    destruct (Js.truthy _); [|apply Hc].
    destruct (Sql.customer_by_email _ db); [exact H|apply Hc].
  - unfold Customers.put.
    assert (Hu : forall b,
               contacts_unique (snd (Customers.updateCustomer now id b db))).
    { intros b. unfold Customers.updateCustomer.
      destruct (Sql.update_customer _ _ _ _ id now db) as [[n d]|] eqn:E;
        [|exact H].
      apply (contacts_unique_update_customer _ _ _ _ _ _ _ _ _ H) in E.
      destruct (n =? 0); [exact E|].
      cbn [snd]. unfold Customers.updateAddressFlags.
      apply contacts_unique_recomputed.
      apply (contacts_unique_same_customers d); [exact E|].
      destruct (req_addresses b) as [[|a r]|]; try reflexivity.
      now rewrite customers_insert_each. }
    destruct (negb _); [exact H|].
    destruct (Sql.customer_by_id id db); [|exact H].
    destruct (Sql.other_customer_by_phone _ id db); [exact H|].
    destruct (Js.truthy _); [|apply Hu].
    destruct (Sql.other_customer_by_email _ id db); [exact H|apply Hu].
  - unfold Customers.delete.
    destruct (Sql.customer_by_id id db); [|exact H].
    cbn [snd]. apply (contacts_unique_projected db); [exact H|].
    intros c' Hin. simpl in Hin. apply filter_In in Hin.
    exists c'. now repeat split.
  - destruct (Addresses.validateAddress (Addresses.sanitizeAddress body))
      eqn:Hv; [|unfold Addresses.post; now rewrite Hv].
    destruct (Sql.customer_by_id (req_customer_id body) db) as [c|] eqn:Hc;
      [|unfold Addresses.post; rewrite Hv; simpl; now rewrite Hc].
    rewrite (post_valid now body db c Hv Hc). cbn [snd].
    apply contacts_unique_recomputed.
    now apply (contacts_unique_same_customers db).
  - destruct (Addresses.validateAddress (Addresses.sanitizeAddress body))
      eqn:Hv; [|unfold Addresses.put; now rewrite Hv].
    destruct (Sql.address_by_id id db) as [a|] eqn:Ha;
      [|unfold Addresses.put; rewrite Hv; simpl; now rewrite Ha].
    rewrite (put_valid now id body db a Hv Ha). cbn [snd].
    apply contacts_unique_recomputed.
    now apply (contacts_unique_same_customers db).
  - unfold Addresses.delete.
    destruct (Sql.address_by_id id db) as [found|]; [|exact H].
    cbn [snd]. apply contacts_unique_recomputed.
    now apply (contacts_unique_same_customers db).
Qed.

Lemma reachable_contacts_unique db :
  reachable isEmail db -> contacts_unique db.
Proof.
  induction 1 as [|r db Hr IH]; [intros c c' []|].
  now apply contacts_unique_handle.
Qed.

(** X2. In every store the server can reach, two customer rows that
    have the same phone number, or the same (non-NULL) email, are one
    and the same row: phone numbers and emails stay unique under all
    six mutating routes. *)
Theorem phone_and_email_stay_unique (db : Db) (c c' : Customer) :
  reachable isEmail db ->
  In c (customers db) -> In c' (customers db) ->
  phone_number c = phone_number c'
  \/ (exists e, email c = Some e /\ email c' = Some e) ->
  c = c'.
Proof.
  intros Hr Hc Hc' Hsame.
  apply (key_injective c_id (customers db)); try assumption.
  - exact (wf_customer_key db (reachable_well_formed isEmail db Hr)).
  - exact (reachable_contacts_unique db Hr c c' Hc Hc' Hsame).
Qed.

End Contacts.

Lemma phone_and_email_stay_unique_witness : ann_row = ann_row.
Proof.
  apply (phone_and_email_stay_unique (fun _ => true) ann_db ann_row ann_row).
  - exact (ann_db_reachable (fun _ => true)).
  - simpl. left. reflexivity.
  - simpl. left. reflexivity.
  - left. reflexivity.
Defined.

(* ================================================================= *)
(** ** Creating a customer and reading it back *)

Lemma insert_customer_inv fn ln ph em now db id db' :
  Sql.insert_customer fn ln ph em now db = Some (id, db') ->
  id = (seq_customers db + 1)%Z
  /\ db' = mkDb (customers db
                 ++ [mkCustomer id (Js.toString fn) (Js.toString ln)
                                (Js.toString ph) em now now false false])
                (addresses db) id (seq_addresses db) (foreign_keys db).
Proof.
  unfold Sql.insert_customer.
  destruct fn as [f|], ln as [l|], ph as [p|]; try discriminate.
  destruct (existsb _ (customers db)); [discriminate|].
  destruct (existsb _ (customers db)); [discriminate|].
  intros H. injection H as <- <-. now split.
Qed.

Lemma insert_each_supplied cid now (b : CustomerBody) db :
  match req_addresses b with
  | Some (a :: r) => Customers.insert_each cid now (a :: r) db
  | _ => db
  end = Customers.insert_each cid now (supplied b) db.
Proof. unfold supplied. now destruct (req_addresses b) as [[|a r]|]. Qed.


Section CreateCustomer.

Variable isEmail : string -> bool.




End CreateCustomer.


(* ================================================================= *)
(** ** Creating, updating and deleting an address, and reading it back *)

Lemma unique_key_filter (l : list Address) (a : Address) :
  NoDup (map a_id l) -> In a l ->
  filter (fun x => Sql.eq_param (Some (a_id a)) (a_id x)) l = [a].
Proof.
  induction l as [|y l IH]; simpl; intros Hkey Hin; [contradiction|].
  apply NoDup_cons_iff in Hkey. destruct Hkey as [Hy Hl].
  destruct Hin as [->|Hin].
  - rewrite Z.eqb_refl. f_equal. apply filter_none. intros x Hx.
    apply Z.eqb_neq. intros E. apply Hy. rewrite E. now apply in_map.
  - replace (Z.eqb (a_id a) (a_id y)) with false; [now apply IH|].
    symmetry. apply Z.eqb_neq. intros E. apply Hy. rewrite <- E.
    now apply in_map.
Qed.

Lemma filter_map_gen {A B} (p : B -> bool) (f : A -> B) (l : list A) :
  filter p (map f l) = map f (filter (fun x => p (f x)) l).
Proof.
  induction l as [|x l IH]; simpl; [reflexivity|].
  destruct (p (f x)); simpl; now rewrite IH.
Qed.


Section AddressRoundTrip.

Variable isEmail : string -> bool.


Lemma removed_row_count (l : list Address) (a : Address) (k : option Z) :
  NoDup (map a_id l) -> In a l -> Sql.eq_param k (customer_id a) = true ->
  S (List.length
       (filter (fun x => Sql.eq_param k (customer_id x))
               (filter (fun x => negb (Sql.eq_param (Some (a_id a)) (a_id x)))
                       l)))
  = List.length (filter (fun x => Sql.eq_param k (customer_id x)) l).
Proof.
  induction l as [|y l IH]; simpl; intros Hkey Hin Hk; [contradiction|].
  apply NoDup_cons_iff in Hkey. destruct Hkey as [Hy Hl].
  destruct Hin as [->|Hin].
  - rewrite Z.eqb_refl, Hk. simpl.
    rewrite (filter_all _ l); [reflexivity|].
    intros x Hx. apply negb_true_iff. apply Z.eqb_neq.
    intros E. apply Hy. rewrite E. now apply in_map.
  - replace (Z.eqb (a_id a) (a_id y)) with false.
    + simpl. destruct (Sql.eq_param k (customer_id y)); simpl;
        now rewrite <- (IH Hl Hin Hk).
    + symmetry. apply Z.eqb_neq. intros E. apply Hy. rewrite <- E.
      now apply in_map.
Qed.

(** X5. Deleting an address: in a reachable store, DELETE
    /addresses/:id on an existing address answers 200; afterwards GET
    /addresses/:id with that id answers 404, and the owner has exactly
    one address row less. *)
Theorem address_delete_then_get (id : option Z) (db : Db) (a : Address) :
  reachable isEmail db ->
  Sql.address_by_id id db = Some a ->
  let db' := snd (Addresses.delete id db) in
  fst (Addresses.delete id db)
  = mkResponse 200 true "Address deleted successfully" None
  /\ AddressQueries.get id db' = (failure 404 "Address not found", None)
  /\ S (Sql.count_addresses (Some (customer_id a)) db')
     = Sql.count_addresses (Some (customer_id a)) db.
Proof.
  intros Hr Ha db'. subst db'.
  pose proof (reachable_well_formed isEmail db Hr) as Hwf.
  unfold Addresses.delete. rewrite Ha. cbn [fst snd].
  split; [reflexivity|]. split.
  - unfold AddressQueries.get.
    replace (Sql.address_by_id id _) with (@None Address); [reflexivity|].
    symmetry. unfold Sql.address_by_id.
    destruct (find _ _) as [x|] eqn:E; [|reflexivity].
    apply find_some in E. destruct E as [Hin Hx]. simpl in Hin.
    apply filter_In in Hin. destruct Hin as [_ Hn].
    rewrite Hx in Hn. discriminate.
  - apply address_by_id_found in Ha. destruct Ha as [Hin ->].
    unfold Sql.count_addresses, Sql.addresses_of.
    cbn [addresses Sql.update_address_flags Sql.delete_address
         Addresses.updateCustomerAddressFlags].
    apply removed_row_count; [exact (wf_address_key db Hwf)|exact Hin|].
    simpl. apply Z.eqb_refl.
Qed.

(** X6. Updating an address and reading it back: in a reachable store,
    PUT /addresses/:id with a body that passes validation on an
    existing address answers 200; the row then carries the body's
    trimmed and defaulted fields with its id, [customer_id] and
    [created_at] as before and [updated_at] at the request's clock; and
    when the body has [is_primary = true], that row is the owner's only
    primary address. *)
Theorem address_update_then_get
    (now : nat) (id : option Z) (body : AddressBody) (db : Db)
    (a : Address) :
  reachable isEmail db ->
  Addresses.validateAddress (Addresses.sanitizeAddress body) = true ->
  Sql.address_by_id id db = Some a ->
  let db' := snd (Addresses.put now id body db) in
  fst (Addresses.put now id body db)
  = mkResponse 200 true "Address updated successfully" id
  /\ Sql.address_by_id id db' = Some (updated_address now body a)
  /\ (req_is_primary body = Some true ->
      primaries_of (customer_id a) db' = [updated_address now body a]).
Proof.
  intros Hr Hv Ha db'. subst db'.
  pose proof (reachable_well_formed isEmail db Hr) as Hwf.
  pose proof (owned_by_found id db a Hwf Ha) as Ho.
  rewrite (put_valid now id body db a Hv Ha). cbn [fst snd].
  destruct (address_by_id_found _ _ _ Ha) as [Hin Hid].
  split; [reflexivity|]. split.
  - unfold Sql.address_by_id. cbn [addresses Sql.update_address_flags].
    rewrite find_map_same.
    + unfold cleared_for_put. destruct (Js.truthy_bool _).
      * fold (Sql.address_by_id id
                (Sql.clear_primary_except (Some (customer_id a)) id db)).
        rewrite address_by_id_cleared, Ha. subst id. simpl.
        rewrite !Z.eqb_refl. reflexivity.
      * fold (Sql.address_by_id id db). rewrite Ha. subst id. simpl.
        now rewrite Z.eqb_refl.
    + intros x. now destruct (Sql.eq_param id (a_id x)) eqn:E; simpl;
        rewrite E.
  - intros Hp. rewrite primaries_of_filter.
    cbn [addresses Sql.update_address_flags]. unfold cleared_for_put.
    rewrite Hp. simpl Js.truthy_bool. cbv iota.
    cbn [addresses Sql.clear_primary_except].
    rewrite map_map, filter_map_gen.
    rewrite (filter_agree _
               (fun x => Sql.eq_param (Some (a_id a)) (a_id x))).
    + rewrite (unique_key_filter _ a (wf_address_key db Hwf) Hin).
      subst id. simpl. rewrite !Z.eqb_refl. reflexivity.
    + intros x Hx. subst id. unfold primary_of.
      destruct (Z.eqb (a_id a) (a_id x)) eqn:Ex; simpl; rewrite Ex; simpl.
      * assert (Exa : x = a).
        { apply (key_injective a_id (addresses db));
            [exact (wf_address_key db Hwf)|exact Hx|exact Hin|].
          apply Z.eqb_eq in Ex. congruence. }
        subst x. rewrite andb_false_r. simpl. rewrite Ex. simpl.
        unfold updated_address. simpl. rewrite Hp, Z.eqb_refl. reflexivity.
      * rewrite andb_true_r.
        destruct (Z.eqb (customer_id a) (customer_id x)) eqn:Eo; simpl;
          rewrite Ex; simpl; rewrite Eo; reflexivity.
Qed.

End AddressRoundTrip.


Lemma address_delete_then_get_witness :
  let db' := snd (Addresses.delete (Some 1%Z) ann_db) in
  fst (Addresses.delete (Some 1%Z) ann_db)
  = mkResponse 200 true "Address deleted successfully" None
  /\ AddressQueries.get (Some 1%Z) db'
     = (failure 404 "Address not found", None)
  /\ S (Sql.count_addresses (Some (customer_id ann_address)) db')
     = Sql.count_addresses (Some (customer_id ann_address)) ann_db.
Proof.
  apply (address_delete_then_get (fun _ => true) (Some 1%Z) ann_db
                                 ann_address).
  - exact (ann_db_reachable (fun _ => true)).
  - reflexivity.
Defined.

Lemma address_update_then_get_witness :
  let body := elm_road None (Some true) in
  let db' := snd (Addresses.put 6 (Some 1%Z) body ann_db) in
  fst (Addresses.put 6 (Some 1%Z) body ann_db)
  = mkResponse 200 true "Address updated successfully" (Some 1%Z)
  /\ Sql.address_by_id (Some 1%Z) db'
     = Some (updated_address 6 body ann_address)
  /\ (req_is_primary body = Some true ->
      primaries_of (customer_id ann_address) db'
      = [updated_address 6 body ann_address]).
Proof.
  intros body.
  apply (address_update_then_get (fun _ => true) 6 (Some 1%Z) body ann_db
                                 ann_address).
  - exact (ann_db_reachable (fun _ => true)).
  - reflexivity.
  - reflexivity.
Defined.

(* ================================================================= *)
(** ** Updating a customer *)

Lemma update_customer_inv fn ln ph em id now db n d :
  Sql.update_customer fn ln ph em id now db = Some (n, d) ->
  (n =? 0) = false ->
  exists c,
    Sql.customer_by_id id db = Some c
    /\ d = mkDb (map (fun x => if Sql.eq_param id (c_id x)
                               then Sql.set_customer_fields
                                      (Js.toString fn) (Js.toString ln)
                                      (Js.toString ph) em now x
                               else x)
                     (customers db))
                (addresses db) (seq_customers db) (seq_addresses db)
                (foreign_keys db).
Proof.
  unfold Sql.update_customer.
  destruct (Sql.customer_by_id id db) as [c|];
    [|intros H; injection H as <- <-; discriminate].
  destruct fn as [f|], ln as [l|], ph as [p|]; try discriminate.
  destruct (existsb _ (customers db)); [discriminate|].
  intros H _. injection H as <- <-. now exists c.
Qed.

Lemma updateCustomer_accepted now id b db :
  status (fst (Customers.updateCustomer now id b db)) = 200 ->
  exists c,
    Sql.customer_by_id id db = Some c
    /\ Customers.updateCustomer now id b db
       = (mkResponse 200 true "Customer updated successfully" id,
          Sql.update_address_flags id
            (Customers.insert_each id now (supplied b)
               (Sql.delete_addresses_of id
                  (mkDb (map (fun x => if Sql.eq_param id (c_id x)
                                       then Sql.set_customer_fields
                                              (Js.toString (req_first_name b))
                                              (Js.toString (req_last_name b))
                                              (Js.toString (req_phone_number b))
                                              (req_email b) now x
                                       else x)
                             (customers db))
                        (addresses db) (seq_customers db) (seq_addresses db)
                        (foreign_keys db))))).
Proof.
  unfold Customers.updateCustomer.
  destruct (Sql.update_customer _ _ _ _ id now db) as [[n d]|] eqn:E;
    [|discriminate].
  destruct (n =? 0) eqn:En; [discriminate|]. intros _.
  apply update_customer_inv in E; [|exact En].
  destruct E as (c & Hc & ->). exists c. split; [exact Hc|].
  unfold Customers.updateAddressFlags. now rewrite insert_each_supplied.
Qed.

Section UpdateCustomer.

Variable isEmail : string -> bool.



End UpdateCustomer.


Lemma eq_text_true p v : Sql.eq_text p v = true <-> p = Some v.
Proof.
  destruct p as [x|]; simpl; [|split; discriminate].
  rewrite String.eqb_eq. split; congruence.
Qed.

Lemma same_email_true e c :
  Sql.same_email e c = true -> exists x, e = Some x /\ email c = Some x.
Proof.
  unfold Sql.same_email. destruct (email c) as [x|]; [|discriminate].
  intros H. apply eq_text_true in H. now exists x.
Qed.

Lemma neq_param_true p v :
  Sql.neq_param p v = true <-> exists x, p = Some x /\ x <> v.
Proof.
  destruct p as [x|]; simpl.
  - rewrite negb_true_iff, Z.eqb_neq. split.
    + intros H. now exists x.
    + intros (y & E & H). congruence.
  - split; [discriminate|]. intros (y & E & _). discriminate.
Qed.

Section UpdateConflicts.

Variable isEmail : string -> bool.

(** X8. PUT /customers/:id for an existing customer with the phone
    number of another customer answers 400 and leaves the store as it
    was, with "Phone number already exists" when the body passes
    validation; with a non-empty email that another customer has it
    answers 400 with the store unchanged, and "Email already exists"
    when the body passes validation and no other customer has the
    phone number. *)
Theorem customer_update_conflict
    (now : nat) (id : option Z) (body : CustomerBody) (db : Db)
    (c c' : Customer) :
  Sql.customer_by_id id db = Some c ->
  In c' (customers db) -> c_id c' <> c_id c ->
  let b := Customers.sanitizeCustomer body in
  let r := Customers.put isEmail now id body db in
  (req_phone_number body = Some (phone_number c') ->
   status (fst r) = 400 /\ snd r = db
   /\ (Customers.validateCustomer isEmail b = true ->
       fst r = failure 400 "Phone number already exists"))
  /\ (forall e,
        req_email body = Some e -> e <> EmptyString -> email c' = Some e ->
        status (fst r) = 400 /\ snd r = db
        /\ (Customers.validateCustomer isEmail b = true ->
            Sql.other_customer_by_phone (req_phone_number body) id db = None ->
            fst r = failure 400 "Email already exists")).
Proof.
  intros Hc Hin Hne b r. subst b r. unfold Customers.put.
  destruct (customer_by_id_found _ _ _ Hc) as [_ Hid].
  assert (Hother : Sql.neq_param id (c_id c') = true).
  { apply neq_param_true. exists (c_id c). split; [exact Hid|congruence]. }
  split.
  - intros Hph.
    destruct (Customers.validateCustomer isEmail _);
      [|simpl; repeat split; discriminate].
    simpl negb. cbv iota. rewrite Hc. simpl req_phone_number. rewrite Hph.
    destruct (find_in_some
                (fun x => Sql.eq_text (Some (phone_number c'))
                                      (phone_number x)
                          && Sql.neq_param id (c_id x))
                (customers db) c' Hin) as [y Hy].
    { rewrite Hother, andb_true_r. simpl. apply String.eqb_refl. }
    unfold Sql.other_customer_by_phone. rewrite Hy. simpl. repeat split.
  - intros e He Hnonempty Hc'.
    destruct (Customers.validateCustomer isEmail _);
      [|simpl; repeat split; discriminate].
    simpl negb. cbv iota. rewrite Hc.
    simpl req_phone_number. simpl req_email.
    destruct (Sql.other_customer_by_phone (req_phone_number body) id db);
      [simpl; repeat split; discriminate|].
    rewrite He, (truthy_nonempty e Hnonempty).
    destruct (find_in_some
                (fun x => Sql.same_email (Some e) x
                          && Sql.neq_param id (c_id x))
                (customers db) c' Hin) as [y Hy].
    { now rewrite Hother, andb_true_r, (same_email_some e c' Hc'). }
    unfold Sql.other_customer_by_email. rewrite Hy. simpl. repeat split.
Qed.

(** X9. In a reachable store a customer can be saved again with its
    own phone number and email: PUT /customers/:id with a body that
    passes validation and repeats the stored phone and email answers
    200, the uniqueness checks leaving the customer's own row out. *)
Theorem customer_update_keeps_own_contacts
    (now : nat) (id : option Z) (body : CustomerBody) (db : Db)
    (c : Customer) :
  reachable isEmail db ->
  Sql.customer_by_id id db = Some c ->
  Customers.validateCustomer isEmail (Customers.sanitizeCustomer body)
  = true ->
  req_phone_number body = Some (phone_number c) ->
  req_email body = email c ->
  fst (Customers.put isEmail now id body db)
  = mkResponse 200 true "Customer updated successfully" id.
Proof.
  intros Hr Hc Hv Hph Hem.
  pose proof (reachable_contacts_unique isEmail db Hr) as Hu.
  destruct (customer_by_id_found _ _ _ Hc) as [Hin Hid].
  assert (Hnone : forall y, In y (customers db) ->
            Sql.neq_param id (c_id y) = true ->
            Sql.eq_text (Some (phone_number c)) (phone_number y) = false
            /\ Sql.same_email (email c) y = false).
  { intros y Hy Hn. apply neq_param_true in Hn.
    destruct Hn as (k & Ek & Hk).
    assert (Hdiff : c_id c <> c_id y) by congruence.
    split.
    - destruct (Sql.eq_text _ _) eqn:E; [|reflexivity].
      apply eq_text_true in E. injection E as E.
      destruct Hdiff. apply (Hu c y Hin Hy). now left.
    - destruct (Sql.same_email _ y) eqn:E; [|reflexivity].
      apply same_email_true in E. destruct E as (x & E1 & E2).
      destruct Hdiff. apply (Hu c y Hin Hy). right. now exists x. }
  assert (Hphone : Sql.other_customer_by_phone (Some (phone_number c)) id db
                   = None).
  { unfold Sql.other_customer_by_phone.
    destruct (find _ _) as [y|] eqn:E; [|reflexivity].
    apply find_some in E. destruct E as [Hy E].
    apply andb_prop in E. destruct E as [E1 E2].
    destruct (Hnone y Hy E2) as [E3 _]. congruence. }
  assert (Hemail : Sql.other_customer_by_email (email c) id db = None).
  { unfold Sql.other_customer_by_email.
    destruct (find _ _) as [y|] eqn:E; [|reflexivity].
    apply find_some in E. destruct E as [Hy E].
    apply andb_prop in E. destruct E as [E1 E2].
    destruct (Hnone y Hy E2) as [_ E3]. congruence. }
  assert (Hupd : fst (Customers.updateCustomer
                        now id (Customers.sanitizeCustomer body) db)
                 = mkResponse 200 true "Customer updated successfully" id).
  { unfold Customers.updateCustomer, Sql.update_customer. rewrite Hc.
    simpl req_first_name. simpl req_last_name. simpl req_phone_number.
    simpl req_email. rewrite Hph, Hem. cbv iota.
    replace (existsb _ (customers db)) with false.
    - unfold Sql.customer_by_id in Hc.
      now rewrite (find_some_counted _ _ _ Hc).
    - symmetry. apply not_true_is_false. intros E.
      apply existsb_exists in E. destruct E as (y & Hy & E).
      apply andb_prop in E. destruct E as [E1 E2].
      assert (Hn : Sql.neq_param id (c_id y) = true).
      { rewrite Hid in *. simpl in *. exact E1. }
      destruct (Hnone y Hy Hn) as [E3 E4].
      rewrite E4, orb_false_r in E2. simpl in E3. congruence. }
  unfold Customers.put. rewrite Hv, Hc. simpl negb. cbv iota.
  simpl req_phone_number. simpl req_email. rewrite Hph, Hem, Hphone.
  destruct (Js.truthy (email c)); [now rewrite Hemail|exact Hupd].
Qed.

End UpdateConflicts.

Lemma customer_update_conflict_witness :
  let ann1 := mkCustomer 1 "Ann" "Lee" "5551112222" (Some "ann@x.io") 0 0
                         false false in
  let bob2 := mkCustomer 2 "Bob" "Ray" "5550001111" None 1 1 false false in
  let db := mkDb [ann1; bob2] [] 2 0 false in
  let body := bob "5551112222" (Some "ann@x.io") in
  let r := Customers.put (fun _ => true) 2 (Some 2%Z) body db in
  (req_phone_number body = Some (phone_number ann1) ->
   status (fst r) = 400 /\ snd r = db
   /\ (Customers.validateCustomer (fun _ => true)
         (Customers.sanitizeCustomer body) = true ->
       fst r = failure 400 "Phone number already exists"))
  /\ (forall e,
        req_email body = Some e -> e <> EmptyString ->
        email ann1 = Some e ->
        status (fst r) = 400 /\ snd r = db
        /\ (Customers.validateCustomer (fun _ => true)
              (Customers.sanitizeCustomer body) = true ->
            Sql.other_customer_by_phone (req_phone_number body) (Some 2%Z) db
            = None ->
            fst r = failure 400 "Email already exists")).
Proof.
  intros ann1 bob2 db body.
  apply (customer_update_conflict (fun _ => true) 2 (Some 2%Z) body db
                                  bob2 ann1).
  - reflexivity.
  - simpl. left. reflexivity.
  - simpl. lia.
Defined.

Lemma customer_update_keeps_own_contacts_witness :
  fst (Customers.put (fun _ => true) 9 (Some 1%Z) (ann None) ann_db)
  = mkResponse 200 true "Customer updated successfully" (Some 1%Z).
Proof.
  apply (customer_update_keeps_own_contacts
           (fun _ => true) 9 (Some 1%Z) (ann None) ann_db ann_row).
  - exact (ann_db_reachable (fun _ => true)).
  - reflexivity.
  - reflexivity.
  - reflexivity.
  - reflexivity.
Defined.

(* ================================================================= *)
(** ** One primary address per customer, for disciplined requests *)

Lemma as_row_primary k now p i r :
  as_row k now p i = Some r ->
  is_primary r = Js.truthy_bool (req_is_primary p).
Proof.
  unfold as_row.
  destruct (req_address_line1 p), (req_city p), (req_state p),
           (req_pin_code p); try discriminate.
  intros H. now injection H as <-.
Qed.

Lemma rows_from_primaries k now seq ps :
  List.length (filter is_primary (rows_from k now seq ps))
  <= List.length (filter (fun p => Js.truthy_bool (req_is_primary p)) ps).
Proof.
  revert seq. induction ps as [|p ps IH]; simpl; intros seq; [lia|].
  destruct (as_row k now p (seq + 1)%Z) as [r|] eqn:E.
  - simpl. rewrite (as_row_primary _ _ _ _ _ E).
    specialize (IH (seq + 1)%Z).
    destruct (Js.truthy_bool (req_is_primary p)); simpl; lia.
  - specialize (IH seq).
    destruct (Js.truthy_bool (req_is_primary p)); simpl; lia.
Qed.

Lemma addresses_of_created new now ps db :
  owners_bounded db ->
  c_id new = (seq_customers db + 1)%Z ->
  Sql.addresses_of (Some (c_id new))
    (Customers.insert_each (Some (c_id new)) now ps
       (mkDb (customers db ++ [new]) (addresses db) (c_id new)
             (seq_addresses db) (foreign_keys db)))
  = rows_from (c_id new) now (seq_addresses db) ps.
Proof.
  intros Hob Hid. unfold Sql.addresses_of. rewrite insert_each_rows.
  - rewrite filter_app. simpl addresses.
    rewrite (filter_none _ (addresses db)).
    + simpl. apply filter_all. intros r Hin.
      apply rows_from_owner in Hin. destruct Hin as [-> _]. simpl.
      apply Z.eqb_refl.
    + intros a Hin. simpl. apply Z.eqb_neq. specialize (Hob a Hin). lia.
  - intros _. exists new. split; [|reflexivity].
    simpl. apply in_or_app. right. now left.
Qed.

Lemma primary_exclusive_same_addresses db db' :
  primary_exclusive db -> addresses db' = addresses db ->
  primary_exclusive db'.
Proof.
  intros H E k. unfold primaries_of, Sql.addresses_of. rewrite E. apply H.
Qed.

Lemma primary_exclusive_created now b db :
  owners_bounded db ->
  primary_exclusive db ->
  primary_entries b <= 1 ->
  primary_exclusive (snd (Customers.createCustomerWithAddresses now b db)).
Proof.
  intros Hob H Hb. unfold Customers.createCustomerWithAddresses.
  destruct (Sql.insert_customer _ _ _ _ now db) as [[i d]|] eqn:E;
    [|exact H].
  apply insert_customer_inv in E. destruct E as [Hi ->].
  rewrite insert_each_supplied. cbn [snd].
  unfold Customers.updateAddressFlags.
  set (new := mkCustomer i _ _ _ _ _ _ _ _).
  intros k. unfold primaries_of.
  change (Sql.addresses_of (Some k) (Sql.update_address_flags ?c ?x))
    with (Sql.addresses_of (Some k) x).
  destruct (Z.eqb i k) eqn:Ek.
  - apply Z.eqb_eq in Ek. subst k.
    pose proof (addresses_of_created new now (supplied b) db Hob Hi) as Hrows.
    change (c_id new) with i in Hrows. rewrite Hrows.
    etransitivity; [apply rows_from_primaries|exact Hb].
  - rewrite (addr_frame_insert_each (Some i) now (supplied b) _ k Ek).
    apply (H k).
Qed.

Lemma primary_exclusive_updated now id b db :
  primary_exclusive db ->
  primary_entries b <= 1 ->
  primary_exclusive (snd (Customers.updateCustomer now id b db)).
Proof.
  intros H Hb.
  destruct (status (fst (Customers.updateCustomer now id b db)) =? 200)
    eqn:Es.
  - apply Nat.eqb_eq in Es.
    destruct (updateCustomer_accepted _ _ _ _ Es) as (c & Hc & ->).
    destruct (customer_by_id_found _ _ _ Hc) as [Hin ->].
    cbn [snd]. set (d := mkDb _ _ _ _ _). intros k. unfold primaries_of.
    change (Sql.addresses_of (Some k) (Sql.update_address_flags ?c ?x))
      with (Sql.addresses_of (Some k) x).
    destruct (Z.eqb (c_id c) k) eqn:Ek.
    + apply Z.eqb_eq in Ek. subst k. rewrite replace_addresses.
      * etransitivity; [apply rows_from_primaries|exact Hb].
      * intros _.
        exists (Sql.set_customer_fields
                  (Js.toString (req_first_name b))
                  (Js.toString (req_last_name b))
                  (Js.toString (req_phone_number b)) (req_email b) now c).
        split; [|reflexivity].
        subst d. simpl. apply in_map_iff. exists c. split; [|exact Hin].
        now rewrite Z.eqb_refl.
    + rewrite (addr_frame_insert_each (Some (c_id c)) now (supplied b) _ k Ek).
      rewrite (addr_frame_delete_addresses_of (Some (c_id c)) d k Ek).
      apply (H k).
  - revert Es. unfold Customers.updateCustomer.
    destruct (Sql.update_customer _ _ _ _ id now db) as [[n d]|] eqn:E;
      [|intros _; exact H].
    destruct (n =? 0) eqn:En; [|discriminate].
    intros _. cbn [snd].
    now rewrite (update_customer_none_changed _ _ _ _ _ _ _ _ _ E En).
Qed.

Section DisciplinedRequests.

Variable isEmail : string -> bool.

Lemma reachable_by_reachable ok db :
  reachable_by isEmail ok db -> reachable isEmail db.
Proof.
  induction 1 as [|r db _ IH _]; [constructor|now constructor].
Qed.

Lemma primary_exclusive_handle r db :
  well_formed db -> owners_bounded db -> primary_exclusive db ->
  single_primary r = true ->
  primary_exclusive (snd (handle isEmail r db)).
Proof.
  intros Hwf Hob H Hok.
  destruct r as [now body|now id body|id|now body|now id body|id]; simpl.
  - simpl in Hok. apply Nat.leb_le in Hok. unfold Customers.post.
    destruct (negb _); [exact H|].
    destruct (Sql.customer_by_phone _ db); [exact H|].
    destruct (Js.truthy _);
      [destruct (Sql.customer_by_email _ db); [exact H|]|];
      now apply primary_exclusive_created.
  - simpl in Hok. apply Nat.leb_le in Hok. unfold Customers.put.
    destruct (negb _); [exact H|].
    destruct (Sql.customer_by_id id db); [|exact H].
    destruct (Sql.other_customer_by_phone _ id db); [exact H|].
    destruct (Js.truthy _);
      [destruct (Sql.other_customer_by_email _ id db); [exact H|]|];
      now apply primary_exclusive_updated.
  - unfold Customers.delete.
    destruct (Sql.customer_by_id id db); [|exact H].
    cbn [snd]. apply (primary_exclusive_same_addresses db); [exact H|].
    simpl. now rewrite (wf_foreign_keys db Hwf).
  - now apply primary_exclusive_post.
  - now apply primary_exclusive_put.
  - now apply primary_exclusive_delete.
Qed.

(** X10. When every customer request carries at most one entry with
    [is_primary] set, every store reached from the empty one has at
    most one primary address per customer id: the address routes keep
    this, and the customer routes store the supplied flags as they
    are. *)
Theorem one_primary_for_disciplined_requests (db : Db) (cid : Z) :
  reachable_by isEmail single_primary db ->
  List.length (primaries_of cid db) <= 1.
Proof.
  intros Hr. revert cid.
  change (primary_exclusive db).
  induction Hr as [|r db Hr IH Hok]; [intros k; simpl; lia|].
  pose proof (reachable_by_reachable _ _ Hr) as Hreach.
  apply primary_exclusive_handle; try assumption.
  - exact (reachable_well_formed isEmail db Hreach).
  - exact (reachable_owners_bounded isEmail db Hreach).
Qed.

End DisciplinedRequests.

Lemma one_primary_for_disciplined_requests_witness :
  List.length (primaries_of 1 ann_db) <= 1.
Proof.
  apply (one_primary_for_disciplined_requests (fun _ => true) ann_db 1).
  exact (reachable_by_handle (fun _ => true) single_primary
           (CreateCustomer 0 (ann (Some [oak_street (Some true)])))
           empty_db (reachable_by_empty (fun _ => true) single_primary)
           eq_refl).
Defined.

(* ================================================================= *)
(** ** ORDER BY *)

Section Ordering.

Context {Row : Type} (le : Row -> Row -> bool).

Lemma insert_ordered_perm (x : Row) (rows : list Row) :
  Permutation (insert_ordered le x rows) (x :: rows).
Proof.
  induction rows as [|y rows IH]; simpl; [reflexivity|].
  destruct (le x y); [reflexivity|].
  rewrite IH. apply perm_swap.
Qed.

Lemma order_by_perm (rows : list Row) : Permutation (order_by le rows) rows.
Proof.
  induction rows as [|x rows IH]; simpl; [reflexivity|].
  rewrite insert_ordered_perm. now constructor.
Qed.

Lemma order_by_in (rows : list Row) (x : Row) :
  In x (order_by le rows) <-> In x rows.
Proof.
  split; apply Permutation_in;
    [apply order_by_perm|symmetry; apply order_by_perm].
Qed.

Hypothesis le_total : forall x y, le x y = false -> le y x = true.
Hypothesis le_trans :
  forall x y z, le x y = true -> le y z = true -> le x z = true.

Lemma insert_ordered_sorted (x : Row) (rows : list Row) :
  StronglySorted (fun a b => le a b = true) rows ->
  StronglySorted (fun a b => le a b = true) (insert_ordered le x rows).
Proof.
  induction rows as [|y rows IH]; simpl; intros Hs.
  - constructor; constructor.
  - inversion Hs as [|? ? Hrest Hall]; subst.
    destruct (le x y) eqn:E.
    + constructor; [exact Hs|]. constructor; [exact E|].
      apply Forall_forall. intros z Hz.
      apply (le_trans x y z E). now apply (proj1 (Forall_forall _ _) Hall).
    + constructor; [now apply IH|].
      apply Forall_forall. intros z Hz.
      apply (Permutation_in _ (insert_ordered_perm x rows)) in Hz.
      destruct Hz as [<-|Hz]; [now apply le_total|].
      now apply (proj1 (Forall_forall _ _) Hall).
Qed.

Lemma order_by_sorted (rows : list Row) :
  StronglySorted (fun a b => le a b = true) (order_by le rows).
Proof.
  induction rows as [|x rows IH]; simpl; [constructor|].
  now apply insert_ordered_sorted.
Qed.

End Ordering.

(* ================================================================= *)
(** ** The grouped views and the cached flags *)

Lemma in_counted db c n :
  In (c, n) (CustomerQueries.counted db)
  <-> In c (customers db)
      /\ n = Sql.count_addresses (Some (c_id c)) db /\ 0 < n.
Proof.
  unfold CustomerQueries.counted. rewrite filter_In, in_map_iff. simpl.
  rewrite Nat.ltb_lt. split.
  - intros [(c0 & E & Hin) Hn]. injection E as -> <-. now repeat split.
  - intros (Hin & -> & Hn). split; [|exact Hn]. now exists c.
Qed.

Lemma grouped_customers db (l : list (Customer * nat)) :
  map CustomerQueries.g_customer (map (CustomerQueries.with_addresses db) l)
  = map fst l.
Proof. rewrite map_map. now apply map_ext. Qed.

Section Views.

Variable isEmail : string -> bool.

(** X11. The two grouped views read the address table, the flags are
    stored in the customer row; in every reachable store they agree: a
    customer row is listed by GET /customers/multiple-addresses exactly
    when its [has_multiple_addresses] is true, and by GET
    /customers/single-address exactly when its [only_one_address] is
    true; no row is listed by both. *)
Theorem grouped_views_match_flags (db : Db) (c : Customer) :
  reachable isEmail db ->
  (In c (map CustomerQueries.g_customer
             (snd (CustomerQueries.multiple_addresses db)))
   <-> In c (customers db) /\ has_multiple_addresses c = true)
  /\ (In c (map CustomerQueries.g_customer
                (snd (CustomerQueries.single_address db)))
      <-> In c (customers db) /\ only_one_address c = true)
  /\ ~ (In c (map CustomerQueries.g_customer
                  (snd (CustomerQueries.multiple_addresses db)))
        /\ In c (map CustomerQueries.g_customer
                     (snd (CustomerQueries.single_address db)))).
Proof.
  intros Hr. pose proof (reachable_flags_correct isEmail db Hr) as Hf.
  assert (Hm : In c (map CustomerQueries.g_customer
                        (snd (CustomerQueries.multiple_addresses db)))
               <-> In c (customers db) /\ has_multiple_addresses c = true).
  { unfold CustomerQueries.multiple_addresses. cbn [snd].
    rewrite grouped_customers, in_map_iff. split.
    - intros ([c0 n] & E & Hin). simpl in E. subst c0.
      apply order_by_in in Hin. apply filter_In in Hin.
      destruct Hin as [Hin Hn]. apply in_counted in Hin.
      destruct Hin as (Hc & -> & _). split; [exact Hc|].
      destruct (Hf c Hc) as [-> _]. exact Hn.
    - intros [Hc Hflag]. destruct (Hf c Hc) as [Em _].
      rewrite Em in Hflag.
      exists (c, Sql.count_addresses (Some (c_id c)) db).
      split; [reflexivity|]. apply order_by_in. apply filter_In.
      split; [|exact Hflag]. apply in_counted. repeat split; [exact Hc|].
      simpl in Hflag. apply Nat.ltb_lt in Hflag. lia. }
  assert (Hs : In c (map CustomerQueries.g_customer
                        (snd (CustomerQueries.single_address db)))
               <-> In c (customers db) /\ only_one_address c = true).
  { unfold CustomerQueries.single_address. cbn [snd].
    rewrite grouped_customers, in_map_iff. split.
    - intros ([c0 n] & E & Hin). simpl in E. subst c0.
      apply order_by_in in Hin. apply filter_In in Hin.
      destruct Hin as [Hin Hn]. apply in_counted in Hin.
      destruct Hin as (Hc & -> & _). split; [exact Hc|].
      destruct (Hf c Hc) as [_ ->]. exact Hn.
    - intros [Hc Hflag]. destruct (Hf c Hc) as [_ Eo].
      rewrite Eo in Hflag.
      exists (c, Sql.count_addresses (Some (c_id c)) db).
      split; [reflexivity|]. apply order_by_in. apply filter_In.
      split; [|exact Hflag]. apply in_counted. repeat split; [exact Hc|].
      simpl in Hflag. apply Nat.eqb_eq in Hflag. lia. }
  split; [exact Hm|]. split; [exact Hs|].
  intros [H1 H2]. apply Hm in H1. apply Hs in H2.
  destruct H1 as [Hc H1], H2 as [_ H2]. destruct (Hf c Hc) as [Em Eo].
  rewrite Em in H1. rewrite Eo in H2.
  apply Nat.ltb_lt in H1. apply Nat.eqb_eq in H2. lia.
Qed.

End Views.

Lemma grouped_views_match_flags_witness :
  (In ann_row (map CustomerQueries.g_customer
                   (snd (CustomerQueries.multiple_addresses ann_db)))
   <-> In ann_row (customers ann_db) /\ has_multiple_addresses ann_row = true)
  /\ (In ann_row (map CustomerQueries.g_customer
                      (snd (CustomerQueries.single_address ann_db)))
      <-> In ann_row (customers ann_db) /\ only_one_address ann_row = true)
  /\ ~ (In ann_row (map CustomerQueries.g_customer
                        (snd (CustomerQueries.multiple_addresses ann_db)))
        /\ In ann_row (map CustomerQueries.g_customer
                           (snd (CustomerQueries.single_address ann_db)))).
Proof.
  apply (grouped_views_match_flags (fun _ => true) ann_db ann_row).
  exact (ann_db_reachable (fun _ => true)).
Defined.

Lemma StronglySorted_map {A B} (f : A -> B) (R : B -> B -> Prop)
    (l : list A) :
  StronglySorted (fun x y => R (f x) (f y)) l ->
  StronglySorted R (map f l).
Proof.
  induction 1 as [|x l Hs IH Hall]; simpl; constructor; [exact IH|].
  apply Forall_forall. intros y Hy. apply in_map_iff in Hy.
  destruct Hy as (z & <- & Hz). now apply (proj1 (Forall_forall _ _) Hall).
Qed.

Lemma StronglySorted_weaken {A} (R S : A -> A -> Prop) (l : list A) :
  (forall x y, R x y -> S x y) ->
  StronglySorted R l -> StronglySorted S l.
Proof.
  intros HRS. induction 1 as [|x l Hs IH Hall]; constructor; [exact IH|].
  apply Forall_forall. intros y Hy. apply HRS.
  now apply (proj1 (Forall_forall _ _) Hall).
Qed.

(** X12. GET /customers/multiple-addresses lists its rows by falling
    [address_count]; every listed row is a customer row of the table,
    has more than one address, and its [address_count] is the length of
    the [addresses] list that comes with it. *)
Theorem multiple_addresses_sorted (db : Db) :
  StronglySorted
    (fun x y => CustomerQueries.address_count y
                <= CustomerQueries.address_count x)
    (snd (CustomerQueries.multiple_addresses db))
  /\ Forall (fun g => In (CustomerQueries.g_customer g) (customers db)
                      /\ 1 < CustomerQueries.address_count g
                      /\ CustomerQueries.address_count g
                         = List.length (CustomerQueries.g_addresses g))
            (snd (CustomerQueries.multiple_addresses db)).
Proof.
  unfold CustomerQueries.multiple_addresses. cbn [snd]. split.
  - apply StronglySorted_map. simpl.
    apply (StronglySorted_weaken
             (fun x y : Customer * nat => (snd y <=? snd x) = true)).
    + intros x y H. now apply Nat.leb_le.
    + apply (order_by_sorted (fun x y : Customer * nat => snd y <=? snd x)).
      * intros x y H. apply Nat.leb_gt in H. apply Nat.leb_le. lia.
      * intros x y z H1 H2. apply Nat.leb_le in H1, H2. apply Nat.leb_le.
        lia.
  - apply Forall_forall. intros g Hg. apply in_map_iff in Hg.
    destruct Hg as ([c n] & <- & Hin). apply order_by_in in Hin.
    apply filter_In in Hin. destruct Hin as [Hin Hn].
    apply in_counted in Hin. destruct Hin as (Hc & -> & _).
    simpl in *. apply Nat.ltb_lt in Hn. now repeat split.
Qed.

(* ================================================================= *)
(** ** The addresses of one customer, primary first *)

Lemma primary_first_total x y :
  AddressQueries.primary_first x y = false ->
  AddressQueries.primary_first y x = true.
Proof.
  unfold AddressQueries.primary_first.
  destruct (is_primary x), (is_primary y); simpl; try discriminate; auto.
  - intros H. apply Nat.leb_gt in H. apply Nat.leb_le. lia.
  - intros H. apply Nat.leb_gt in H. apply Nat.leb_le. lia.
Qed.

Lemma primary_first_trans x y z :
  AddressQueries.primary_first x y = true ->
  AddressQueries.primary_first y z = true ->
  AddressQueries.primary_first x z = true.
Proof.
  unfold AddressQueries.primary_first.
  destruct (is_primary x), (is_primary y), (is_primary z); simpl;
    try discriminate; auto;
    intros H1 H2; apply Nat.leb_le in H1, H2; apply Nat.leb_le; lia.
Qed.

Lemma addresses_of_joined db (l : list Address) :
  map fst (map (AddressQueries.joined db) l) = l.
Proof. rewrite map_map. simpl. apply map_id. Qed.

(** X13. GET /addresses/customer/:customerId answers 404 with no rows
    when no customer has the id.  For an existing customer it lists
    exactly that customer's address rows, each once, ordered primary
    first and otherwise oldest first; so when the customer has a
    primary address, the first row listed is a primary one. *)
Theorem addresses_by_customer_primary_first (id : option Z) (db : Db) :
  (Sql.customer_by_id id db = None ->
   AddressQueries.by_customer id db
   = (failure 404 "Customer not found", []))
  /\ (Sql.customer_by_id id db <> None ->
      let rows := map fst (snd (AddressQueries.by_customer id db)) in
      status (fst (AddressQueries.by_customer id db)) = 200
      /\ Permutation rows (Sql.addresses_of id db)
      /\ StronglySorted
           (fun x y => AddressQueries.primary_first x y = true) rows
      /\ (forall a, In a rows -> is_primary a = true ->
            exists first rest,
              rows = first :: rest /\ is_primary first = true)).
Proof.
  unfold AddressQueries.by_customer. split.
  - intros ->. reflexivity.
  - destruct (Sql.customer_by_id id db) as [c|]; [|congruence].
    intros _. cbn [fst snd status]. rewrite addresses_of_joined.
    assert (Hs : StronglySorted
                   (fun x y => AddressQueries.primary_first x y = true)
                   (order_by AddressQueries.primary_first
                             (Sql.addresses_of id db))).
    { apply order_by_sorted;
        [exact primary_first_total|exact primary_first_trans]. }
    split; [reflexivity|]. split; [apply order_by_perm|].
    split; [exact Hs|].
    intros a Hin Hp.
    destruct (order_by AddressQueries.primary_first
                       (Sql.addresses_of id db)) as [|first rest];
      [contradiction|].
    exists first, rest. split; [reflexivity|].
    destruct Hin as [->|Hin]; [exact Hp|].
    inversion Hs as [|? ? _ Hall]; subst.
    pose proof (proj1 (Forall_forall _ _) Hall a Hin) as Hle.
    unfold AddressQueries.primary_first in Hle. rewrite Hp in Hle.
    now destruct (is_primary first).
Qed.

Lemma addresses_by_customer_primary_first_witness :
  Sql.customer_by_id (Some 1%Z) ann_db <> None
  /\ let rows := map fst (snd (AddressQueries.by_customer (Some 1%Z)
                                                           ann_db)) in
     status (fst (AddressQueries.by_customer (Some 1%Z) ann_db)) = 200
     /\ Permutation rows (Sql.addresses_of (Some 1%Z) ann_db)
     /\ StronglySorted
          (fun x y => AddressQueries.primary_first x y = true) rows
     /\ (forall a, In a rows -> is_primary a = true ->
           exists first rest,
             rows = first :: rest /\ is_primary first = true).
Proof.
  assert (H : Sql.customer_by_id (Some 1%Z) ann_db <> None)
    by (vm_compute; discriminate).
  split; [exact H|].
  exact (proj2 (addresses_by_customer_primary_first (Some 1%Z) ann_db) H).
Defined.

(* ================================================================= *)
(** ** The address list of the customer form *)

Module FormFacts.

Import CustomerForm.

Lemma primaries_cleared (l : list FormAddress) :
  primaries (map (set_is_primary false) l) = 0.
Proof.
  unfold primaries. rewrite filter_none; [reflexivity|].
  intros a Ha. apply in_map_iff in Ha. now destruct Ha as (x & <- & _).
Qed.

Lemma primaries_cons (x : FormAddress) (l : list FormAddress) :
  primaries (x :: l) = (if fa_is_primary x then 1 else 0) + primaries l.
Proof. unfold primaries. simpl. now destruct (fa_is_primary x). Qed.

Lemma primaries_unset_others index (l : list FormAddress) :
  primaries (unset_others index l) <= 1.
Proof.
  revert index. induction l as [|x l IH]; intros [|n];
    cbn [unset_others]; try (unfold primaries; simpl; lia).
  - rewrite primaries_cons, primaries_cleared.
    destruct (fa_is_primary x); lia.
  - rewrite primaries_cons. simpl. apply IH.
Qed.

Lemma primaries_put_at index a (l : list FormAddress) x :
  nth_error l index = Some x ->
  fa_is_primary a = fa_is_primary x ->
  primaries (put_at index a l) = primaries l.
Proof.
  revert index. induction l as [|y l IH]; intros [|n]; simpl;
    try discriminate.
  - intros H Ha. injection H as ->. now rewrite !primaries_cons, Ha.
  - intros H Ha. now rewrite !primaries_cons, (IH n H Ha).
Qed.

Lemma primaries_put_at_false index a (l : list FormAddress) :
  fa_is_primary a = false ->
  primaries (put_at index a l) <= primaries l.
Proof.
  intros Ha. revert index. induction l as [|y l IH]; intros [|n]; simpl;
    try lia.
  - rewrite !primaries_cons, Ha. lia.
  - rewrite !primaries_cons. specialize (IH n). lia.
Qed.

Lemma primaries_without_index index (l : list FormAddress) :
  primaries (without_index index l) <= primaries l.
Proof.
  revert index. induction l as [|y l IH]; intros [|n]; simpl; try lia.
  - rewrite primaries_cons. lia.
  - rewrite !primaries_cons. specialize (IH n). lia.
Qed.

Lemma no_primary_counted (l : list FormAddress) :
  existsb fa_is_primary l = false -> primaries l = 0.
Proof.
  intros H. unfold primaries. rewrite filter_none; [reflexivity|].
  intros a Ha. destruct (fa_is_primary a) eqn:E; [|reflexivity].
  assert (Ht : existsb fa_is_primary l = true)
    by (apply existsb_exists; now exists a).
  congruence.
Qed.


End FormFacts.

(** X14. The customer form keeps at most one entry marked primary:
    from a list with at most one, [addAddress], [removeAddress] and
    [updateAddress] (whatever field it sets, at a row of the form)
    give a list with at most one. *)
Theorem form_keeps_one_primary
    (key : string) (index : nat) (ch : CustomerForm.Change)
    (l : list CustomerForm.FormAddress) :
  CustomerForm.primaries l <= 1 ->
  CustomerForm.primaries (CustomerForm.addAddress key l) <= 1
  /\ CustomerForm.primaries (CustomerForm.removeAddress index l) <= 1
  /\ (forall l', CustomerForm.updateAddress index ch l = Some l' ->
                 CustomerForm.primaries l' <= 1).
Proof.
  intros H. split; [|split].
  - unfold CustomerForm.addAddress, CustomerForm.primaries in *.
    rewrite filter_app, length_app. simpl.
    destruct l as [|x l]; simpl in *; lia.
  - unfold CustomerForm.removeAddress.
    pose proof (FormFacts.primaries_without_index index l) as Hw.
    destruct (CustomerForm.without_index index l) as [|first rest] eqn:E;
      [simpl; lia|].
    destruct (existsb CustomerForm.fa_is_primary (first :: rest)) eqn:Ex;
      simpl negb; cbv iota; [lia|].
    apply FormFacts.no_primary_counted in Ex.
    unfold CustomerForm.primaries in *. simpl in *.
    destruct (CustomerForm.fa_is_primary first); simpl in *; lia.
  - intros l'. unfold CustomerForm.updateAddress.
    destruct (nth_error l index) as [a|] eqn:En; [|discriminate].
    intros E. injection E as <-.
    destruct (CustomerForm.makes_primary ch) eqn:Em;
      [apply FormFacts.primaries_unset_others|].
    destruct ch; simpl in Em;
      try (rewrite (FormFacts.primaries_put_at index _ l a En);
           [exact H|reflexivity]).
    subst value.
    etransitivity; [apply FormFacts.primaries_put_at_false|exact H].
    reflexivity.
Qed.

Lemma form_keeps_one_primary_witness :
  let l := CustomerForm.addAddress "temp-1" [] in
  CustomerForm.primaries (CustomerForm.addAddress "temp-2" l) <= 1
  /\ CustomerForm.primaries (CustomerForm.removeAddress 0 l) <= 1
  /\ (forall l',
        CustomerForm.updateAddress 0 (CustomerForm.SetCity "Pune") l
        = Some l' ->
        CustomerForm.primaries l' <= 1).
Proof.
  intros l.
  apply (form_keeps_one_primary "temp-2" 0 (CustomerForm.SetCity "Pune") l).
  vm_compute. lia.
Defined.

Lemma marked_primary_rows index a (l : list CustomerForm.FormAddress) :
  nth_error l index = Some a ->
  forall i x,
    nth_error l i = Some x ->
    nth_error
      (CustomerForm.unset_others index
         (CustomerForm.put_at index (CustomerForm.set_is_primary true a) l)) i
    = Some (CustomerForm.set_is_primary (i =? index) x).
Proof.
  revert index. induction l as [|y l IH]; intros [|n]; simpl;
    try discriminate.
  - intros H [|j] x; simpl.
    + intros Hx. injection H as ->. now injection Hx as ->.
    + intros Hx. now rewrite nth_error_map, Hx.
  - intros H [|j] x; simpl.
    + intros Hx. now injection Hx as ->.
    + intros Hx. exact (IH n H j x Hx).
Qed.

Lemma length_unset_others index (l : list CustomerForm.FormAddress) :
  List.length (CustomerForm.unset_others index l) = List.length l.
Proof.
  revert index. induction l as [|y l IH]; intros [|n]; simpl;
    try reflexivity.
  - now rewrite length_map.
  - now rewrite IH.
Qed.

Lemma length_put_at index a (l : list CustomerForm.FormAddress) :
  List.length (CustomerForm.put_at index a l) = List.length l.
Proof.
  revert index. induction l as [|y l IH]; intros [|n]; simpl;
    try reflexivity.
  now rewrite IH.
Qed.

(** X15. Ticking "primary" on a row of the customer form:
    [updateAddress(index, 'is_primary', true)] at a row of the form
    gives the same entries in the same order, each with all its other
    fields as before, with [is_primary] true on the row at [index] and
    false on every other row, however many were marked before. *)
Theorem form_mark_primary
    (index : nat) (l : list CustomerForm.FormAddress) :
  index < List.length l ->
  exists l',
    CustomerForm.updateAddress index (CustomerForm.SetIsPrimary true) l
    = Some l'
    /\ List.length l' = List.length l
    /\ forall i x, nth_error l i = Some x ->
         nth_error l' i
         = Some (CustomerForm.set_is_primary (i =? index) x).
Proof.
  intros Hlt. unfold CustomerForm.updateAddress.
  destruct (nth_error l index) as [a|] eqn:En.
  - eexists. split; [reflexivity|]. simpl. split.
    + now rewrite length_unset_others, length_put_at.
    + intros i x Hx.
      exact (marked_primary_rows index a l En i x Hx).
  - apply nth_error_None in En. lia.
Qed.

Lemma form_mark_primary_witness :
  let l := CustomerForm.addAddress "temp-2"
             (CustomerForm.addAddress "temp-1" []) in
  exists l',
    CustomerForm.updateAddress 1 (CustomerForm.SetIsPrimary true) l = Some l'
    /\ List.length l' = List.length l
    /\ forall i x, nth_error l i = Some x ->
         nth_error l' i
         = Some (CustomerForm.set_is_primary (i =? 1) x).
Proof.
  intros l. apply (form_mark_primary 1 l). vm_compute. lia.
Defined.



(* ================================================================= *)
(** ** From the customer form to the store *)




Section FormToStore.

Variable isEmail : string -> bool.




End FormToStore.




Section EditAndSave.

Variable isEmail : string -> bool.


End EditAndSave.


(* ================================================================= *)
(** ** The paged lists *)

Lemma string_leb_iff (s t : string) :
  (s <=? t)%string = true <-> s = t \/ OrderedTypeEx.String_as_OT.lt s t.
Proof.
  pose proof (OrderedTypeEx.String_as_OT.cmp_eq s t) as He.
  pose proof (OrderedTypeEx.String_as_OT.cmp_lt s t) as Hl.
  unfold OrderedTypeEx.String_as_OT.cmp in He, Hl. unfold String.leb.
  destruct (String.compare s t).
  - split; [intros _; left; now apply He|reflexivity].
  - split; [intros _; right; now apply Hl|reflexivity].
  - split; [discriminate|].
    intros [H|H]; [apply He in H|apply Hl in H]; discriminate.
Qed.

Lemma string_leb_trans (s t u : string) :
  (s <=? t)%string = true -> (t <=? u)%string = true ->
  (s <=? u)%string = true.
Proof.
  rewrite !string_leb_iff. intros [->|H1] [->|H2]; auto.
  right. exact (OrderedTypeEx.String_as_OT.lt_trans _ _ _ H1 H2).
Qed.

Lemma string_leb_or (s t : string) :
  (s <=? t)%string = false -> (t <=? s)%string = true.
Proof.
  intros H. destruct (String.leb_total s t) as [E|E]; [congruence|exact E].
Qed.

Section Columns.

Context {Row : Type} (le : Row -> Row -> bool) (order : string).

Hypothesis le_or : forall x y, le x y = false -> le y x = true.
Hypothesis le_trans :
  forall x y z, le x y = true -> le y z = true -> le x z = true.

Lemma directed_or x y :
  Paging.directed order le x y = false -> Paging.directed order le y x = true.
Proof. unfold Paging.directed. destruct (String.eqb order "desc"); auto. Qed.

Lemma directed_trans x y z :
  Paging.directed order le x y = true ->
  Paging.directed order le y z = true ->
  Paging.directed order le x z = true.
Proof.
  unfold Paging.directed. destruct (String.eqb order "desc"); eauto.
Qed.

End Columns.

Lemma nat_leb_or (m n : nat) : (m <=? n) = false -> (n <=? m) = true.
Proof. intros H. apply Nat.leb_gt in H. apply Nat.leb_le. lia. Qed.

Lemma nat_leb_trans (m n k : nat) :
  (m <=? n) = true -> (n <=? k) = true -> (m <=? k) = true.
Proof. rewrite !Nat.leb_le. lia. Qed.

Lemma address_column_or sort x y :
  AddressList.by_column sort x y = false ->
  AddressList.by_column sort y x = true.
Proof.
  unfold AddressList.by_column.
  destruct (String.eqb sort "city"); [apply string_leb_or|].
  destruct (String.eqb sort "state"); [apply string_leb_or|].
  apply nat_leb_or.
Qed.

Lemma address_column_trans sort x y z :
  AddressList.by_column sort x y = true ->
  AddressList.by_column sort y z = true ->
  AddressList.by_column sort x z = true.
Proof.
  unfold AddressList.by_column.
  destruct (String.eqb sort "city"); [apply string_leb_trans|].
  destruct (String.eqb sort "state"); [apply string_leb_trans|].
  apply nat_leb_trans.
Qed.

Lemma customer_column_or sort x y :
  CustomerList.by_column sort x y = false ->
  CustomerList.by_column sort y x = true.
Proof.
  unfold CustomerList.by_column.
  destruct (String.eqb sort "first_name"); [apply string_leb_or|].
  destruct (String.eqb sort "last_name"); [apply string_leb_or|].
  destruct (String.eqb sort "phone_number"); [apply string_leb_or|].
  apply nat_leb_or.
Qed.

Lemma customer_column_trans sort x y z :
  CustomerList.by_column sort x y = true ->
  CustomerList.by_column sort y z = true ->
  CustomerList.by_column sort x z = true.
Proof.
  unfold CustomerList.by_column.
  destruct (String.eqb sort "first_name"); [apply string_leb_trans|].
  destruct (String.eqb sort "last_name"); [apply string_leb_trans|].
  destruct (String.eqb sort "phone_number"); [apply string_leb_trans|].
  apply nat_leb_trans.
Qed.

(** What the validators leave of [page] and [limit]. *)
Lemma isInt_value lo hi s :
  Paging.isInt lo hi s = true ->
  exists z, Paging.parseInt (Some s) = Some z
            /\ (lo <= z)%Z
            /\ match hi with Some m => (z <= m)%Z | None => True end.
Proof.
  unfold Paging.isInt.
  destruct (match list_ascii_of_string s with
            | [] => []
            | c :: r => if (Ascii.eqb c "-" || Ascii.eqb c "+")%bool
                        then r else list_ascii_of_string s
            end) as [|d ds]; [discriminate|].
  intros H. apply andb_prop in H. destruct H as [_ H].
  destruct (Paging.parseInt (Some s)) as [z|]; [|discriminate].
  apply andb_prop in H. destruct H as [H1 H2]. exists z.
  split; [reflexivity|]. split; [now apply Z.leb_le|].
  destruct hi; [now apply Z.leb_le|exact I].
Qed.

Lemma checked_number lo hi v d :
  (1 <= lo)%Z -> (lo <= d)%Z ->
  match hi with Some m => (d <= m)%Z | None => True end ->
  Paging.optional (Paging.isInt lo hi) v = true ->
  (lo <= Paging.or_number (Paging.parseInt v) d)%Z
  /\ match hi with
     | Some m => (Paging.or_number (Paging.parseInt v) d <= m)%Z
     | None => True
     end.
Proof.
  intros Hlo Hd Hm H. destruct v as [s|]; simpl in H.
  - destruct (isInt_value _ _ _ H) as (z & -> & Hz & Hhi).
    unfold Paging.or_number.
    destruct (Z.eqb_spec z 0) as [->|_]; [lia|]. now split.
  - simpl. now split.
Qed.

Lemma address_query_numbers q :
  AddressList.valid q = true ->
  (1 <= Paging.page_of q)%Z /\ (1 <= Paging.limit_of q <= 100)%Z.
Proof.
  unfold AddressList.valid. intros H.
  apply andb_prop in H. destruct H as [H _].
  apply andb_prop in H. destruct H as [H _].
  apply andb_prop in H. destruct H as [Hp Hl].
  apply (checked_number 1 None _ 1) in Hp; [|lia|lia|exact I].
  apply (checked_number 1 (Some 100%Z) _ 10) in Hl; [|lia|lia|lia].
  unfold Paging.page_of, Paging.limit_of. lia.
Qed.

Lemma customer_query_numbers q :
  CustomerList.valid q = true ->
  (1 <= Paging.page_of q)%Z /\ (1 <= Paging.limit_of q <= 100)%Z.
Proof.
  unfold CustomerList.valid. intros H.
  apply andb_prop in H. destruct H as [H _].
  apply andb_prop in H. destruct H as [H _].
  apply andb_prop in H. destruct H as [Hp Hl].
  apply (checked_number 1 None _ 1) in Hp; [|lia|lia|exact I].
  apply (checked_number 1 (Some 100%Z) _ 10) in Hl; [|lia|lia|lia].
  unfold Paging.page_of, Paging.limit_of. lia.
Qed.

Section PageFacts.

Context {Row : Type} (all : list Row) (page limit : Z).

Hypothesis page_pos : (1 <= page)%Z.
Hypothesis limit_pos : (1 <= limit <= 100)%Z.

Lemma limit_offset_slice :
  Paging.limit_offset limit ((page - 1) * limit) all
  = firstn (Z.to_nat limit) (skipn (Z.to_nat ((page - 1) * limit)) all).
Proof.
  unfold Paging.limit_offset. destruct (Z.ltb_spec limit 0); [lia|reflexivity].
Qed.

Lemma ceil_bounds (total : Z) :
  ((Paging.ceil total limit - 1) * limit < total
   <= Paging.ceil total limit * limit)%Z.
Proof.
  unfold Paging.ceil.
  pose proof (Z.div_mod (- total) limit ltac:(lia)) as E.
  pose proof (Z.mod_pos_bound (- total) limit ltac:(lia)) as B.
  nia.
Qed.

Lemma page_facts :
  page_consistent
    (Paging.limit_offset limit ((page - 1) * limit) all)
    (Paging.pagination page limit (Z.of_nat (List.length all))).
Proof.
  unfold page_consistent, Paging.pagination.
  cbn [p_page p_limit p_total p_totalPages hasNext hasPrev].
  pose proof (ceil_bounds (Z.of_nat (List.length all))) as C.
  set (pages := Paging.ceil (Z.of_nat (List.length all)) limit) in *.
  assert (Hsize :
    Z.of_nat (List.length
                (Paging.limit_offset limit ((page - 1) * limit) all))
    = Z.max 0 (Z.min limit (Z.of_nat (List.length all)
                            - (page - 1) * limit))).
  { rewrite limit_offset_slice, length_firstn, length_skipn.
    assert (0 <= (page - 1) * limit)%Z by nia. lia. }
  split; [exact page_pos|]. split; [exact limit_pos|].
  split; [exact Hsize|]. split; [exact C|].
  split; [rewrite Z.ltb_lt; split; intros; nia|].
  split; [rewrite Z.ltb_lt; reflexivity|].
  split.
  - intros E. rewrite E in Hsize. simpl in Hsize. nia.
  - intros Hlt.
    destruct (Paging.limit_offset limit ((page - 1) * limit) all);
      [reflexivity|].
    simpl List.length in Hsize. nia.
Qed.

End PageFacts.

Lemma in_slice {Row : Type} (n m : nat) (rows : list Row) (x : Row) :
  In x (firstn n (skipn m rows)) -> In x rows.
Proof.
  intros H.
  rewrite <- (firstn_skipn m rows). apply in_or_app. right.
  rewrite <- (firstn_skipn n (skipn m rows)). apply in_or_app. now left.
Qed.

Lemma page_consistent_map {Row Shown : Type} (f : Row -> Shown)
    (data : list Row) (p : Pagination) :
  page_consistent data p -> page_consistent (map f data) p.
Proof.
  unfold page_consistent. rewrite length_map.
  intros (H1 & H2 & H3 & H4 & H5 & H6 & H7).
  repeat (split; [assumption|]).
  rewrite <- H7. destruct data; simpl; split; congruence.
Qed.

Section AddressPages.

Variable like : string -> string -> bool.
Variable numeric : string -> option Z.

Lemma wanted_joined q db :
  filter (fun r => AddressList.wanted like numeric q (fst r))
         (map (AddressQueries.joined db) (addresses db))
  = map (AddressQueries.joined db)
        (filter (AddressList.wanted like numeric q) (addresses db)).
Proof.
  exact (filter_map_gen (fun r => AddressList.wanted like numeric q (fst r))
                        (AddressQueries.joined db) (addresses db)).
Qed.

(** X19. GET /addresses with a query that passes the validators answers
    200 with one page of the address rows that pass every filter given
    ([customer_id], [city], [state], [pin_code]): the page is the
    slice from [offset], of at most [limit] rows, of a listing that
    holds each such row once with its owner's columns, in the order of
    the [sort] column and [order] (by default newest first).  So every
    row shown is a row of the table that passes the filters. *)
Theorem address_list_rows (q : Query) (db : Db) :
  AddressList.valid q = true ->
  in_range q ->
  let data := snd (fst (AddressList.get like numeric q db)) in
  status (fst (fst (AddressList.get like numeric q db))) = 200
  /\ (exists all,
        Permutation all
          (map (AddressQueries.joined db)
               (filter (AddressList.wanted like numeric q) (addresses db)))
        /\ StronglySorted
             (fun x y =>
                Paging.directed (Js.or_else (q_order q) "desc")
                  (AddressList.by_column (Js.or_else (q_sort q) "created_at"))
                  (fst x) (fst y) = true) all
        /\ data = firstn (Z.to_nat (Paging.limit_of q))
                         (skipn (Z.to_nat (Paging.offset_of q)) all))
  /\ (forall row, In row data ->
        In (fst row) (addresses db)
        /\ AddressList.wanted like numeric q (fst row) = true
        /\ row = AddressQueries.joined db (fst row)).
Proof.
  intros Hv _. destruct (address_query_numbers q Hv) as [Hp Hl].
  unfold AddressList.get. rewrite Hv. cbn [negb fst snd status].
  unfold Paging.offset_of. rewrite (limit_offset_slice _ _ _ Hl).
  rewrite wanted_joined.
  set (sorted := order_by _ _).
  assert (Hperm : Permutation sorted
            (map (AddressQueries.joined db)
                 (filter (AddressList.wanted like numeric q)
                         (addresses db)))) by apply order_by_perm.
  split; [reflexivity|]. split.
  - exists sorted. split; [exact Hperm|]. split; [|reflexivity].
    apply order_by_sorted.
    + intros x y. apply directed_or. apply address_column_or.
    + intros x y z. apply directed_trans. apply address_column_trans.
  - intros row Hrow. apply in_slice in Hrow.
    apply (Permutation_in _ Hperm) in Hrow. apply in_map_iff in Hrow.
    destruct Hrow as (a & <- & Ha). apply filter_In in Ha.
    destruct Ha as [Ha Hw]. now repeat split.
Qed.

(** X20. The [pagination] object of GET /addresses agrees with the page
    it comes with: [total] counts every address row that passes the
    filters, on whatever page; the page holds the rows left after the
    earlier pages, up to [limit]; [totalPages] is the least number of
    pages for [total] rows; [hasNext] holds exactly when rows are left
    after this page, [hasPrev] when the page is not the first; and the
    page is empty exactly when it lies beyond [totalPages]. *)
Theorem address_list_pages (q : Query) (db : Db) :
  AddressList.valid q = true ->
  in_range q ->
  exists p,
    snd (AddressList.get like numeric q db) = Some p
    /\ p_page p = Paging.page_of q
    /\ p_limit p = Paging.limit_of q
    /\ p_total p
       = Z.of_nat (List.length (filter (AddressList.wanted like numeric q)
                                       (addresses db)))
    /\ page_consistent (snd (fst (AddressList.get like numeric q db))) p.
Proof.
  intros Hv _. destruct (address_query_numbers q Hv) as [Hp Hl].
  unfold AddressList.get. rewrite Hv. cbn [negb fst snd].
  eexists. split; [reflexivity|]. split; [reflexivity|].
  split; [reflexivity|]. split; [reflexivity|].
  rewrite wanted_joined.
  set (sorted := order_by _ _).
  replace (List.length (filter (AddressList.wanted like numeric q)
                               (addresses db)))
    with (List.length sorted).
  - unfold Paging.offset_of. apply page_facts; assumption.
  - subst sorted. rewrite (Permutation_length (order_by_perm _ _)).
    apply length_map.
Qed.

End AddressPages.

Section Distinct.

Context {K : Type} (dec : forall x y : K, {x = y} + {x <> y}).
Context (key : Customer -> K) (rows_of : Customer -> list Address).

Lemma nodup_repeated (k : K) (rows : list Address) (rest : list K) :
  ~ In k rest ->
  nodup dec (map (fun _ => k) rows ++ rest)
  = match rows with
    | [] => nodup dec rest
    | _ :: _ => k :: nodup dec rest
    end.
Proof.
  intros Hk. induction rows as [|a rows IH]; [reflexivity|].
  simpl. destruct (in_dec dec k (map (fun _ => k) rows ++ rest)) as [Hin|Hout].
  - rewrite IH. destruct rows; [|reflexivity]. simpl in Hin. contradiction.
  - destruct rows as [|b rows]; [reflexivity|]. exfalso. apply Hout. now left.
Qed.

Lemma distinct_keys (cs : list Customer) :
  NoDup (map key cs) ->
  nodup dec (map (fun r => key (fst r))
                 (flat_map (fun c => map (pair c) (rows_of c)) cs))
  = map key (filter (fun c => match rows_of c with
                              | [] => false
                              | _ :: _ => true
                              end) cs).
Proof.
  induction cs as [|c cs IH]; simpl; intros Hn; [reflexivity|].
  inversion Hn as [|? ? Hc Hcs]; subst.
  rewrite map_app, map_map. cbn [fst].
  rewrite nodup_repeated.
  - rewrite IH by exact Hcs. destruct (rows_of c); reflexivity.
  - intros Hin. apply Hc. apply in_map_iff in Hin.
    destruct Hin as ([c' a] & E & Hin). apply in_flat_map in Hin.
    destruct Hin as (c'' & Hc'' & Hin). apply in_map_iff in Hin.
    destruct Hin as (a' & E' & _). inversion E'; subst.
    simpl in E. rewrite <- E. now apply in_map.
Qed.

End Distinct.

Lemma filter_flat_map {A B : Type} (keep : B -> bool) (rows : A -> list B)
    (l : list A) :
  filter keep (flat_map rows l) = flat_map (fun x => filter keep (rows x)) l.
Proof.
  induction l as [|x l IH]; simpl; [reflexivity|].
  now rewrite filter_app, IH.
Qed.

Lemma existsb_filter {A : Type} (keep : A -> bool) (l : list A) :
  existsb keep l = match filter keep l with [] => false | _ :: _ => true end.
Proof.
  induction l as [|x l IH]; simpl; [reflexivity|].
  destruct (keep x); simpl; [reflexivity|exact IH].
Qed.

Section CustomerPages.

Variable isEmail : string -> bool.
Variable like : string -> string -> bool.

Lemma located_rows q db :
  CustomerList.located like q db
  = flat_map (fun c =>
                map (pair c)
                    (CustomerList.l_addresses
                       (CustomerList.with_addresses like q db c)))
             (customers db).
Proof.
  unfold CustomerList.located, CustomerList.joined.
  rewrite filter_flat_map. apply flat_map_ext. intros c.
  exact (filter_map_gen (fun r => Paging.in_place like q (snd r)) (pair c)
                        (filter (fun a => Z.eqb (c_id c) (customer_id a))
                                (addresses db))).
Qed.

Lemma unfiltered_in_place q a :
  CustomerList.filtered q = false -> Paging.in_place like q a = true.
Proof.
  unfold CustomerList.filtered, Paging.in_place, Paging.narrowed.
  intros H. apply orb_false_elim in H. destruct H as [H H3].
  apply orb_false_elim in H. destruct H as [H1 H2].
  now rewrite H1, H2, H3.
Qed.

Lemma selected_customers q db :
  NoDup (map c_id (customers db)) ->
  CustomerList.selected like q db
  = filter (fun c => negb (CustomerList.filtered q)
                     || has_address_in_place like q db c)
           (customers db).
Proof.
  intros Hn. unfold CustomerList.selected.
  destruct (CustomerList.filtered q); simpl.
  - rewrite located_rows.
    pose proof (distinct_keys Customer_eq_dec (fun c => c)
                  (fun c => CustomerList.l_addresses
                              (CustomerList.with_addresses like q db c))
                  (customers db)) as E.
    cbv beta in E. rewrite !map_id in E.
    apply NoDup_map_inv in Hn. specialize (E Hn).
    etransitivity; [exact E|].
    apply filter_ext. intros c. unfold has_address_in_place.
    now rewrite existsb_filter.
  - symmetry. now apply filter_all.
Qed.

Lemma count_selected q db :
  NoDup (map c_id (customers db)) ->
  CustomerList.count like q db
  = Z.of_nat (List.length (CustomerList.selected like q db)).
Proof.
  intros Hn. rewrite (selected_customers q db Hn).
  unfold CustomerList.count.
  destruct (CustomerList.filtered q); simpl.
  - rewrite located_rows.
    rewrite (distinct_keys Z.eq_dec c_id _ _ Hn), length_map.
    do 2 f_equal. apply filter_ext. intros c. unfold has_address_in_place.
    now rewrite existsb_filter.
  - now rewrite filter_all.
Qed.

End CustomerPages.

Section CustomerListing.

Variable isEmail : string -> bool.
Variable like : string -> string -> bool.

(** X21. GET /customers with a query that passes the validators, on a
    store the server can reach, answers 200 with one page of customers:
    all of them when no address filter ([city], [state], [pin_code]) is
    given, otherwise those with an address row that passes every filter
    given, each once however many of its rows pass; in the order of the
    [sort] column and [order].  Each customer shown carries its address
    rows that pass the filters, so at least one under a filter and all
    of them without.  [search] changes nothing of the answer. *)
Theorem customer_list_rows (q : Query) (db : Db) :
  reachable isEmail db ->
  CustomerList.valid q = true ->
  in_range q ->
  let data := snd (fst (CustomerList.get like q db)) in
  status (fst (fst (CustomerList.get like q db))) = 200
  /\ (exists all,
        Permutation all
          (filter (fun c => negb (CustomerList.filtered q)
                            || has_address_in_place like q db c)
                  (customers db))
        /\ StronglySorted
             (fun x y =>
                Paging.directed (Js.or_else (q_order q) "desc")
                  (CustomerList.by_column
                     (Js.or_else (q_sort q) "created_at")) x y = true) all
        /\ data = map (CustomerList.with_addresses like q db)
                      (firstn (Z.to_nat (Paging.limit_of q))
                              (skipn (Z.to_nat (Paging.offset_of q)) all)))
  /\ (forall e, In e data ->
        In (CustomerList.l_customer e) (customers db)
        /\ CustomerList.l_addresses e
           = filter (Paging.in_place like q)
                    (Sql.addresses_of
                       (Some (c_id (CustomerList.l_customer e))) db)
        /\ (CustomerList.filtered q = true ->
            CustomerList.l_addresses e <> [])
        /\ (CustomerList.filtered q = false ->
            CustomerList.l_addresses e
            = Sql.addresses_of (Some (c_id (CustomerList.l_customer e))) db))
  /\ (forall s,
        CustomerList.get like (with_search s q) db
        = CustomerList.get like q db).
Proof.
  intros Hr Hv _. destruct (customer_query_numbers q Hv) as [Hp Hl].
  pose proof (wf_customer_key _ (reachable_well_formed isEmail db Hr)) as Hn.
  unfold CustomerList.get at 1 2. rewrite Hv. cbn [negb fst snd status].
  unfold Paging.offset_of. rewrite (limit_offset_slice _ _ _ Hl).
  rewrite (selected_customers like q db Hn).
  set (sorted := order_by _ _).
  assert (Hperm : Permutation sorted
            (filter (fun c => negb (CustomerList.filtered q)
                              || has_address_in_place like q db c)
                    (customers db))) by apply order_by_perm.
  split; [reflexivity|]. split; [|split].
  - exists sorted. split; [exact Hperm|]. split; [|reflexivity].
    apply order_by_sorted.
    + apply directed_or. apply customer_column_or.
    + apply directed_trans. apply customer_column_trans.
  - intros e He. apply in_map_iff in He. destruct He as (c & <- & Hc).
    apply in_slice in Hc. apply (Permutation_in _ Hperm) in Hc.
    apply filter_In in Hc. destruct Hc as [Hc Hshown].
    cbn [CustomerList.with_addresses CustomerList.l_customer
         CustomerList.l_addresses].
    split; [exact Hc|]. split; [reflexivity|]. split.
    + intros Hf. rewrite Hf in Hshown. simpl in Hshown.
      unfold has_address_in_place in Hshown.
      rewrite existsb_filter in Hshown.
      now destruct (filter (Paging.in_place like q)
                           (Sql.addresses_of (Some (c_id c)) db)).
    + intros Hf. apply filter_all. intros a _.
      now apply unfiltered_in_place.
  - reflexivity.
Qed.

(** X22. The [pagination] object of GET /customers agrees with the page
    it comes with, on every store the server can reach: [total], which
    a query of its own counts, is the number of customers that the
    listing holds over all pages (every customer, or with an address
    filter those with a matching address row); the page holds the
    customers left after the earlier pages, up to [limit];
    [totalPages], [hasNext] and [hasPrev] follow from [total], and the
    page is empty exactly when it lies beyond [totalPages]. *)
Theorem customer_list_pages (q : Query) (db : Db) :
  reachable isEmail db ->
  CustomerList.valid q = true ->
  in_range q ->
  exists p,
    snd (CustomerList.get like q db) = Some p
    /\ p_page p = Paging.page_of q
    /\ p_limit p = Paging.limit_of q
    /\ p_total p
       = Z.of_nat (List.length
                     (filter (fun c => negb (CustomerList.filtered q)
                                       || has_address_in_place like q db c)
                             (customers db)))
    /\ page_consistent (snd (fst (CustomerList.get like q db))) p.
Proof.
  intros Hr Hv _. destruct (customer_query_numbers q Hv) as [Hp Hl].
  pose proof (wf_customer_key _ (reachable_well_formed isEmail db Hr)) as Hn.
  unfold CustomerList.get. rewrite Hv. cbn [negb fst snd].
  rewrite (count_selected like q db Hn).
  rewrite (selected_customers like q db Hn).
  eexists. split; [reflexivity|]. split; [reflexivity|].
  split; [reflexivity|]. split; [reflexivity|].
  apply page_consistent_map.
  set (sorted := order_by _ _).
  replace (List.length
             (filter (fun c => negb (CustomerList.filtered q)
                               || has_address_in_place like q db c)
                     (customers db)))
    with (List.length sorted).
  - unfold Paging.offset_of. apply page_facts; assumption.
  - subst sorted. apply Permutation_length, order_by_perm.
Qed.

End CustomerListing.

Lemma address_list_rows_witness :
  AddressList.valid (in_city "Spring") = true
  /\ in_range (in_city "Spring")
  /\ status (fst (fst (AddressList.get (fun _ _ => true) (fun _ => None)
                                       (in_city "Spring") ann_db))) = 200.
Proof.
  assert (Hr : in_range (in_city "Spring")) by (vm_compute; reflexivity).
  split; [reflexivity|]. split; [exact Hr|].
  exact (proj1 (address_list_rows (fun _ _ => true) (fun _ => None)
                                  (in_city "Spring") ann_db eq_refl Hr)).
Defined.

Lemma address_list_pages_witness :
  exists p,
    snd (AddressList.get (fun _ _ => true) (fun _ => None)
                         (in_city "Spring") ann_db) = Some p
    /\ p_page p = Paging.page_of (in_city "Spring")
    /\ p_limit p = Paging.limit_of (in_city "Spring")
    /\ p_total p
       = Z.of_nat (List.length
                     (filter (AddressList.wanted (fun _ _ => true)
                                                 (fun _ => None)
                                                 (in_city "Spring"))
                             (addresses ann_db)))
    /\ page_consistent
         (snd (fst (AddressList.get (fun _ _ => true) (fun _ => None)
                                    (in_city "Spring") ann_db))) p.
Proof.
  apply (address_list_pages (fun _ _ => true) (fun _ => None)
                            (in_city "Spring") ann_db).
  - reflexivity.
  - vm_compute. reflexivity.
Defined.

Lemma customer_list_rows_witness :
  CustomerList.valid (in_city "Spring") = true
  /\ in_range (in_city "Spring")
  /\ status (fst (fst (CustomerList.get (fun _ _ => true)
                                        (in_city "Spring") ann_db))) = 200.
Proof.
  assert (Hr : in_range (in_city "Spring")) by (vm_compute; reflexivity).
  split; [reflexivity|]. split; [exact Hr|].
  exact (proj1 (customer_list_rows (fun _ => true) (fun _ _ => true)
                                   (in_city "Spring") ann_db
                                   (ann_db_reachable (fun _ => true))
                                   eq_refl Hr)).
Defined.

Lemma customer_list_pages_witness :
  exists p,
    snd (CustomerList.get (fun _ _ => true) (in_city "Spring") ann_db)
    = Some p
    /\ p_page p = Paging.page_of (in_city "Spring")
    /\ p_limit p = Paging.limit_of (in_city "Spring")
    /\ p_total p
       = Z.of_nat (List.length
                     (filter (fun c =>
                                negb (CustomerList.filtered
                                        (in_city "Spring"))
                                || has_address_in_place (fun _ _ => true)
                                     (in_city "Spring") ann_db c)
                             (customers ann_db)))
    /\ page_consistent
         (snd (fst (CustomerList.get (fun _ _ => true) (in_city "Spring")
                                     ann_db))) p.
Proof.
  apply (customer_list_pages (fun _ => true) (fun _ _ => true)
                             (in_city "Spring") ann_db).
  - exact (ann_db_reachable (fun _ => true)).
  - reflexivity.
  - vm_compute. reflexivity.
Defined.
